(** * drone_sync_beta: ingestion and alignment core

    A shallow embedding of [drone_sync_beta.py].  Python integers are [Z],
    text is [string] (characters are code points 0..255, on which the
    regular-expression class [\d] is exactly '0'..'9'), exceptions are an
    explicit [result] type, and binary64 floating point is modelled by
    correctly rounded arithmetic on magnitudes counted in units of 2^-1074. *)

From Stdlib Require Import ZArith List String Ascii Bool Lia.
From Stdlib Require Import Floats.SpecFloat DecimalString.
From Stdlib Require Import Sorting.Sorted Sorting.Permutation.
Import ListNotations.
Local Open Scope Z_scope.

(** ** Exceptions *)

Inductive exn : Type :=
| ValueError
| OverflowError
| ZeroDivisionError.

Inductive result (A : Type) : Type :=
| Ok (a : A)
| Raise (e : exn).

Arguments Ok {A} a.
Arguments Raise {A} e.

Definition bind {A B : Type} (c : result A) (k : A -> result B) : result B :=
  match c with
  | Ok a => k a
  | Raise e => Raise e
  end.

Declare Scope result_scope.
Delimit Scope result_scope with result.
Notation "x <- c ;; k" := (bind c (fun x => k))
  (at level 61, c at next level, right associativity) : result_scope.
Local Open Scope result_scope.

(** ** Binary64 arithmetic

    Every finite double is an integer multiple of 2^-1074 whose quotient
    has at most 53 significant bits.  A magnitude is represented by that
    integer quotient (its number of ulps of the least subnormal).  An
    operation computes the exact rational result [n / d] (in the same
    unit) and rounds it to the nearest representable magnitude, ties to
    even. *)

Definition prec : Z := 53.
Definition ulp_exp : Z := 1074.
Definition one_ulps : Z := 2 ^ ulp_exp.
Definition inf_ulps : Z := 2 ^ (1024 + ulp_exp).

(** Nearest integer to [n / d] for [d > 0], ties to the even neighbour. *)
Definition round_half_even (n d : Z) : Z :=
  let q := n / d in
  match 2 * (n mod d) ?= d with
  | Lt => q
  | Gt => q + 1
  | Eq => if Z.even q then q else q + 1
  end.

(** Rounding [n / d] ulps to 53 significant bits: the spacing of the
    doubles around a magnitude of [q] ulps is [2 ^ t] ulps with
    [t = max 0 (floor (log2 q) - 52)]. *)
Definition round_ulps (n d : Z) : Z :=
  let t := Z.max 0 (Z.log2 (n / d) - (prec - 1)) in
  round_half_even n (d * 2 ^ t) * 2 ^ t.

Inductive float : Type :=
| Finite (neg : bool) (ulps : Z)
| Infinite (neg : bool)
| NaN.

Definition fround (neg : bool) (n d : Z) : float :=
  let u := round_ulps n d in
  if inf_ulps <=? u then Infinite neg else Finite neg u.

(** [float(z)] as the arithmetic operators convert an [int] operand:
    OverflowError when the rounded value does not fit. *)
Definition float_of_int (z : Z) : result float :=
  match fround (z <? 0) (Z.abs z * one_ulps) 1 with
  | Infinite _ => Raise OverflowError
  | x => Ok x
  end.

(** [a / b] on two [int]s: the correctly rounded quotient. *)
Definition int_truediv (a b : Z) : result float :=
  if b =? 0 then Raise ZeroDivisionError
  else match fround (xorb (a <? 0) (b <? 0)) (Z.abs a * one_ulps) (Z.abs b) with
       | Infinite _ => Raise OverflowError
       | x => Ok x
       end.

Definition fmul (x y : float) : float :=
  match x, y with
  | NaN, _ | _, NaN => NaN
  | Finite sx ux, Finite sy uy => fround (xorb sx sy) (ux * uy) one_ulps
  | Infinite sx, Infinite sy => Infinite (xorb sx sy)
  | Infinite sx, Finite sy uy =>
      if uy =? 0 then NaN else Infinite (xorb sx sy)
  | Finite sx ux, Infinite sy =>
      if ux =? 0 then NaN else Infinite (xorb sx sy)
  end.

(** [x / y] on floats: Python raises ZeroDivisionError on a zero divisor
    before the hardware division is attempted. *)
Definition fdiv (x y : float) : result float :=
  match x, y with
  | _, Finite _ 0 => Raise ZeroDivisionError
  | NaN, _ | _, NaN => Ok NaN
  | Finite sx ux, Finite sy uy => Ok (fround (xorb sx sy) (ux * one_ulps) uy)
  | Finite sx _, Infinite sy => Ok (Finite (xorb sx sy) 0)
  | Infinite sx, Finite sy _ => Ok (Infinite (xorb sx sy))
  | Infinite _, Infinite _ => Ok NaN
  end.

Definition signed (neg : bool) (z : Z) : Z := if neg then - z else z.

(** [round(x)] with one argument: nearest integer, ties to even. *)
Definition py_round (x : float) : result Z :=
  match x with
  | Finite s u => Ok (signed s (round_half_even u one_ulps))
  | Infinite _ => Raise OverflowError
  | NaN => Raise ValueError
  end.

(** [int(x)] on a float: truncation toward zero. *)
Definition py_int (x : float) : result Z :=
  match x with
  | Finite s u => Ok (signed s (u / one_ulps))
  | Infinite _ => Raise OverflowError
  | NaN => Raise ValueError
  end.

(** The same value in the Standard Library's IEEE 754 specification, used
    to cross-check the operations above on concrete operands. *)
Definition to_spec (x : float) : spec_float :=
  match x with
  | Finite s u => binary_normalize 53 1024 (signed s u) (- ulp_exp) s
  | Infinite s => S754_infinity s
  | NaN => S754_nan
  end.

(** ** Dates and times

    [datetime] and [timedelta] of Python's [datetime] module, restricted to
    the operations the program uses. *)

Record datetime : Type := mk_datetime {
  year : Z; month : Z; day : Z;
  hour : Z; minute : Z; second : Z; microsecond : Z
}.

Record timedelta : Type := mk_timedelta {
  days : Z; seconds : Z; microseconds : Z
}.

Definition is_leap (y : Z) : bool :=
  (y mod 4 =? 0) && (negb (y mod 100 =? 0) || (y mod 400 =? 0)).

Definition days_in_month (y m : Z) : Z :=
  if m =? 2 then (if is_leap y then 29 else 28)
  else if (m =? 4) || (m =? 6) || (m =? 9) || (m =? 11) then 30
  else 31.

(** The invariant [datetime]'s constructor enforces (ValueError otherwise). *)
Definition valid_datetime (t : datetime) : bool :=
  (1 <=? year t) && (year t <=? 9999) &&
  (1 <=? month t) && (month t <=? 12) &&
  (1 <=? day t) && (day t <=? days_in_month (year t) (month t)) &&
  (0 <=? hour t) && (hour t <=? 23) &&
  (0 <=? minute t) && (minute t <=? 59) &&
  (0 <=? second t) && (second t <=? 59) &&
  (0 <=? microsecond t) && (microsecond t <=? 999999).

Definition days_before_year (y : Z) : Z :=
  let p := y - 1 in p * 365 + p / 4 - p / 100 + p / 400.

Fixpoint days_before_month_aux (y : Z) (m : nat) : Z :=
  match m with
  | O => 0
  | S k => days_before_month_aux y k + days_in_month y (Z.of_nat (S k))
  end.

Definition days_before_month (y m : Z) : Z :=
  days_before_month_aux y (Z.to_nat (m - 1)).

Definition toordinal (t : datetime) : Z :=
  days_before_year (year t) + days_before_month (year t) (month t) + day t.

(** [timedelta(days, seconds, microseconds)]: the constructor normalises
    to [0 <= seconds < 86400] and [0 <= microseconds < 10^6]. *)
Definition normalize_timedelta (d s us : Z) : timedelta :=
  let s1 := s + us / 1000000 in
  {| days := d + s1 / 86400;
     seconds := s1 mod 86400;
     microseconds := us mod 1000000 |}.

(** [a - b] on naive datetimes. *)
Definition datetime_sub (a b : datetime) : timedelta :=
  normalize_timedelta
    (toordinal a - toordinal b)
    ((hour a * 3600 + minute a * 60 + second a)
     - (hour b * 3600 + minute b * 60 + second b))
    (microsecond a - microsecond b).

(** [ts.replace(hour=0, minute=0, second=0, microsecond=0)]. *)
Definition replace_midnight (ts : datetime) : datetime :=
  {| year := year ts; month := month ts; day := day ts;
     hour := 0; minute := 0; second := 0; microsecond := 0 |}.

(** [delta.total_seconds()]:
    [((days * 86400 + seconds) * 10**6 + microseconds) / 10**6]. *)
Definition total_seconds (delta : timedelta) : result float :=
  int_truediv
    ((days delta * 86400 + seconds delta) * 10 ^ 6 + microseconds delta)
    (10 ^ 6).

(** Microseconds since midnight of the timestamp's own day. *)
Definition time_of_day_us (t : datetime) : Z :=
  (hour t * 3600 + minute t * 60 + second t) * 1000000 + microsecond t.

(** [a <= b] on naive datetimes compares the field tuples
    (year, month, day, hour, minute, second, microsecond). *)
Fixpoint lex_leb (a b : list Z) : bool :=
  match a, b with
  | [], _ => true
  | _ :: _, [] => false
  | x :: a', y :: b' => (x <? y) || ((x =? y) && lex_leb a' b')
  end.

Definition datetime_fields (t : datetime) : list Z :=
  [year t; month t; day t; hour t; minute t; second t; microsecond t].

Definition datetime_le (a b : datetime) : Prop :=
  lex_leb (datetime_fields a) (datetime_fields b) = true.

Definition same_day (a b : datetime) : Prop :=
  year a = year b /\ month a = month b /\ day a = day b.

(** ** Frame aligner (lines 42-45) *)

Definition compute_record_frame (ts : datetime) (fps : Z) : result Z :=
  let day_start := replace_midnight ts in
  let delta := datetime_sub ts day_start in
  secs <- total_seconds delta ;;
  f <- float_of_int fps ;;
  py_round (fmul secs f).

(** ** Text and regular expressions

    The four patterns of the program are sequences of literals and digit
    repetitions; [match_items] is a backtracking matcher for such
    sequences with Python's greedy semantics. *)

Definition text : Type := list ascii.
Definition str (s : string) : text := list_ascii_of_string s.

Definition code (c : ascii) : Z := Z.of_N (N_of_ascii c).

Definition is_digit (c : ascii) : bool := (48 <=? code c) && (code c <=? 57).

(** The value of a string of decimal digits. *)
Definition int_of_digits (d : text) : Z :=
  fold_left (fun acc c => acc * 10 + (code c - 48)) d 0.

(** [int(d)] on a string of decimal digits.  CPython refuses a string
    of more than [sys.int_info.default_max_str_digits] = 4300 digits with
    ValueError; the program leaves that limit at its default.  The
    timestamp fields and the resolution groups have at most five digits,
    so for them [int] is [int_of_digits]. *)
Definition max_str_digits : nat := 4300.

Definition py_int_of_str (d : text) : result Z :=
  if (max_str_digits <? List.length d)%nat then Raise ValueError
  else Ok (int_of_digits d).

Fixpoint map_result {A B : Type} (f : A -> result B) (l : list A)
  : result (list B) :=
  match l with
  | [] => Ok []
  | x :: l' =>
      match f x with
      | Ok y => match map_result f l' with
                | Ok ys => Ok (y :: ys)
                | Raise e => Raise e
                end
      | Raise e => Raise e
      end
  end.

Inductive item : Type :=
| Lit (l : text)                       (* literal characters *)
| Digits (lo : nat) (hi : option nat). (* a captured [\d{lo,hi}]; [\d+] is [Digits 1 None] *)

Fixpoint strip_prefix (l s : text) : option text :=
  match l, s with
  | [], _ => Some s
  | a :: l', b :: s' => if Ascii.eqb a b then strip_prefix l' s' else None
  | _ :: _, [] => None
  end.

Fixpoint digit_run (s : text) : nat :=
  match s with
  | c :: s' => if is_digit c then S (digit_run s') else O
  | [] => O
  end.

(** Greedy repetition: take [k] characters and try the rest of the
    pattern; on failure give one back, down to [lo]. *)
Fixpoint try_counts {R : Type} (cont : text -> option R) (s : text)
    (lo k : nat) : option (text * R) :=
  if (k <? lo)%nat then None
  else match cont (skipn k s) with
       | Some r => Some (firstn k s, r)
       | None => match k with
                 | O => None
                 | S k' => try_counts cont s lo k'
                 end
       end.

(** Match the pattern at the start of [s]: the captured digit groups and
    the unconsumed rest. *)
Fixpoint match_items (p : list item) (s : text) : option (list text * text) :=
  match p with
  | [] => Some ([], s)
  | Lit l :: p' =>
      match strip_prefix l s with
      | Some s' => match_items p' s'
      | None => None
      end
  | Digits lo hi :: p' =>
      let avail := digit_run s in
      let k := match hi with Some h => Nat.min h avail | None => avail end in
      match try_counts (match_items p') s lo k with
      | Some (d, (caps, rest)) => Some (d :: caps, rest)
      | None => None
      end
  end.

Definition matched_text (s rest : text) : text :=
  firstn (List.length s - List.length rest) s.

(** [re.search]: the match at the leftmost position that has one, as
    (matched text, captured groups). *)
Fixpoint search (p : list item) (s : text) : option (text * list text) :=
  match match_items p s with
  | Some (caps, rest) => Some (matched_text s rest, caps)
  | None => match s with
            | [] => None
            | _ :: s' => search p s'
            end
  end.

(** [re.findall]: all non-overlapping matches, left to right; [skip]
    counts the characters still covered by the previous match. *)
Fixpoint findall_from (p : list item) (s : text) (skip : nat) : list (list text) :=
  match skip with
  | S n => match s with
           | [] => []
           | _ :: s' => findall_from p s' n
           end
  | O =>
      match match_items p s with
      | Some (caps, rest) =>
          caps :: match s with
                  | [] => []
                  | _ :: s' =>
                      findall_from p s' (List.length s - List.length rest - 1)
                  end
      | None => match s with
                | [] => []
                | _ :: s' => findall_from p s' O
                end
      end
  end.

Definition findall (p : list item) (s : text) : list (list text) :=
  findall_from p s O.

(** [(\d{4}-\d{2}-\d{2} \d{2}:\d{2}:\d{2}\.\d{3})] *)
Definition timestamp_pattern : list item :=
  [Digits 4 (Some 4%nat); Lit (str "-"); Digits 2 (Some 2%nat); Lit (str "-");
   Digits 2 (Some 2%nat); Lit (str " "); Digits 2 (Some 2%nat); Lit (str ":");
   Digits 2 (Some 2%nat); Lit (str ":"); Digits 2 (Some 2%nat); Lit (str ".");
   Digits 3 (Some 3%nat)].

(** [DiffTime: (\d+)ms] *)
Definition difftime_pattern : list item :=
  [Lit (str "DiffTime: "); Digits 1 None; Lit (str "ms")].

(** [FrameCnt: (\d+)] *)
Definition framecnt_pattern : list item :=
  [Lit (str "FrameCnt: "); Digits 1 None].

(** [(\d{3,5})x(\d{3,5})] *)
Definition resolution_pattern : list item :=
  [Digits 3 (Some 5%nat); Lit (str "x"); Digits 3 (Some 5%nat)].

(** ** Sidecar parser (lines 21-39)

    Both functions are given the text [_read_text] returned for the
    sidecar file. *)

(** [datetime.strptime(w, "%Y-%m-%d %H:%M:%S.%f")] on a string of the
    shape the search pattern matches: every field is read as a decimal
    number, [%f] is padded to microseconds, and a field outside its range
    (month 00 or 13, day 31 in a 30-day month, hour 24, second 60, year
    0000, ...) is a ValueError. *)
Definition strptime (w : text) : result datetime :=
  match match_items timestamp_pattern w with
  | Some ([y; mo; d; h; mi; s; f], []) =>
      let t := {| year := int_of_digits y; month := int_of_digits mo;
                  day := int_of_digits d; hour := int_of_digits h;
                  minute := int_of_digits mi; second := int_of_digits s;
                  microsecond := int_of_digits f * 1000 |} in
      if valid_datetime t then Ok t else Raise ValueError
  | _ => Raise ValueError
  end.

Definition parse_srt_for_timestamp (content : text) : result (option datetime) :=
  match search timestamp_pattern content with
  | None => Ok None
  | Some (w, _) => t <- strptime w ;; Ok (Some t)
  end.

Definition group1 (m : list text) : text := hd [] m.

Definition sum_Z (l : list Z) : Z := fold_left Z.add l 0.

Definition get_clip_duration_frames (content : text) (fps : Z)
  : result (option Z) :=
  let diff_times := map group1 (findall difftime_pattern content) in
  match diff_times with
  | _ :: _ =>
      ints <- map_result py_int_of_str diff_times ;;
      let total_ms := sum_Z ints in
      f <- float_of_int fps ;;
      frame_ms <- fdiv (Finite false (1000 * one_ulps)) f ;;
      t <- float_of_int total_ms ;;
      q <- fdiv t frame_ms ;;
      n <- py_int q ;;
      Ok (Some n)
  | [] =>
      let entries := map group1 (findall framecnt_pattern content) in
      match entries with
      | _ :: _ => Ok (Some (Z.of_nat (List.length entries)))
      | [] => Ok None
      end
  end.

(** [ts.strftime('%y-%m-%d')]: two-digit year, month and day. *)
Definition digit_char (n : Z) : ascii := ascii_of_N (Z.to_N (48 + n mod 10)).

Definition two_digits (n : Z) : text := [digit_char (n / 10); digit_char n].

Definition strftime_ymd (ts : datetime) : text :=
  two_digits (year ts mod 100) ++ str "-" ++ two_digits (month ts)
  ++ str "-" ++ two_digits (day ts).

(** ** Filesystem scanner (lines 73-79 and 103-110) *)

Definition startswith (prefix s : text) : bool :=
  match strip_prefix prefix s with
  | Some _ => true
  | None => false
  end.

Definition endswith (suffix s : text) : bool :=
  startswith (rev suffix) (rev s).

(** [str.lower] on code points 0..255: 'A'..'Z' and the Latin-1 capitals
    U+00C0..U+00DE (U+00D7, the multiplication sign, apart) move up by 32. *)
Definition lower_char (c : ascii) : ascii :=
  let n := code c in
  if ((65 <=? n) && (n <=? 90))
     || ((192 <=? n) && (n <=? 222) && negb (n =? 215))
  then ascii_of_N (Z.to_N (n + 32))
  else c.

Definition lower (s : text) : text := map lower_char s.

(** The three values [norm_ext] returns: 'video', 'srt' and ''. *)
Inductive ext_kind : Type := video | srt | no_ext.

Definition norm_ext (name : text) : ext_kind :=
  let lower := lower name in
  if endswith (str ".mp4") lower || endswith (str ".mov") lower then video
  else if endswith (str ".srt") lower then srt
  else no_ext.

Definition ext_kind_eqb (a b : ext_kind) : bool :=
  match a, b with
  | video, video | srt, srt | no_ext, no_ext => true
  | _, _ => false
  end.

(** A directory tree.  [Special] stands for an entry that is neither a
    regular file nor a directory (a socket, a dangling link). *)
#[warnings="-register-all"]
Inductive node : Type :=
| File (name : text)
| Dir (name : text) (children : list node)
| Special (name : text).

Definition node_name (n : node) : text :=
  match n with
  | File name | Dir name _ | Special name => name
  end.

Definition is_file (n : node) : bool :=
  match n with
  | File _ => true
  | _ => false
  end.

(** A path below the scanned folder: the names walked, outermost first. *)
Definition path : Type := list text.

Definition path_name (p : path) : text := last p [].

(** [folder.rglob('*')]: every entry below [folder], at any depth, hidden
    ones included, each with what [is_file()] answers for it.  A
    directory's own entries come first, then those of its subdirectories. *)
Fixpoint rglob_below (parent : path) (n : node) : list (path * bool) :=
  match n with
  | Dir name children =>
      let here := parent ++ [name] in
      map (fun c => (here ++ [node_name c], is_file c)) children
      ++ flat_map (rglob_below here) children
  | _ => []
  end.

Definition rglob (folder : node) : list (path * bool) :=
  match folder with
  | Dir _ children =>
      map (fun c => ([node_name c], is_file c)) children
      ++ flat_map (rglob_below []) children
  | _ => []
  end.

(** The loop body of [scan_videos], on one walked entry. *)
Definition keep_video (e : path * bool) : bool :=
  let name := path_name (fst e) in
  if startswith (str "._") name || startswith (str ".") name then false
  else snd e && ext_kind_eqb (norm_ext name) video.

Definition scan_videos (cam_folder : node) : list path :=
  map fst (filter keep_video (rglob cam_folder)).

(** ** Export file names (lines 159-160) *)

Definition double_quote : ascii := ascii_of_nat 34.

(** The character class of the substitution: backslash, slash, colon,
    star, question mark, double quote, less-than, greater-than, bar. *)
Definition forbidden_chars : text :=
  str "\/:*?" ++ [double_quote] ++ str "<>|".

Definition is_forbidden (c : ascii) : bool :=
  existsb (Ascii.eqb c) forbidden_chars.

Definition safe_filename (name : text) : text :=
  map (fun c => if is_forbidden c then "_"%char else c) name.

(** [f"{safe_filename(tl.GetName())}.xml"] (line 305). *)
Definition xml_name (timeline_name : text) : text :=
  safe_filename timeline_name ++ str ".xml".

(** ** Resolution reconciliation (lines 258-278) *)

(** What [item.GetClipProperty('Resolution')] can give: a string, a dict
    (of which only the value under 'Resolution' is read, and only when it
    is a string), anything else, or an exception. *)
Inductive clip_property : Type :=
| PropStr (s : text)
| PropDict (resolution : option text)
| PropOther
| PropRaises.

Definition parse_resolution (s : text) : option (Z * Z) :=
  match search resolution_pattern s with
  | Some (_, [w; h]) => Some (int_of_digits w, int_of_digits h)
  | _ => None
  end.

Definition property_resolution (res : clip_property) : option (Z * Z) :=
  match res with
  | PropStr s => parse_resolution s
  | PropDict (Some v) => parse_resolution v
  | _ => None
  end.

(** One iteration of the loop on the running [(max_w, max_h)]. *)
Definition update_max (acc : Z * Z) (res : clip_property) : Z * Z :=
  match property_resolution res with
  | Some (w, h) => if w * h >? fst acc * snd acc then (w, h) else acc
  | None => acc
  end.



(** ** Small text helpers used by [main] *)

Definition text_eqb (a b : text) : bool :=
  if list_eq_dec ascii_dec a b then true else false.

(** Order of [str]: lexicographic on code points. *)
Fixpoint text_leb (a b : text) : bool :=
  match a, b with
  | [], _ => true
  | _ :: _, [] => false
  | x :: a', y :: b' =>
      (code x <? code y) || ((code x =? code y) && text_leb a' b')
  end.

(** [str(n)] on an [int]. *)
Definition text_of_Z (n : Z) : text := str (NilZero.string_of_int (Z.to_int n)).

(** A stable sort by an integer key; [list.sort(key=...)] and [sorted]
    are stable, and a stable sort has only one possible result. *)
Fixpoint insert_by {A : Type} (leb : A -> A -> bool) (x : A) (l : list A) : list A :=
  match l with
  | [] => [x]
  | y :: l' => if leb y x then y :: insert_by leb x l' else x :: y :: l'
  end.

Definition sort_by {A : Type} (leb : A -> A -> bool) (l : list A) : list A :=
  fold_left (fun acc x => insert_by leb x acc) l [].

(** ** The program's surroundings

    [main] talks to the filesystem, the console and the host application.
    Each such call is a constructor of [call], indexed by the type of its
    answer; the answers come from an arbitrary environment [ask].

    The environment answers every call.  Where the program catches the
    exception of a call (lines 117-131, 136-146, 261-278, 307-312) the
    answer says so ([None] for [GetSubFolders] and [GetName]); a call that
    raises outside a [try] (a file error on [mkdir] or [iterdir], an end
    of input on [input], an error of the host) leaves the program at that
    call and has no run here.  The runs described are therefore those in
    which such calls return, and a statement on all the calls of a run
    also holds of the calls made before such an exception. *)

Inductive message : Type :=
| MsgNoDateFolder                      (* line 175 *)
| MsgBadFrameRate                      (* line 179 *)
| MsgNoCamOrDateFolders                (* line 186 *)
| MsgListing (idx : Z) (name : text)   (* lines 189, 202 *)
| MsgNoDateFolderChosen                (* line 192 *)
| MsgStillNoCamFolders                 (* line 198 *)
| MsgNoCamChosen                       (* line 205 *)
| MsgNoProject                         (* line 213 *)
| MsgCamBinFailed (cam_id : text)      (* line 224 *)
| MsgSkipNoSrt (v : path)              (* line 231 *)
| MsgSkipNoTimestamp (v : path)        (* line 235 *)
| MsgDateBinFailed (cam_id realdate : text)   (* line 244 *)
| MsgTimelineFailed (name : text)      (* line 254 *)
| MsgResolution (name rw rh : text)    (* line 296 *)
| MsgAppendFailed (item_name : text) (record_frame : Z)  (* line 301 *)
| MsgExported (xml_path : path)        (* line 316 *)
| MsgExportFailed (xml_path : path).   (* line 318 *)

Inductive prompt : Type :=
| PromptDateFolder    (* line 190 *)
| PromptCams.         (* line 203 *)

Section Program.

(** Opaque host objects: bins, timelines, media pool items. *)
Variable Handle : Type.

(** The dict handed to [AppendToTimeline]; the two trim keys are present
    together or not at all. *)
Record clip_info : Type := mk_clip_info {
  mediaPoolItem : Handle;
  trackIndex : Z;
  recordFrame : Z;
  trim : option (Z * Z)     (* startFrame, endFrame *)
}.

Inductive call : Type -> Type :=
(* filesystem *)
| PathExists (p : path) : call bool
| PathIsDir (p : path) : call bool
| Mkdir (p : path) : call unit
| Iterdir (p : path) : call (list (text * bool))   (* entry names, with is_dir() *)
| Rglob (p : path) : call (list (path * bool))     (* paths below, with is_file() *)
| Glob (dir : path) (suffix : text) : call (list text)  (* names matching '*' ++ suffix *)
| ReadText (p : path) : call text                  (* _read_text *)
| Unlink (p : path) : call unit
(* console *)
| Print (m : message) : call unit
| Input (p : prompt) : call text
(* host application *)
| ScriptApp : call unit
| GetProjectManager : call unit
| GetCurrentProject : call bool                    (* is a project open *)
| GetMediaPool : call unit
| GetRootFolder : call (option Handle)
| ProjectSetSetting (key value : text) : call unit
| GetSubFolders (folder : Handle) : call (option (list Handle))
| GetName (folder : Handle) : call (option text)   (* None: the call raised *)
| SetCurrentFolder (folder : option Handle) : call unit
| AddSubFolder (parent : Handle) (name : text) : call (option Handle)
| GetTimelineCount : call Z
| GetTimelineByIndex (i : Z) : call (option Handle)
| TimelineGetName (tl : Handle) : call text
| CreateEmptyTimeline (name : text) : call (option Handle)
| ImportMedia (v : path) : call (list Handle)
| TimelineSetSetting (tl : Handle) (key value : text) : call unit
| SetStartTimecode (tl : Handle) (tc : text) : call unit
| TimelineGetSetting (tl : Handle) (key : text) : call text
| GetClipProperty (item : Handle) : call clip_property
| AppendToTimeline (info : clip_info) : call bool
| ItemGetName (item : Handle) : call text
| SetCurrentTimeline (tl : Handle) : call unit
| Export (tl : Handle) (xml_path : path) : call bool.

Inductive event : Type :=
| Ev (R : Type) (c : call R) (r : R).

Arguments Ev {R} c r.

Variable World : Type.
Variable ask : forall R : Type, call R -> World -> R * World.

(** Computations: a result (or an uncaught exception), the world after,
    and the calls made, in order. *)
Definition M (A : Type) : Type := World -> result A * World * list event.

Definition ret {A : Type} (a : A) : M A := fun w => (Ok a, w, []).

Definition lift {A : Type} (r : result A) : M A := fun w => (r, w, []).

Definition bindM {A B : Type} (m : M A) (k : A -> M B) : M B :=
  fun w =>
    let '(r, w1, t1) := m w in
    match r with
    | Ok a => let '(r2, w2, t2) := k a w1 in (r2, w2, t1 ++ t2)
    | Raise e => (Raise e, w1, t1)
    end.

Definition perform {R : Type} (c : call R) : M R :=
  fun w => let '(r, w') := ask R c w in (Ok r, w', [Ev c r]).

Declare Scope io_scope.
Notation "x <- c ;; k" := (bindM c (fun x => k))
  (at level 61, c at next level, right associativity) : io_scope.
Notation "c ;;; k" := (bindM c (fun _ => k))
  (at level 61, right associativity) : io_scope.
Local Open Scope io_scope.

Fixpoint for_each {A : Type} (body : A -> M unit) (l : list A) : M unit :=
  match l with
  | [] => ret tt
  | x :: l' => body x ;;; for_each body l'
  end.

Fixpoint fold_M {A S : Type} (body : S -> A -> M S) (l : list A) (s : S) : M S :=
  match l with
  | [] => ret s
  | x :: l' => s' <- body s x ;; fold_M body l' s'
  end.

(** *** pathlib *)

(** [name.rfind('.')] as the length of the part before the last dot. *)
Fixpoint rfind_dot (name : text) : option nat :=
  match name with
  | [] => None
  | c :: rest =>
      match rfind_dot rest with
      | Some i => Some (S i)
      | None => if Ascii.eqb c "." then Some O else None
      end
  end.

(** [PurePath.stem] and [PurePath.suffix]: the last dot splits the name
    unless it is the first or the last character. *)
Definition stem (name : text) : text :=
  match rfind_dot name with
  | Some i => if (0 <? i)%nat && (i <? List.length name - 1)%nat
              then firstn i name else name
  | None => name
  end.

Definition suffix (name : text) : text :=
  match rfind_dot name with
  | Some i => if (0 <? i)%nat && (i <? List.length name - 1)%nat
              then skipn i name else []
  | None => []
  end.

Definition parent (p : path) : path := removelast p.

(** [p.with_suffix(s)] for the two suffixes the program uses ('' and a
    dotted extension): the old suffix, if any, is replaced; a path with
    an empty name is a ValueError. *)
Definition with_suffix (p : path) (s : text) : result path :=
  match path_name p with
  | [] => Raise ValueError
  | _ :: _ => Ok (parent p ++ [stem (path_name p) ++ s])
  end.

(** *** Lines 48-53 *)

(** [str.upper] on ASCII and the Latin-1 small letters with a capital in
    the same range; the first three characters decide the test below. *)
Definition upper_char (c : ascii) : ascii :=
  let n := code c in
  if ((97 <=? n) && (n <=? 122))
     || ((224 <=? n) && (n <=? 254) && negb (n =? 247))
  then ascii_of_N (Z.to_N (n - 32))
  else c.

Definition upper (s : text) : text := map upper_char s.

Definition sorted_entries (entries : list (text * bool)) : list (text * bool) :=
  sort_by (fun a b => text_leb (fst a) (fst b)) entries.

Definition list_cam_folders (date_folder : path) : M (list path) :=
  entries <- perform (Iterdir date_folder) ;;
  ret (map (fun e => date_folder ++ [fst e])
         (filter (fun e => snd e && startswith (str "CAM") (upper (fst e)))
            (sorted_entries entries))).

(** *** Lines 56-70 *)

Definition is_space (c : ascii) : bool :=
  let n := code c in
  ((9 <=? n) && (n <=? 13)) || ((28 <=? n) && (n <=? 32))
  || (n =? 133) || (n =? 160).

Fixpoint lstrip (s : text) : text :=
  match s with
  | c :: s' => if is_space c then lstrip s' else s
  | [] => []
  end.

Definition strip (s : text) : text := rev (lstrip (rev (lstrip s))).

(** The class of line 60 on [text]: the comma and white space.  Its
    third member, the full-width comma U+FF0C, is not a character of
    [text]. *)
Definition is_separator (c : ascii) : bool := Ascii.eqb c "," || is_space c.

(** The pieces between separators.  [re.split] cuts at runs of
    separators; cutting at each separator only adds empty pieces, which
    the loop skips. *)
Fixpoint split_tokens (s cur : text) : list text :=
  match s with
  | [] => [rev cur]
  | c :: s' =>
      if is_separator c then rev cur :: split_tokens s' []
      else split_tokens s' (c :: cur)
  end.

(** [int(token)]: an optional sign, then digits, single underscores
    allowed between digits, and at most [max_str_digits] digits in all;
    [None] stands for ValueError. *)
Fixpoint digits_value (s : text) (after_digit : bool) (acc : Z) : option Z :=
  match s with
  | [] => if after_digit then Some acc else None
  | c :: s' =>
      if is_digit c then digits_value s' true (acc * 10 + (code c - 48))
      else if Ascii.eqb c "_" && after_digit then digits_value s' false acc
      else None
  end.

Definition int_of_token (t : text) : option Z :=
  if (max_str_digits <? List.length (filter is_digit t))%nat then None
  else
    match t with
    | "-"%char :: r => option_map Z.opp (digits_value r false 0)
    | "+"%char :: r => digits_value r false 0
    | _ => digits_value t false 0
    end.

Definition select_step (count : Z) (result : list Z) (token : text) : list Z :=
  match token with
  | [] => result
  | _ =>
      match int_of_token token with
      | Some i =>
          if (1 <=? i) && (i <=? count) then
            if existsb (Z.eqb i) result then result else result ++ [i]
          else result
      | None => result
      end
  end.

Definition select_indices (count : Z) (p : prompt) : M (list Z) :=
  raw <- perform (Input p) ;;
  let sel := strip raw in
  match sel with
  | [] => ret []
  | _ => ret (fold_left (select_step count) (split_tokens sel []) [])
  end.

(** *** Lines 82-100 *)

Definition not_hidden (name : text) : bool :=
  negb (startswith (str "._") name) && negb (startswith (str ".") name).

Definition first_matching_stem (dir : path) (names : list text) (want : text)
  : option path :=
  match filter (fun n => text_eqb (stem n) want && not_hidden n) names with
  | n :: _ => Some (dir ++ [n])
  | [] => None
  end.

Definition find_srt_for_video (video_path : path) : M (option path) :=
  base <- lift (with_suffix video_path []) ;;
  candidate_lower <- lift (with_suffix base (str ".srt")) ;;
  candidate_upper <- lift (with_suffix base (str ".SRT")) ;;
  e1 <- perform (PathExists candidate_lower) ;;
  if e1 && not_hidden (path_name candidate_lower) then ret (Some candidate_lower)
  else
    e2 <- perform (PathExists candidate_upper) ;;
    if e2 && not_hidden (path_name candidate_upper) then ret (Some candidate_upper)
    else
      l1 <- perform (Glob (parent video_path) (str ".srt")) ;;
      match first_matching_stem (parent video_path) l1 (stem (path_name video_path)) with
      | Some p => ret (Some p)
      | None =>
          l2 <- perform (Glob (parent video_path) (str ".SRT")) ;;
          ret (first_matching_stem (parent video_path) l2
                 (stem (path_name video_path)))
      end.

(** *** Lines 103-110, on what the walk of the folder answers *)

Definition scan_videos_io (cam_folder : path) : M (list path) :=
  entries <- perform (Rglob cam_folder) ;;
  ret (map fst (filter keep_video entries)).

(** *** Lines 113-147 *)

Fixpoint find_by_name (name : text) (folders : list Handle) : M (option Handle) :=
  match folders with
  | [] => ret None
  | f :: rest =>
      n <- perform (GetName f) ;;
      match n with
      | Some n' => if text_eqb n' name then ret (Some f) else find_by_name name rest
      | None => find_by_name name rest
      end
  end.

Definition scan_subfolders (root : Handle) (name : text) : M (option Handle) :=
  subs <- perform (GetSubFolders root) ;;
  match subs with
  | Some folders => find_by_name name folders
  | None => ret None
  end.

Definition ensure_bin (root_folder : option Handle) (name : text)
  : M (option Handle) :=
  match root_folder with
  | None => ret None
  | Some root =>
      found <- scan_subfolders root name ;;
      match found with
      | Some f => ret (Some f)
      | None =>
          perform (SetCurrentFolder (Some root)) ;;;
          created <- perform (AddSubFolder root name) ;;
          match created with
          | Some c => ret (Some c)
          | None => scan_subfolders root name
          end
      end
  end.

(** *** Lines 150-156 *)

Fixpoint find_timeline (name : text) (i : Z) (remaining : nat)
  : M (option Handle) :=
  match remaining with
  | O => ret None
  | S n =>
      tl <- perform (GetTimelineByIndex i) ;;
      match tl with
      | Some t =>
          tn <- perform (TimelineGetName t) ;;
          if text_eqb tn name then ret (Some t)
          else find_timeline name (i + 1) n
      | None => find_timeline name (i + 1) n
      end
  end.

Definition get_or_create_timeline (name : text) : M (option Handle) :=
  cnt <- perform GetTimelineCount ;;
  found <- find_timeline name 1 (Z.to_nat cnt) ;;
  match found with
  | Some t => ret (Some t)
  | None => perform (CreateEmptyTimeline name)
  end.

(** *** [main], lines 226-238: grouping by the timestamp's calendar day *)

Definition clip : Type := path * path * datetime.   (* (v, srt, ts) *)

Definition groups : Type := list (text * list clip).

(** [group_by_date.setdefault(key, []).append(x)] on an insertion-ordered
    dict. *)
Fixpoint setdefault_append (key : text) (x : clip) (g : groups) : groups :=
  match g with
  | [] => [(key, [x])]
  | (k, xs) :: g' =>
      if text_eqb k key then (k, xs ++ [x]) :: g'
      else (k, xs) :: setdefault_append key x g'
  end.

Definition group_step (group_by_date : groups) (v : path) : M groups :=
  s <- find_srt_for_video v ;;
  match s with
  | None => perform (Print (MsgSkipNoSrt v)) ;;; ret group_by_date
  | Some srt_path =>
      content <- perform (ReadText srt_path) ;;
      ts <- lift (parse_srt_for_timestamp content) ;;
      match ts with
      | None => perform (Print (MsgSkipNoTimestamp v)) ;;; ret group_by_date
      | Some t =>
          let realdate := strftime_ymd t in
          ret (setdefault_append realdate (v, srt_path, t) group_by_date)
      end
  end.

Definition group_videos (videos : list path) : M groups :=
  fold_M group_step videos [].

(** *** [main], lines 246-250 *)

Definition imported : Type := Handle * path * path * datetime.

Definition import_step (imported_items : list imported) (c : clip)
  : M (list imported) :=
  let '(v, srt_path, ts) := c in
  added <- perform (ImportMedia v) ;;
  match added with
  | item :: _ => ret (imported_items ++ [(item, v, srt_path, ts)])
  | [] => ret imported_items
  end.

(** *** [main], lines 258-289 *)

Definition make_info (item : Handle) (record_frame : Z) (duration : option Z)
  : clip_info :=
  {| mediaPoolItem := item; trackIndex := 1; recordFrame := record_frame;
     trim := match duration with
             | Some d => Some (0, d)
             | None => None
             end |}.

Definition info_step (fps : Z) (acc : (Z * Z) * list clip_info) (x : imported)
  : M ((Z * Z) * list clip_info) :=
  let '(item, v, srt_path, ts) := x in
  res <- perform (GetClipProperty item) ;;
  let max_wh := update_max (fst acc) res in
  record_frame <- lift (compute_record_frame ts fps) ;;
  content <- perform (ReadText srt_path) ;;
  duration <- lift (get_clip_duration_frames content fps) ;;
  ret (max_wh, snd acc ++ [make_info item record_frame duration]).

(** *** [main], lines 290-301 *)

Definition apply_resolution (timeline : Handle) (timeline_name : text)
    (max_wh : Z * Z) : M unit :=
  let '(max_w, max_h) := max_wh in
  if (max_w >? 0) && (max_h >? 0) then
    perform (TimelineSetSetting timeline (str "useCustomSettings") (str "1")) ;;;
    perform (TimelineSetSetting timeline (str "timelineResolutionWidth")
               (text_of_Z max_w)) ;;;
    perform (TimelineSetSetting timeline (str "timelineResolutionHeight")
               (text_of_Z max_h)) ;;;
    rw <- perform (TimelineGetSetting timeline (str "timelineResolutionWidth")) ;;
    rh <- perform (TimelineGetSetting timeline (str "timelineResolutionHeight")) ;;
    perform (Print (MsgResolution timeline_name rw rh))
  else ret tt.

Definition sort_clip_infos (clip_infos : list clip_info) : list clip_info :=
  sort_by (fun a b => recordFrame a <=? recordFrame b) clip_infos.

Definition append_step (info : clip_info) : M unit :=
  ok <- perform (AppendToTimeline info) ;;
  if ok then ret tt
  else
    n <- perform (ItemGetName (mediaPoolItem info)) ;;
    perform (Print (MsgAppendFailed n (recordFrame info))).

(** *** [main], lines 240-302: one (camera, day) group *)

Definition join_underscore (a b c : text) : text :=
  a ++ str "_" ++ b ++ str "_" ++ c.

Definition process_date_group (date_folder_name cam_id : text) (fps : Z)
    (cam_bin : Handle) (all_timelines : list Handle) (g : text * list clip)
  : M (list Handle) :=
  let '(realdate, items) := g in
  date_bin <- ensure_bin (Some cam_bin) realdate ;;
  perform (SetCurrentFolder date_bin) ;;;
  match date_bin with
  | None => perform (Print (MsgDateBinFailed cam_id realdate)) ;;; ret all_timelines
  | Some _ =>
      imported_items <- fold_M import_step items [] ;;
      let timeline_name := join_underscore date_folder_name cam_id realdate in
      tl <- get_or_create_timeline timeline_name ;;
      match tl with
      | None => perform (Print (MsgTimelineFailed timeline_name)) ;;; ret all_timelines
      | Some timeline =>
          perform (TimelineSetSetting timeline (str "timelineFrameRate")
                     (text_of_Z fps)) ;;;
          perform (SetStartTimecode timeline (str "00:00:00:00")) ;;;
          r <- fold_M (info_step fps) imported_items ((0, 0), []) ;;
          let '(max_wh, clip_infos) := r in
          apply_resolution timeline timeline_name max_wh ;;;
          for_each append_step (sort_clip_infos clip_infos) ;;;
          ret (all_timelines ++ [timeline])
      end
  end.

Definition sorted_groups (g : groups) : groups :=
  sort_by (fun a b => text_leb (fst a) (fst b)) g.

(** *** [main], lines 220-302: one camera folder *)

Definition process_cam (date_folder_name : text) (fps : Z) (root : option Handle)
    (all_timelines : list Handle) (cam_folder : path) : M (list Handle) :=
  let cam_id := path_name cam_folder in
  cam_bin <- ensure_bin root cam_id ;;
  match cam_bin with
  | None => perform (Print (MsgCamBinFailed cam_id)) ;;; ret all_timelines
  | Some bin =>
      videos <- scan_videos_io cam_folder ;;
      group_by_date <- group_videos videos ;;
      fold_M (process_date_group date_folder_name cam_id fps bin)
        (sorted_groups group_by_date) all_timelines
  end.

(** *** [main], lines 304-318 *)

Definition export_timeline (export_folder : path) (tl : Handle) : M unit :=
  name <- perform (TimelineGetName tl) ;;
  let xml_path := export_folder ++ [xml_name name] in
  e <- perform (PathExists xml_path) ;;
  (if e then perform (Unlink xml_path) else ret tt) ;;;
  perform (SetCurrentTimeline tl) ;;;
  ok <- perform (Export tl xml_path) ;;
  if ok then perform (Print (MsgExported xml_path))
  else perform (Print (MsgExportFailed xml_path)).

(** *** [main], lines 182-207: the folders to process *)

Fixpoint print_listing (idx : Z) (paths : list path) : M unit :=
  match paths with
  | [] => ret tt
  | p :: rest =>
      perform (Print (MsgListing idx (path_name p))) ;;;
      print_listing (idx + 1) rest
  end.

Definition index_list {A : Type} (l : list A) (i : Z) : option A :=
  nth_error l (Z.to_nat (i - 1)).

(** The date folder finally used and its camera folders, or [None] when
    [main] returned. *)
Definition choose_date_folder (date_folder : path)
  : M (option (path * list path)) :=
  cams <- list_cam_folders date_folder ;;
  match cams with
  | _ :: _ => ret (Some (date_folder, cams))
  | [] =>
      entries <- perform (Iterdir date_folder) ;;
      let subdirs := map (fun e => date_folder ++ [fst e])
                       (filter snd (sorted_entries entries)) in
      match subdirs with
      | [] => perform (Print MsgNoCamOrDateFolders) ;;; ret None
      | _ :: _ =>
          print_listing 1 subdirs ;;;
          idxs <- select_indices (Z.of_nat (List.length subdirs)) PromptDateFolder ;;
          match idxs with
          | [] => perform (Print MsgNoDateFolderChosen) ;;; ret None
          | i :: _ =>
              match index_list subdirs i with
              | None => ret None
              | Some chosen =>
                  cams' <- list_cam_folders chosen ;;
                  match cams' with
                  | [] => perform (Print MsgStillNoCamFolders) ;;; ret None
                  | _ :: _ => ret (Some (chosen, cams'))
                  end
              end
          end
      end
  end.

(** *** [main], lines 163-318 *)

Definition main (date_folder export_folder : path) (fps : Z) : M unit :=
  e <- perform (PathExists date_folder) ;;
  d <- (if e then perform (PathIsDir date_folder) else ret false) ;;
  if negb (e && d) then perform (Print MsgNoDateFolder)
  else
    perform (Mkdir export_folder) ;;;
    if fps <=? 0 then perform (Print MsgBadFrameRate)
    else
      chosen <- choose_date_folder date_folder ;;
      match chosen with
      | None => ret tt
      | Some (date_folder', cams) =>
          print_listing 1 cams ;;;
          cam_idxs <- select_indices (Z.of_nat (List.length cams)) PromptCams ;;
          match cam_idxs with
          | [] => perform (Print MsgNoCamChosen)
          | _ :: _ =>
              let chosen_cams :=
                flat_map (fun i => match index_list cams i with
                                   | Some c => [c]
                                   | None => []
                                   end) cam_idxs in
              perform ScriptApp ;;;
              perform GetProjectManager ;;;
              project <- perform GetCurrentProject ;;
              if negb project then perform (Print MsgNoProject)
              else
                perform GetMediaPool ;;;
                root <- perform GetRootFolder ;;
                perform (ProjectSetSetting (str "timelineFrameRate")
                           (text_of_Z fps)) ;;;
                all_timelines <-
                  fold_M (process_cam (path_name date_folder') fps root)
                    chosen_cams [] ;;
                for_each (export_timeline export_folder) all_timelines
          end
      end.

End Program.

Arguments Ev {Handle R} c r.
Arguments PathExists {Handle} p.
Arguments PathIsDir {Handle} p.
Arguments Mkdir {Handle} p.
Arguments Iterdir {Handle} p.
Arguments Rglob {Handle} p.
Arguments Glob {Handle} dir suffix.
Arguments ReadText {Handle} p.
Arguments Unlink {Handle} p.
Arguments Print {Handle} m.
Arguments Input {Handle} p.
Arguments ScriptApp {Handle}.
Arguments GetProjectManager {Handle}.
Arguments GetCurrentProject {Handle}.
Arguments GetMediaPool {Handle}.
Arguments GetRootFolder {Handle}.
Arguments ProjectSetSetting {Handle} key value.
Arguments GetSubFolders {Handle} folder.
Arguments GetName {Handle} folder.
Arguments SetCurrentFolder {Handle} folder.
Arguments AddSubFolder {Handle} parent name.
Arguments GetTimelineCount {Handle}.
Arguments GetTimelineByIndex {Handle} i.
Arguments TimelineGetName {Handle} tl.
Arguments CreateEmptyTimeline {Handle} name.
Arguments ImportMedia {Handle} v.
Arguments TimelineSetSetting {Handle} tl key value.
Arguments SetStartTimecode {Handle} tl tc.
Arguments TimelineGetSetting {Handle} tl key.
Arguments GetClipProperty {Handle} item.
Arguments AppendToTimeline {Handle} info.
Arguments ItemGetName {Handle} item.
Arguments SetCurrentTimeline {Handle} tl.
Arguments Export {Handle} tl xml_path.
Arguments mediaPoolItem {Handle} c.
Arguments trackIndex {Handle} c.
Arguments recordFrame {Handle} c.
Arguments trim {Handle} c.
Arguments ret {Handle World A} a.
Arguments lift {Handle World A} r.
Arguments bindM {Handle World A B} m k.
Arguments perform {Handle World} ask {R} c.
Arguments for_each {Handle World A} body l.
Arguments fold_M {Handle World A S} body l s.

(** ** What a run shows

    Readings of a trace: the placement entries handed to
    [AppendToTimeline], the media pool items [ImportMedia] answered with,
    and the calls that create or change state in the host project. *)

Section Observations.

Variable Handle : Type.

Definition appended_of (e : event Handle) : list (clip_info Handle) :=
  match e with
  | Ev c _ =>
      match c with
      | AppendToTimeline info => [info]
      | _ => []
      end
  end.

Definition appended (tr : list (event Handle)) : list (clip_info Handle) :=
  flat_map appended_of tr.

Definition first_item {R : Type} (c : call Handle R) : R -> list Handle :=
  match c in call _ R return R -> list Handle with
  | ImportMedia _ => fun added => firstn 1 added
  | _ => fun _ => []
  end.

Definition imported_of (e : event Handle) : list Handle :=
  match e with
  | Ev c r => first_item c r
  end.

Definition imported_handles (tr : list (event Handle)) : list Handle :=
  flat_map imported_of tr.

Definition changes_host (e : event Handle) : bool :=
  match e with
  | Ev c _ =>
      match c with
      | ProjectSetSetting _ _ | SetCurrentFolder _ | AddSubFolder _ _
      | CreateEmptyTimeline _ | ImportMedia _ | TimelineSetSetting _ _ _
      | SetStartTimecode _ _ | AppendToTimeline _ | SetCurrentTimeline _
      | Export _ _ => true
      | _ => false
      end
  end.

Definition changes_files (e : event Handle) : bool :=
  match e with
  | Ev c _ =>
      match c with
      | Mkdir _ | Unlink _ => true
      | _ => false
      end
  end.

Definition asks_project (e : event Handle) : bool :=
  match e with
  | Ev c _ =>
      match c with
      | GetCurrentProject => true
      | _ => false
      end
  end.

Definition is_print (e : event Handle) : bool :=
  match e with
  | Ev c _ =>
      match c with
      | Print _ => true
      | _ => false
      end
  end.

End Observations.

Arguments appended {Handle} tr.
Arguments imported_handles {Handle} tr.
Arguments changes_host {Handle} e.
Arguments changes_files {Handle} e.
Arguments asks_project {Handle} e.
Arguments is_print {Handle} e.

(** ** Notions used to state the properties *)

(** Frame rates up to this bound cannot overflow binary64 in
    [compute_record_frame]. *)
Definition fps_bound : Z := 2 ^ 1000.

(** [delta.total_seconds()] and its product with the frame rate, as
    magnitudes in ulps, for a timestamp and a positive frame rate. *)
Definition seconds_ulps (t : datetime) : Z :=
  round_ulps (time_of_day_us t * one_ulps) 1000000.

Definition product_ulps (t : datetime) (fps : Z) : Z :=
  round_ulps (seconds_ulps t * round_ulps (fps * one_ulps) 1) one_ulps.

Definition all_digits (d : text) : Prop := forallb is_digit d = true.




(** [below n p m]: walking the names [p] down from directory [n] ends at
    the entry [m]. *)
Inductive below : node -> path -> node -> Prop :=
| below_child name children c :
    In c children -> below (Dir name children) [node_name c] c
| below_deeper name children c p m :
    In c children -> below c p m ->
    below (Dir name children) (node_name c :: p) m.

Definition clip_video (c : clip) : path := fst (fst c).
Definition clip_srt (c : clip) : path := snd (fst c).
Definition clip_ts (c : clip) : datetime := snd c.
Definition clip_key (c : clip) : text := strftime_ymd (clip_ts c).

(** Grouping as a function of the resolved clips alone. *)
Definition group_clips (clips : list clip) : groups :=
  fold_left (fun g c => setdefault_append (clip_key c) c g) clips [].

Fixpoint lookup (k : text) (g : groups) : option (list clip) :=
  match g with
  | [] => None
  | (k', xs) :: g' => if text_eqb k' k then Some xs else lookup k g'
  end.

Definition in_day (k : text) (c : clip) : bool := text_eqb (clip_key c) k.

Section RunProperties.

Variable Handle World : Type.

(** [avoids P m]: no run of [m] makes a call that [P] flags. *)
Definition avoids (P : event Handle -> bool) {A : Type} (m : M Handle World A)
  : Prop :=
  forall w, Forall (fun e => P e = false) (snd (m w)).

(** [succeeds m]: no run of [m] ends in an exception. *)
Definition succeeds {A : Type} (m : M Handle World A) : Prop :=
  forall w, exists a, fst (fst (m w)) = Ok a.

Definition is_append (e : event Handle) : bool :=
  match e with
  | Ev c _ => match c with AppendToTimeline _ => true | _ => false end
  end.

Definition is_import (e : event Handle) : bool :=
  match e with
  | Ev c _ => match c with ImportMedia _ => true | _ => false end
  end.

Definition is_placement (e : event Handle) : bool := is_append e || is_import e.

(** Calls that change the host project or ask it for the open project. *)
Definition host_call (e : event Handle) : bool := changes_host e || asks_project e.

Definition handle_of (x : imported Handle) : Handle := fst (fst (fst x)).

(** What one (camera, day) group hands to the host: nothing, or the
    stable sort of one entry per imported clip, the entries being taken in
    the order of import. *)
Definition placement_ok (tr : list (event Handle)) : Prop :=
  appended tr = [] \/
  exists clip_infos,
    map mediaPoolItem clip_infos = imported_handles tr /\
    appended tr = sort_clip_infos Handle clip_infos.

(** Where a grouped clip comes from: one of the scanned videos, with the
    timestamp parsed from the text read from its own sidecar. *)
Definition from_own_sidecar (videos : list path) (tr : list (event Handle))
    (c : clip) : Prop :=
  In (clip_video c) videos /\
  exists content,
    In (Ev (ReadText (clip_srt c)) content) tr /\
    parse_srt_for_timestamp content = Ok (Some (clip_ts c)).

End RunProperties.

Arguments avoids {Handle World} P {A} m.
Arguments succeeds {Handle World A} m.
Arguments is_placement {Handle} e.
Arguments host_call {Handle} e.
Arguments handle_of {Handle} x.
Arguments placement_ok {Handle} tr.
Arguments from_own_sidecar {Handle} videos tr c.

Section Resolution.

Variable Handle World : Type.
Variable ask : forall R : Type, call Handle R -> World -> R * World.

(** Lines 229-236 for one video: the clip made of the video, the sidecar
    found for it and the timestamp parsed from the sidecar, or [None]
    when the video is skipped with a message. *)
Definition resolve_video (v : path) : M Handle World (option clip) :=
  bindM (find_srt_for_video Handle World ask v) (fun s =>
  match s with
  | None => bindM (perform ask (Print (MsgSkipNoSrt v))) (fun _ => ret None)
  | Some srt_path =>
      bindM (perform ask (ReadText srt_path)) (fun content =>
      bindM (lift (parse_srt_for_timestamp content)) (fun ts =>
      match ts with
      | None =>
          bindM (perform ask (Print (MsgSkipNoTimestamp v))) (fun _ => ret None)
      | Some t => ret (Some (v, srt_path, t))
      end))
  end).

Definition keep_clip (clips : list clip) (r : option clip) : list clip :=
  clips ++ match r with Some c => [c] | None => [] end.

Definition resolve_step (clips : list clip) (v : path) : M Handle World (list clip) :=
  bindM (resolve_video v) (fun r => ret (keep_clip clips r)).

(** The clips of the scanned videos, in scan order. *)
Definition resolve_videos (videos : list path) : M Handle World (list clip) :=
  fold_M resolve_step videos [].

(** [skipped tr v]: the run reported that it skips the video [v]. *)
Definition skipped (tr : list (event Handle)) (v : path) : Prop :=
  In (Ev (Print (MsgSkipNoSrt v)) tt) tr \/
  In (Ev (Print (MsgSkipNoTimestamp v)) tt) tr.

(** The surroundings answer a call the same way in every state: nothing
    changes the files while the folder is grouped. *)
Definition answers_fixed : Prop :=
  forall (R : Type) (c : call Handle R) (w1 w2 : World),
    fst (ask R c w1) = fst (ask R c w2).

(** [answer_only m]: what [m] returns does not depend on the state it
    starts in. *)
Definition answer_only {A : Type} (m : M Handle World A) : Prop :=
  forall w1 w2, fst (fst (m w1)) = fst (fst (m w2)).

(** The clip of a video in the state [w]: the sidecar that
    [find_srt_for_video] returns for it there and the timestamp parsed
    from the text read from that sidecar there. *)
Definition clip_at (w : World) (v : path) : option clip :=
  match fst (fst (find_srt_for_video Handle World ask v w)) with
  | Ok (Some srt_path) =>
      match parse_srt_for_timestamp (fst (ask text (ReadText srt_path) w)) with
      | Ok (Some t) => Some (v, srt_path, t)
      | _ => None
      end
  | _ => None
  end.

Definition clips_at (w : World) (videos : list path) : list clip :=
  flat_map (fun v => match clip_at w v with Some c => [c] | None => [] end) videos.

End Resolution.

Arguments skipped {Handle} tr v.
Arguments answer_only {Handle World A} m.

(** ** A small concrete environment

    One date folder with a camera folder "CAM A" holding two clips whose
    sidecars carry timestamps on either side of midnight; the operator
    answers "1" to every prompt and no host project is open. *)

Definition demo_sidecar (p : path) : text :=
  if text_eqb (path_name p) (str "late.srt")
  then str "FrameCnt: 1, DiffTime: 33ms
2024-05-10 00:00:30.000"
  else str "FrameCnt: 1, DiffTime: 33ms
2024-05-09 23:59:59.500".

Definition demo_answer {R : Type} (c : call nat R) : R :=
  match c in call _ R return R with
  | PathExists _ => true
  | PathIsDir _ => true
  | Mkdir _ => tt
  | Iterdir _ => [(str "notes.txt", false); (str "CAM A", true)]
  | Rglob p => [(p ++ [str "early.mp4"], true); (p ++ [str "late.mp4"], true)]
  | Glob _ _ => []
  | ReadText p => demo_sidecar p
  | Unlink _ => tt
  | Print _ => tt
  | Input _ => str "1"
  | ScriptApp => tt
  | GetProjectManager => tt
  | GetCurrentProject => false
  | GetMediaPool => tt
  | GetRootFolder => Some O
  | ProjectSetSetting _ _ => tt
  | GetSubFolders _ => Some []
  | GetName _ => None
  | SetCurrentFolder _ => tt
  | AddSubFolder _ _ => Some 1%nat
  | GetTimelineCount => 0
  | GetTimelineByIndex _ => None
  | TimelineGetName _ => []
  | CreateEmptyTimeline _ => Some 2%nat
  | ImportMedia _ => [3%nat]
  | TimelineSetSetting _ _ _ => tt
  | SetStartTimecode _ _ => tt
  | TimelineGetSetting _ _ => []
  | GetClipProperty _ => PropStr (str "3840x2160")
  | AppendToTimeline _ => true
  | ItemGetName _ => []
  | SetCurrentTimeline _ => tt
  | Export _ _ => true
  end.

Definition demo_ask (R : Type) (c : call nat R) (w : unit) : R * unit :=
  (demo_answer c, w).


(** ** Concrete inputs used in the examples *)

(** Three timestamps on either side of a midnight. *)
Definition ts_2024_05_09_235959_500 : datetime :=
  {| year := 2024; month := 5; day := 9;
     hour := 23; minute := 59; second := 59; microsecond := 500000 |}.

Definition ts_2024_05_09_120000_000 : datetime :=
  {| year := 2024; month := 5; day := 9;
     hour := 12; minute := 0; second := 0; microsecond := 0 |}.

Definition ts_2024_05_10_000030_000 : datetime :=
  {| year := 2024; month := 5; day := 10;
     hour := 0; minute := 0; second := 30; microsecond := 0 |}.

(** The sidecar text of a clip recorded half a second before midnight. *)
Definition sidecar_before_midnight : text :=
  str "1
00:00:00,000 --> 00:00:00,033
FrameCnt: 1, DiffTime: 33ms
2024-05-09 23:59:59.500".

(** Binary64 values met when 1000 ms are converted at 30 frames per
    second: 1000.0, 30.0, 33.333333333333336 and the double just below
    30. *)
Definition f1000 : float := Finite false (1000 * one_ulps).
Definition f30 : float := Finite false (30 * one_ulps).
Definition frame_ms_30 : float := Finite false (4691249611844267 * 2 ^ (1074 - 47)).
Definition below_30 : float := Finite false (8444249301319679 * 2 ^ (1074 - 48)).

(** 86399.5, the seconds from midnight to 23:59:59.500. *)
Definition secs_86399_5 : float := Finite false (172799 * 2 ^ (1074 - 1)).

(** The two clips of the concrete environment, the groups they fall
    into and the calls grouping them makes. *)
Definition demo_videos : list path :=
  [[str "CAM A"; str "early.mp4"]; [str "CAM A"; str "late.mp4"]].

Definition demo_groups : groups :=
  [(str "24-05-09",
    [([str "CAM A"; str "early.mp4"], [str "CAM A"; str "early.srt"],
      ts_2024_05_09_235959_500)]);
   (str "24-05-10",
    [([str "CAM A"; str "late.mp4"], [str "CAM A"; str "late.srt"],
      ts_2024_05_10_000030_000)])].

Definition demo_group_trace : list (event nat) :=
  Eval vm_compute in snd (group_videos nat unit demo_ask demo_videos tt).


(** ** Notions used to state further properties *)

(** The text a pattern matches, given the captured digit groups. *)
Fixpoint render (p : list item) (caps : list text) : text :=
  match p with
  | [] => []
  | Lit l :: p' => l ++ render p' caps
  | Digits _ _ :: p' =>
      match caps with
      | d :: caps' => d ++ render p' caps'
      | [] => []
      end
  end.

(** [fits p caps]: one group of digits per repetition of [p], each of a
    length the repetition allows. *)
Fixpoint fits (p : list item) (caps : list text) : Prop :=
  match p with
  | [] => caps = []
  | Lit _ :: p' => fits p' caps
  | Digits lo hi :: p' =>
      match caps with
      | d :: caps' =>
          all_digits d /\ (lo <= List.length d)%nat /\
          match hi with
          | Some h => (List.length d <= h)%nat
          | None => True
          end /\
          fits p' caps'
      | [] => False
      end
  end.

(** Every repetition of the pattern has a fixed count. *)
Fixpoint fixed_width (p : list item) : bool :=
  match p with
  | [] => true
  | Lit _ :: p' => fixed_width p'
  | Digits lo hi :: p' =>
      match hi with
      | Some h => Nat.eqb lo h && fixed_width p'
      | None => false
      end
  end.

(** [total_ms] of [get_clip_duration_frames]: the sum of the DiffTime
    values of the sidecar text. *)
Definition difftime_total (content : text) : Z :=
  sum_Z (map int_of_digits (map group1 (findall difftime_pattern content))).

Section HostQueries.

Variable Handle : Type.

Definition name_answer {R : Type} (c : call Handle R) : R -> option text :=
  match c in call _ R return R -> option text with
  | GetName _ => fun r => r
  | TimelineGetName _ => fun r => Some r
  | _ => fun _ => None
  end.

(** [reports name e]: the event is a bin or a timeline answering that its
    name is [name]. *)
Definition reports (name : text) (e : event Handle) : bool :=
  match e with
  | Ev c r =>
      match name_answer c r with
      | Some n => text_eqb n name
      | None => false
      end
  end.

End HostQueries.

Arguments reports {Handle} name e.

Definition path_eqb (a b : path) : bool :=
  if list_eq_dec (list_eq_dec ascii_dec) a b then true else false.

Section FileChanges.

Variable Handle : Type.

(** The path an event creates, deletes or has the host write, if any. *)
Definition written_path (e : event Handle) : option path :=
  match e with
  | Ev c _ =>
      match c with
      | Mkdir p | Unlink p | Export _ p => Some p
      | _ => None
      end
  end.

(** [single_name n]: none of the nine characters that [safe_filename]
    replaces occurs in [n], so [n] holds no path separator and no drive
    colon, and joining it to a folder gives an entry of that folder. *)
Definition single_name (n : text) : bool :=
  forallb (fun c => negb (is_forbidden c)) n.

(** [file_change_outside export_folder e]: the event is a [mkdir] on a
    path other than [export_folder], or it deletes or has the host write
    something other than [export_folder / n] for a single name [n] that
    ends in [.xml]. *)
Definition file_change_outside (export_folder : path) (e : event Handle) : bool :=
  match e with
  | Ev c _ =>
      match c with
      | Mkdir p => negb (path_eqb p export_folder)
      | Unlink p | Export _ p =>
          negb (path_eqb (parent p) export_folder
                && endswith (str ".xml") (path_name p)
                && single_name (path_name p))
      | _ => false
      end
  end.

End FileChanges.

Arguments written_path {Handle} e.
Arguments file_change_outside {Handle} export_folder e.

Section EntryOf.

Variable Handle : Type.

(** [entry_of fps tr x i]: [i] is the entry the loop of lines 260-289
    builds for the imported clip [x] = (item, v, srt, ts): it carries the
    item on track 1 at the record frame of [ts], and its trim range is
    read off the text the run read from [srt]: start frame 0 and the
    duration in frames as end frame, or no range when the sidecar gives
    no duration. *)
Definition entry_of (fps : Z) (tr : list (event Handle)) (x : imported Handle)
    (i : clip_info Handle) : Prop :=
  let '(item, v, s, ts) := x in
  mediaPoolItem i = item /\ trackIndex i = 1 /\
  compute_record_frame ts fps = Ok (recordFrame i) /\
  exists content duration,
    In (Ev (ReadText s) content) tr /\
    get_clip_duration_frames content fps = Ok duration /\
    trim i = match duration with Some d => Some (0, d) | None => None end.

End EntryOf.

Arguments entry_of {Handle} fps tr x i.

(** One DiffTime marker of a second. *)
Definition sidecar_one_second : text := str "DiffTime: 1000ms".

(** * Properties *)

(** ** Rounding *)

Section RoundHalfEven.

Lemma round_half_even_bounds n d :
  0 < d ->
  let r := round_half_even n d in
  2 * d * r - d <= 2 * n <= 2 * d * r + d /\
  (2 * n = 2 * d * r - d -> Z.even r = true) /\
  (2 * n = 2 * d * r + d -> Z.even r = true).
Proof.
  intros Hd r. subst r. unfold round_half_even.
  pose proof (Z.div_mod n d ltac:(lia)) as Hdm.
  pose proof (Z.mod_pos_bound n d Hd) as Hm.
  set (q := n / d) in *. set (m := n mod d) in *.
  destruct (Z.compare_spec (2 * m) d) as [He | Hl | Hg].
  - destruct (Z.even q) eqn:Hev.
    + repeat split; try nia; intros; first [assumption | exfalso; nia].
    + assert (Z.even (q + 1) = true).
      { rewrite Z.even_add, Hev. reflexivity. }
      repeat split; try nia; intros; first [assumption | exfalso; nia].
  - repeat split; try nia; intros; exfalso; nia.
  - repeat split; try nia; intros; exfalso; nia.
Qed.

Lemma round_half_even_mono n1 d1 n2 d2 :
  0 < d1 -> 0 < d2 -> n1 * d2 <= n2 * d1 ->
  round_half_even n1 d1 <= round_half_even n2 d2.
Proof.
  intros H1 H2 Hle.
  destruct (round_half_even_bounds n1 d1 H1) as (B1 & T1 & _).
  destruct (round_half_even_bounds n2 d2 H2) as (B2 & _ & T2).
  cbv zeta in *.
  set (r1 := round_half_even n1 d1) in *.
  set (r2 := round_half_even n2 d2) in *.
  destruct (Z_le_gt_dec r1 r2) as [|Hgt]; [assumption|exfalso].
  (* r2 < r1 forces both quotients onto the same tie *)
  assert (S1 : (2 * d1 * r1 - d1) * d2 <= 2 * n1 * d2)
    by (apply Z.mul_le_mono_nonneg_r; lia).
  assert (S2 : 2 * n2 * d1 <= (2 * d2 * r2 + d2) * d1)
    by (apply Z.mul_le_mono_nonneg_r; lia).
  assert (P : 0 < d1 * d2) by (apply Z.mul_pos_pos; assumption).
  assert (S3 : (d1 * d2) * (2 * r1 - 1) <= (d1 * d2) * (2 * r2 + 1)) by lia.
  apply Z.mul_le_mono_pos_l in S3; [|exact P].
  assert (Er : r1 = r2 + 1) by lia.
  assert (E1 : 2 * n1 = 2 * d1 * r1 - d1).
  { apply Z.mul_reg_r with (p := d2); [lia|]. rewrite Er in *. lia. }
  assert (E2 : 2 * n2 = 2 * d2 * r2 + d2).
  { apply Z.mul_reg_r with (p := d1); [lia|]. rewrite Er in *. lia. }
  specialize (T1 E1). specialize (T2 E2).
  rewrite Er, Z.even_add, T2 in T1. discriminate.
Qed.

Lemma round_half_even_exact k d : 0 < d -> round_half_even (k * d) d = k.
Proof.
  intros Hd. unfold round_half_even.
  rewrite Z.div_mul, Z.mod_mul by lia.
  destruct (Z.compare_spec (2 * 0) d); lia.
Qed.

Lemma round_half_even_nonneg n d : 0 < d -> 0 <= n -> 0 <= round_half_even n d.
Proof.
  intros Hd Hn. rewrite <- (round_half_even_exact 0 d Hd).
  apply round_half_even_mono; lia.
Qed.

Lemma round_half_even_le n d k :
  0 < d -> n <= k * d -> round_half_even n d <= k.
Proof.
  intros Hd Hn. rewrite <- (round_half_even_exact k d Hd).
  apply round_half_even_mono; try lia. nia.
Qed.

Lemma round_half_even_ge n d k :
  0 < d -> k * d <= n -> k <= round_half_even n d.
Proof.
  intros Hd Hn. rewrite <- (round_half_even_exact k d Hd).
  apply round_half_even_mono; try lia. nia.
Qed.

End RoundHalfEven.

Lemma div_frac_mono n1 d1 n2 d2 :
  0 < d1 -> 0 < d2 -> n1 * d2 <= n2 * d1 -> n1 / d1 <= n2 / d2.
Proof.
  intros H1 H2 Hle.
  apply Z.div_le_lower_bound; [assumption|].
  pose proof (Z.mul_div_le n1 d1 H1) as Hq.
  assert (d1 * (d2 * (n1 / d1)) <= d1 * n2) by nia.
  apply Z.mul_le_mono_pos_l in H; assumption.
Qed.

Lemma round_ulps_mono n1 d1 n2 d2 :
  0 < d1 -> 0 < d2 -> 0 <= n1 -> n1 * d2 <= n2 * d1 ->
  round_ulps n1 d1 <= round_ulps n2 d2.
Proof.
  intros H1 H2 Hn1 Hle. unfold round_ulps.
  pose proof (div_frac_mono n1 d1 n2 d2 H1 H2 Hle) as Hq.
  assert (Hq1 : 0 <= n1 / d1) by (apply Z.div_pos; lia).
  set (q1 := n1 / d1) in *. set (q2 := n2 / d2) in *.
  pose proof (Z.log2_le_mono q1 q2 Hq) as Hlog.
  set (t1 := Z.max 0 (Z.log2 q1 - (prec - 1))).
  set (t2 := Z.max 0 (Z.log2 q2 - (prec - 1))).
  assert (Ht1 : 0 <= t1) by (subst t1; lia).
  assert (Ht : t1 <= t2) by (subst t1 t2; lia).
  assert (P1 : 0 < 2 ^ t1) by (apply Z.pow_pos_nonneg; lia).
  assert (P2 : 0 < 2 ^ t2) by (apply Z.pow_pos_nonneg; lia).
  destruct (Z.eq_dec t1 t2) as [E | NE].
  - rewrite <- E. apply Z.mul_le_mono_nonneg_r; [lia|].
    apply round_half_even_mono; try nia.
  - assert (Hlt : t1 < t2) by lia.
    (* different binades: the smaller value stays below 2^53 spacing units,
       the larger one is at least 2^52 of its own *)
    assert (U1 : round_half_even n1 (d1 * 2 ^ t1) <= 2 ^ prec).
    { apply round_half_even_le; [nia|].
      assert (q1 < 2 ^ (t1 + prec)).
      { destruct (Z.eq_dec q1 0) as [Z0|NZ].
        - rewrite Z0. apply Z.pow_pos_nonneg; unfold prec; lia.
        - pose proof (Z.log2_spec q1 ltac:(lia)) as [_ Hs].
          eapply Z.lt_le_trans; [exact Hs|].
          apply Z.pow_le_mono_r; [lia|]. subst t1. unfold prec. lia. }
      assert (n1 < (q1 + 1) * d1).
      { subst q1. pose proof (Z.div_mod n1 d1 ltac:(lia)).
        pose proof (Z.mod_pos_bound n1 d1 H1). nia. }
      rewrite Z.pow_add_r in H by (unfold prec; lia).
      nia. }
    assert (U2 : 2 ^ (prec - 1) <= round_half_even n2 (d2 * 2 ^ t2)).
    { apply round_half_even_ge; [nia|].
      assert (Hq2 : 0 < q2).
      { destruct (Z_lt_le_dec 0 q2); [assumption|].
        exfalso. pose proof (Z.log2_nonpos q2 ltac:(assumption)).
        subst t1 t2. unfold prec in *. lia. }
      pose proof (Z.log2_spec q2 Hq2) as [Hs _].
      assert (Z.log2 q2 = t2 + (prec - 1)) by (subst t2; unfold prec in *; lia).
      rewrite H, Z.pow_add_r in Hs by (unfold prec; lia).
      pose proof (Z.mul_div_le n2 d2 H2) as Hm. fold q2 in Hm.
      assert (d2 * (2 ^ t2 * 2 ^ (prec - 1)) <= d2 * q2)
        by (apply Z.mul_le_mono_nonneg_l; lia).
      lia. }
    assert (E2 : 2 ^ t2 = 2 ^ t1 * 2 ^ (t2 - t1)).
    { rewrite <- Z.pow_add_r by lia. f_equal. lia. }
    assert (2 <= 2 ^ (t2 - t1)).
    { change 2 with (2 ^ 1) at 1. apply Z.pow_le_mono_r; lia. }
    assert (Ep : 2 ^ prec = 2 * 2 ^ (prec - 1)) by reflexivity.
    assert (Hb : 0 < 2 ^ (prec - 1)) by reflexivity.
    rewrite E2 in U2. rewrite E2.
    set (a := 2 ^ t1) in *. set (b := 2 ^ (prec - 1)) in *.
    set (c := 2 ^ (t2 - t1)) in *.
    assert (A1 : round_half_even n1 (d1 * a) * a <= (2 * b) * a)
      by (apply Z.mul_le_mono_nonneg_r; lia).
    assert (A2 : (b * a) * 2 <= (b * a) * c)
      by (apply Z.mul_le_mono_nonneg_l; nia).
    assert (A3 : b * (a * c) <= round_half_even n2 (d2 * (a * c)) * (a * c))
      by (apply Z.mul_le_mono_nonneg_r; [nia|exact U2]).
    lia.
Qed.

(** ** The frame aligner *)

Lemma one_ulps_pos : 0 < one_ulps.
Proof. reflexivity. Qed.

Lemma round_ulps_nonneg n d : 0 < d -> 0 <= n -> 0 <= round_ulps n d.
Proof.
  intros Hd Hn. unfold round_ulps.
  set (t := Z.max 0 _).
  assert (0 < 2 ^ t) by (apply Z.pow_pos_nonneg; subst t; lia).
  apply Z.mul_nonneg_nonneg; [|lia].
  apply round_half_even_nonneg; nia.
Qed.

Lemma fround_finite s n d :
  round_ulps n d < inf_ulps -> fround s n d = Finite s (round_ulps n d).
Proof.
  intros H. unfold fround.
  destruct (Z.leb_spec inf_ulps (round_ulps n d)); [lia|reflexivity].
Qed.

Lemma valid_datetime_bounds t :
  valid_datetime t = true ->
  0 <= hour t <= 23 /\ 0 <= minute t <= 59 /\ 0 <= second t <= 59 /\
  0 <= microsecond t <= 999999.
Proof.
  unfold valid_datetime. intros H.
  repeat (apply andb_prop in H; destruct H as [H ?]).
  repeat match goal with X : (_ <=? _) = true |- _ => apply Z.leb_le in X end.
  lia.
Qed.

Lemma time_of_day_us_bounds t :
  valid_datetime t = true -> 0 <= time_of_day_us t < 86400 * 1000000.
Proof.
  intros H. apply valid_datetime_bounds in H. unfold time_of_day_us. lia.
Qed.

Lemma datetime_sub_midnight t :
  valid_datetime t = true ->
  datetime_sub t (replace_midnight t) =
  {| days := 0; seconds := hour t * 3600 + minute t * 60 + second t;
     microseconds := microsecond t |}.
Proof.
  intros H. apply valid_datetime_bounds in H.
  unfold datetime_sub, replace_midnight, normalize_timedelta, toordinal; simpl.
  rewrite !Z.sub_0_r, Z.sub_diag.
  rewrite (Z.div_small (microsecond t)), (Z.mod_small (microsecond t)) by lia.
  rewrite Z.add_0_r.
  rewrite Z.div_small, Z.mod_small by lia.
  reflexivity.
Qed.

Lemma total_seconds_midnight t :
  valid_datetime t = true ->
  total_seconds (datetime_sub t (replace_midnight t)) =
  Ok (Finite false (round_ulps (time_of_day_us t * one_ulps) 1000000)).
Proof.
  intros H. rewrite datetime_sub_midnight by assumption.
  pose proof (time_of_day_us_bounds t H) as Hb.
  unfold total_seconds, int_truediv; cbn [days seconds microseconds].
  change (10 ^ 6) with 1000000.
  change (1000000 =? 0) with false. change (1000000 <? 0) with false.
  change (Z.abs 1000000) with 1000000.
  replace ((0 * 86400 + (hour t * 3600 + minute t * 60 + second t)) * 1000000
           + microsecond t) with (time_of_day_us t)
    by (unfold time_of_day_us; lia).
  destruct (Z.ltb_spec (time_of_day_us t) 0); [lia|].
  rewrite Z.abs_eq by lia. cbn [xorb].
  rewrite fround_finite; [reflexivity|].
  eapply Z.le_lt_trans.
  - apply (round_ulps_mono _ _ (86400 * 1000000 * one_ulps) 1000000); try lia.
    + pose proof one_ulps_pos. nia.
    + pose proof one_ulps_pos. nia.
  - vm_compute. reflexivity.
Qed.

Lemma float_of_int_pos fps :
  0 < fps < fps_bound ->
  float_of_int fps = Ok (Finite false (round_ulps (fps * one_ulps) 1)).
Proof.
  intros [Hp Hb]. unfold float_of_int.
  destruct (Z.ltb_spec fps 0); [lia|].
  rewrite Z.abs_eq by lia.
  rewrite fround_finite; [reflexivity|].
  eapply Z.le_lt_trans.
  - apply (round_ulps_mono _ _ (fps_bound * one_ulps) 1); try lia.
    + pose proof one_ulps_pos. nia.
    + pose proof one_ulps_pos. nia.
  - vm_compute. reflexivity.
Qed.



Lemma seconds_ulps_bounds t :
  valid_datetime t = true -> 0 <= seconds_ulps t <= 86400 * one_ulps.
Proof.
  intros H. pose proof (time_of_day_us_bounds t H) as Hb.
  pose proof one_ulps_pos as Hu. unfold seconds_ulps. split.
  - apply round_ulps_nonneg; nia.
  - replace (86400 * one_ulps) with (round_ulps (86400 * one_ulps) 1)
      by (vm_compute; reflexivity).
    apply round_ulps_mono; try nia.
Qed.

Lemma fps_ulps_bounds fps :
  0 < fps < fps_bound ->
  0 <= round_ulps (fps * one_ulps) 1 <= fps_bound * one_ulps.
Proof.
  intros [Hp Hb]. pose proof one_ulps_pos as Hu. split.
  - apply round_ulps_nonneg; nia.
  - replace (fps_bound * one_ulps) with (round_ulps (fps_bound * one_ulps) 1)
      by (vm_compute; reflexivity).
    apply round_ulps_mono; try nia.
Qed.

Lemma product_ulps_finite t fps :
  valid_datetime t = true -> 0 < fps < fps_bound ->
  product_ulps t fps < inf_ulps.
Proof.
  intros Hv Hf. pose proof one_ulps_pos as Hu.
  destruct (seconds_ulps_bounds t Hv) as [S0 S1].
  destruct (fps_ulps_bounds fps Hf) as [F0 F1].
  unfold product_ulps.
  eapply Z.le_lt_trans.
  - assert (N : 0 <= seconds_ulps t * round_ulps (fps * one_ulps) 1)
      by (apply Z.mul_nonneg_nonneg; assumption).
    assert (L : seconds_ulps t * round_ulps (fps * one_ulps) 1
                <= (86400 * one_ulps) * (fps_bound * one_ulps))
      by (apply Z.mul_le_mono_nonneg; assumption).
    apply (round_ulps_mono _ _
             ((86400 * one_ulps) * (fps_bound * one_ulps)) one_ulps);
      try assumption.
    apply Z.mul_le_mono_nonneg_r; [lia|exact L].
  - vm_compute. reflexivity.
Qed.

Lemma compute_record_frame_closed_form t fps :
  valid_datetime t = true -> 0 < fps < fps_bound ->
  compute_record_frame t fps =
  Ok (round_half_even (product_ulps t fps) one_ulps).
Proof.
  intros Hv Hf. unfold compute_record_frame.
  rewrite total_seconds_midnight by assumption. cbn [bind].
  rewrite float_of_int_pos by assumption. cbn [bind fmul xorb].
  fold (seconds_ulps t).
  rewrite fround_finite by (apply product_ulps_finite; assumption).
  reflexivity.
Qed.

Lemma same_day_le_time_of_day a b :
  valid_datetime a = true -> valid_datetime b = true ->
  same_day a b -> datetime_le a b ->
  time_of_day_us a <= time_of_day_us b.
Proof.
  intros Ha Hb (Ey & Em & Ed) Hle.
  apply valid_datetime_bounds in Ha. apply valid_datetime_bounds in Hb.
  unfold datetime_le, datetime_fields in Hle. cbn [lex_leb] in Hle.
  rewrite Ey, Em, Ed in Hle.
  rewrite !Z.ltb_irrefl, !Z.eqb_refl in Hle. cbn [orb andb] in Hle.
  unfold time_of_day_us.
  repeat match type of Hle with
         | (_ || _)%bool = true =>
             apply orb_prop in Hle; destruct Hle as [Hle | Hle]
         | (_ && _)%bool = true =>
             let E := fresh "E" in
             apply andb_prop in Hle; destruct Hle as [E Hle];
             apply Z.eqb_eq in E
         | (_ <? _) = true => apply Z.ltb_lt in Hle
         end; try lia.
Qed.

(** C5, as amended.  For every frame rate [0 < fps < 2^1000] and every
    two valid timestamps of one calendar day with [t1 <= t2],
    [compute_record_frame] returns for both, the results are non-negative
    integers and the earlier timestamp gets the smaller or equal offset.
    Some bound on the frame rate is needed: at 2^1024 its conversion to
    a float raises OverflowError. *)
Theorem compute_record_frame_monotone_nonneg :
  forall (t1 t2 : datetime) (fps : Z),
    0 < fps < fps_bound ->
    valid_datetime t1 = true -> valid_datetime t2 = true ->
    same_day t1 t2 -> datetime_le t1 t2 ->
    exists r1 r2,
      compute_record_frame t1 fps = Ok r1 /\
      compute_record_frame t2 fps = Ok r2 /\
      0 <= r1 /\ r1 <= r2.
Proof.
  intros t1 t2 fps Hf H1 H2 Hs Hle.
  pose proof one_ulps_pos as Hu.
  exists (round_half_even (product_ulps t1 fps) one_ulps),
         (round_half_even (product_ulps t2 fps) one_ulps).
  rewrite !compute_record_frame_closed_form by assumption.
  pose proof (same_day_le_time_of_day t1 t2 H1 H2 Hs Hle) as Hus.
  pose proof (time_of_day_us_bounds t1 H1) as B1.
  destruct (seconds_ulps_bounds t1 H1) as [S1 _].
  destruct (fps_ulps_bounds fps Hf) as [F0 _].
  assert (Hsec : seconds_ulps t1 <= seconds_ulps t2).
  { unfold seconds_ulps. apply round_ulps_mono; try nia. }
  assert (Hprod : product_ulps t1 fps <= product_ulps t2 fps).
  { unfold product_ulps.
    assert (N : 0 <= seconds_ulps t1 * round_ulps (fps * one_ulps) 1)
      by (apply Z.mul_nonneg_nonneg; assumption).
    apply round_ulps_mono; try assumption.
    apply Z.mul_le_mono_nonneg_r; [lia|].
    apply Z.mul_le_mono_nonneg_r; assumption. }
  repeat split.
  - apply round_half_even_nonneg; [lia|].
    unfold product_ulps. apply round_ulps_nonneg; [lia|].
    apply Z.mul_nonneg_nonneg; assumption.
  - apply round_half_even_mono; try lia.
    apply Z.mul_le_mono_nonneg_r; lia.
Qed.

(** C5, the amended statement at noon and half a second before midnight
    of 2024-05-09, 30 frames per second. *)
Lemma compute_record_frame_monotone_witness :
  exists r1 r2,
    compute_record_frame ts_2024_05_09_120000_000 30 = Ok r1 /\
    compute_record_frame ts_2024_05_09_235959_500 30 = Ok r2 /\
    0 <= r1 /\ r1 <= r2.
Proof.
  apply (compute_record_frame_monotone_nonneg
           ts_2024_05_09_120000_000 ts_2024_05_09_235959_500 30).
  - split; reflexivity.
  - reflexivity.
  - reflexivity.
  - repeat split.
  - reflexivity.
Defined.

(** C5 as stated fails: the frame rate 2^1024 is positive, yet
    [delta.total_seconds() * fps] cannot convert it to a float and
    [compute_record_frame] raises OverflowError instead of returning a
    non-negative integer. *)
Lemma compute_record_frame_overflow :
  0 < 2 ^ 1024 /\
  valid_datetime ts_2024_05_10_000030_000 = true /\
  compute_record_frame ts_2024_05_10_000030_000 (2 ^ 1024) = Raise OverflowError.
Proof. repeat apply conj; vm_compute; reflexivity. Qed.

(** The scenario of the spec that does hold: thirty seconds past midnight
    at 30 frames per second is frame 900. *)
Example compute_record_frame_900 :
  compute_record_frame ts_2024_05_10_000030_000 30 = Ok 900.
Proof. vm_compute. reflexivity. Qed.

(** ** Duration in frames *)

(** C1 fails on the code by a rounding slip.  One DiffTime marker of
    1000 ms at 30 frames per second: [1000.0 / 30] rounds up to
    33.333333333333336, the quotient [1000 / 33.333333333333336] rounds to
    29.999999999999996 and [int] truncates it to 29, while
    floor(1000 / (1000/30)) = floor(1000 * 30 / 1000) = 30. *)
Lemma get_clip_duration_frames_one_second :
  get_clip_duration_frames (str "DiffTime: 1000ms") 30 = Ok (Some 29) /\
  1000 * 30 / 1000 = 30.
Proof. repeat apply conj; vm_compute; reflexivity. Qed.

(** The float operations of that run agree with the Standard Library's
    IEEE 754 specification of binary64: [frame_ms] is 33.333333333333336
    (4691249611844267 * 2^-47) and the quotient is the double just below
    30. *)
Example frame_ms_agrees_with_SpecFloat :
  fdiv f1000 f30 = Ok frame_ms_30 /\
  fdiv f1000 frame_ms_30 = Ok below_30 /\
  to_spec frame_ms_30 = SFdiv 53 1024 (to_spec f1000) (to_spec f30) /\
  to_spec below_30 = SFdiv 53 1024 (to_spec f1000) (to_spec frame_ms_30) /\
  to_spec frame_ms_30 = S754_finite false 4691249611844267 (-47) /\
  py_int below_30 = Ok 29.
Proof. repeat apply conj; vm_compute; reflexivity. Qed.

(** The same cross-check for the operations of [compute_record_frame] on
    the timestamp of C2: 86399.5 seconds times 30 is exactly 2591985. *)
Example record_frame_agrees_with_SpecFloat :
  int_truediv 86399500000 1000000 = Ok secs_86399_5 /\
  to_spec secs_86399_5
    = SFdiv 53 1024 (to_spec (Finite false (86399500000 * one_ulps)))
        (to_spec (Finite false (1000000 * one_ulps))) /\
  to_spec (fmul secs_86399_5 f30)
    = SFmul 53 1024 (to_spec secs_86399_5) (to_spec f30) /\
  py_round (fmul secs_86399_5 f30) = Ok 2591985.
Proof. repeat apply conj; vm_compute; reflexivity. Qed.

(** ** Timestamp extraction *)

(** C4 fails on the code by a missed case.  A sidecar whose first
    timestamp-shaped substring is not a date (month 13) makes [strptime]
    raise ValueError: the function neither returns the timestamp nor
    [None], and [main], which announces that clips with an unparsable
    timestamp are skipped, is left by the exception. *)
Lemma parse_srt_for_timestamp_month_13 :
  parse_srt_for_timestamp (str "2024-13-01 00:00:00.000") = Raise ValueError /\
  search timestamp_pattern (str "2024-13-01 00:00:00.000")
    = Some (str "2024-13-01 00:00:00.000",
            [str "2024"; str "13"; str "01"; str "00"; str "00"; str "00"; str "000"]).
Proof. repeat apply conj; vm_compute; reflexivity. Qed.

(** Absence of a match is not a failure. *)
Example parse_srt_for_timestamp_no_match :
  parse_srt_for_timestamp (str "FrameCnt: 1, DiffTime: 33ms") = Ok None.
Proof. vm_compute. reflexivity. Qed.

(** ** Stable sorting by a key

    [sort_by] with the comparison [key a <=? key b] is what
    [list.sort(key=...)] computes: the result is sorted by key, is a
    rearrangement of the input, and keeps elements of equal key in their
    input order. *)

Section StableSort.

Variable A : Type.
Variable key : A -> Z.

Let leb (a b : A) : bool := key a <=? key b.
Let le (a b : A) : Prop := key a <= key b.

Lemma insert_by_perm x l : Permutation (insert_by leb x l) (x :: l).
Proof.
  induction l as [|y l IH]; simpl.
  - apply Permutation_refl.
  - destruct (leb y x).
    + eapply perm_trans; [apply perm_skip, IH | apply perm_swap].
    + apply Permutation_refl.
Qed.

Lemma insert_by_sorted x l :
  StronglySorted le l -> StronglySorted le (insert_by leb x l).
Proof.
  induction 1 as [|y l Hs IH Hy]; simpl.
  - constructor; constructor.
  - unfold leb at 1. destruct (Z.leb_spec (key y) (key x)) as [Hle | Hgt].
    + constructor; [exact IH|].
      rewrite Forall_forall in *. intros z Hz.
      apply (Permutation_in _ (insert_by_perm x l)) in Hz.
      destruct Hz as [<- | Hz]; [exact Hle | apply Hy, Hz].
    + constructor; [constructor; assumption|].
      constructor; [unfold le; lia|].
      rewrite Forall_forall in *. intros z Hz.
      specialize (Hy z Hz). unfold le in *. lia.
Qed.

Lemma insert_by_filter x l k :
  StronglySorted le l ->
  filter (fun a => key a =? k) (insert_by leb x l) =
  filter (fun a => key a =? k) l ++ (if key x =? k then [x] else []).
Proof.
  induction 1 as [|y l Hs IH Hy]; simpl.
  - destruct (key x =? k); reflexivity.
  - unfold leb at 1. destruct (Z.leb_spec (key y) (key x)) as [Hle | Hgt]; simpl.
    + rewrite IH. destruct (key y =? k); reflexivity.
    + destruct (Z.eqb_spec (key x) k) as [Ex | Nx].
      * (* everything from [y] on has a larger key than [x] *)
        assert (Hnone : filter (fun a => key a =? k) (y :: l) = []).
        {
          assert (F : Forall (fun a => (key a =? k) = false) (y :: l)).
          { constructor; [apply Z.eqb_neq; lia|].
            rewrite Forall_forall in *. intros z Hz. specialize (Hy z Hz).
            unfold le in Hy. apply Z.eqb_neq. lia. }
          clear - F. induction F as [|z m Hz _ IHm]; simpl; [reflexivity|].
          rewrite Hz. exact IHm. }
        simpl in Hnone. rewrite Hnone. reflexivity.
      * rewrite app_nil_r. reflexivity.
Qed.

Lemma sort_by_snoc l x : sort_by leb (l ++ [x]) = insert_by leb x (sort_by leb l).
Proof. unfold sort_by. rewrite fold_left_app. reflexivity. Qed.

Lemma sort_by_sorted l : StronglySorted le (sort_by leb l).
Proof.
  induction l as [|x l IH] using rev_ind.
  - constructor.
  - rewrite sort_by_snoc. apply insert_by_sorted, IH.
Qed.

Lemma sort_by_perm l : Permutation (sort_by leb l) l.
Proof.
  induction l as [|x l IH] using rev_ind.
  - apply Permutation_refl.
  - rewrite sort_by_snoc.
    eapply perm_trans; [apply insert_by_perm|].
    eapply perm_trans; [apply perm_skip, IH|].
    apply Permutation_cons_append.
Qed.

Lemma sort_by_stable l k :
  filter (fun a => key a =? k) (sort_by leb l) = filter (fun a => key a =? k) l.
Proof.
  induction l as [|x l IH] using rev_ind.
  - reflexivity.
  - rewrite sort_by_snoc, insert_by_filter by apply sort_by_sorted.
    rewrite IH, filter_app. simpl. destruct (key x =? k); reflexivity.
Qed.

End StableSort.

(** ** Reasoning about runs *)

Section Traces.

Variable Handle World : Type.
Variable ask : forall R : Type, call Handle R -> World -> R * World.

Lemma bindM_ok {A B : Type} (m : M Handle World A) (k : A -> M Handle World B) w a w1 t1 :
  m w = (Ok a, w1, t1) ->
  bindM m k w = (fst (fst (k a w1)), snd (fst (k a w1)), t1 ++ snd (k a w1)).
Proof.
  intros E. unfold bindM. rewrite E. destruct (k a w1) as [[r2 w2] t2]. reflexivity.
Qed.

Lemma bindM_raise {A B : Type} (m : M Handle World A) (k : A -> M Handle World B) w e w1 t1 :
  m w = (Raise e, w1, t1) -> bindM m k w = (Raise e, w1, t1).
Proof. intros E. unfold bindM. rewrite E. reflexivity. Qed.

Lemma unit_eta (u : unit) : u = tt.
Proof. destruct u. reflexivity. Qed.

Lemma perform_run {R : Type} (c : call Handle R) w :
  perform ask c w = (Ok (fst (ask R c w)), snd (ask R c w), [Ev c (fst (ask R c w))]).
Proof. unfold perform. destruct (ask R c w). reflexivity. Qed.

Variable P : event Handle -> bool.

Lemma avoids_ret {A : Type} (a : A) : avoids (World := World) P (ret a).
Proof. intros w. constructor. Qed.

Lemma avoids_lift {A : Type} (r : result A) : avoids (World := World) P (lift r).
Proof. intros w. constructor. Qed.

Lemma avoids_perform {R : Type} (c : call Handle R) :
  (forall r, P (Ev c r) = false) -> avoids P (perform ask c).
Proof.
  intros H w. unfold perform. destruct (ask R c w) as [r w'].
  constructor; [apply H | constructor].
Qed.

Lemma avoids_bind {A B : Type} (m : M Handle World A) (k : A -> M Handle World B) :
  avoids P m -> (forall a, avoids P (k a)) -> avoids P (bindM m k).
Proof.
  intros Hm Hk w. unfold bindM. specialize (Hm w).
  destruct (m w) as [[[a | e] w1] t1]; simpl in *.
  - specialize (Hk a w1). destruct (k a w1) as [[r2 w2] t2]; simpl in *.
    apply Forall_app; split; assumption.
  - assumption.
Qed.

Lemma avoids_for_each {A : Type} (body : A -> M Handle World unit) l :
  (forall a, avoids P (body a)) -> avoids P (for_each body l).
Proof.
  intros Hb. induction l as [|x l IH]; simpl.
  - apply avoids_ret.
  - apply avoids_bind; [apply Hb | intros _; exact IH].
Qed.

Lemma avoids_fold_M {A S : Type} (body : S -> A -> M Handle World S) l :
  (forall s a, avoids P (body s a)) -> forall s, avoids P (fold_M body l s).
Proof.
  intros Hb. induction l as [|x l IH]; intros s; simpl.
  - apply avoids_ret.
  - apply avoids_bind; [apply Hb | intros s'; apply IH].
Qed.

End Traces.

Ltac quiet_step ask :=
  first
    [ apply avoids_ret
    | apply avoids_lift
    | apply (avoids_perform _ _ ask); intros; reflexivity
    | apply avoids_bind; [| intros]
    | apply avoids_for_each; intros
    | apply avoids_fold_M; intros
    | match goal with
      | |- avoids _ (match ?x with _ => _ end) => destruct x
      | |- avoids _ (if ?x then _ else _) => destruct x
      | |- avoids _ (let '(_, _) := ?x in _) => destruct x
      end ].

Ltac quiet ask := repeat quiet_step ask.

Section Quiet.

Variable Handle World : Type.
Variable ask : forall R : Type, call Handle R -> World -> R * World.

Lemma find_by_name_avoids P name folders :
  (forall f r, P (Ev (Handle := Handle) (GetName f) r) = false) ->
  avoids P (find_by_name Handle World ask name folders).
Proof.
  intros H. induction folders as [|f rest IH]; simpl.
  - apply avoids_ret.
  - apply avoids_bind; [apply avoids_perform; apply H|].
    intros [n|]; [destruct (text_eqb n name)|]; try exact IH. apply avoids_ret.
Qed.

End Quiet.

(** ** Placement entries of one (camera, day) group *)

Section Placement.

Variable Handle World : Type.
Variable ask : forall R : Type, call Handle R -> World -> R * World.

Lemma no_placement_appended (tr : list (event Handle)) :
  Forall (fun e => is_placement e = false) tr ->
  appended tr = [] /\ imported_handles tr = [].
Proof.
  induction 1 as [|e tr He _ [IH1 IH2]]; [split; reflexivity|].
  unfold appended, imported_handles in *; simpl. rewrite IH1, IH2.
  destruct e as [R c r]. destruct c; try discriminate He; split; reflexivity.
Qed.

Lemma ensure_bin_quiet root name :
  avoids is_placement (ensure_bin Handle World ask root name).
Proof.
  unfold ensure_bin, scan_subfolders.
  assert (F : forall n l, avoids is_placement (find_by_name Handle World ask n l))
    by (intros; apply find_by_name_avoids; reflexivity).
  destruct root as [root|]; [|apply avoids_ret].
  repeat first [ apply F | quiet_step ask ].
Qed.

Lemma find_timeline_quiet name i n :
  avoids is_placement (find_timeline Handle World ask name i n).
Proof.
  revert i. induction n as [|n IH]; intros i; simpl.
  - apply avoids_ret.
  - repeat first [ apply IH | quiet_step ask ].
Qed.

Lemma get_or_create_timeline_quiet name :
  avoids is_placement (get_or_create_timeline Handle World ask name).
Proof.
  unfold get_or_create_timeline.
  repeat first [ apply find_timeline_quiet | quiet_step ask ].
Qed.

Lemma apply_resolution_quiet tl name wh :
  avoids is_placement (apply_resolution Handle World ask tl name wh).
Proof. unfold apply_resolution. quiet ask. Qed.

Lemma import_step_run acc v s ts w :
  import_step Handle World ask acc (v, s, ts) w =
  (Ok (match fst (ask _ (ImportMedia v) w) with
       | item :: _ => acc ++ [(item, v, s, ts)]
       | [] => acc
       end),
   snd (ask _ (ImportMedia v) w),
   [Ev (ImportMedia v) (fst (ask _ (ImportMedia v) w))]).
Proof.
  unfold import_step.
  erewrite bindM_ok by apply perform_run.
  destruct (fst (ask _ (ImportMedia v) w)); reflexivity.
Qed.

Lemma import_loop items : forall acc w,
  exists imported_items w' tr,
    fold_M (import_step Handle World ask) items acc w = (Ok imported_items, w', tr) /\
    appended tr = [] /\
    map handle_of imported_items = map handle_of acc ++ imported_handles tr.
Proof.
  induction items as [|[[v s] ts] items IH]; intros acc w; simpl.
  - exists acc, w, []. rewrite app_nil_r. repeat split.
  - erewrite bindM_ok by apply import_step_run.
    destruct (ask _ (ImportMedia v) w) as [added w1]; simpl.
    destruct added as [|item more].
    + destruct (IH acc w1) as (r & w' & tr & E & A & I). rewrite E; simpl.
      exists r, w', (Ev (ImportMedia v) [] :: tr). repeat split; assumption.
    + destruct (IH (acc ++ [(item, v, s, ts)]) w1) as (r & w' & tr & E & A & I).
      rewrite E; simpl.
      exists r, w', (Ev (ImportMedia v) (item :: more) :: tr).
      repeat split; [assumption|].
      rewrite I, map_app, <- app_assoc. reflexivity.
Qed.

Lemma info_step_quiet fps acc x :
  avoids is_placement (info_step Handle World ask fps acc x).
Proof. unfold info_step. destruct x as [[[item v] s] ts]. quiet ask. Qed.

Lemma lift_run {A : Type} (r : result A) (w : World) :
  lift (Handle := Handle) r w = (r, w, []).
Proof. reflexivity. Qed.

Lemma info_step_ok fps acc item v s ts w max_wh infos w1 t1 :
  info_step Handle World ask fps acc (item, v, s, ts) w = (Ok (max_wh, infos), w1, t1) ->
  exists record_frame duration,
    compute_record_frame ts fps = Ok record_frame /\
    infos = snd acc ++ [make_info Handle item record_frame duration] /\
    max_wh = update_max (fst acc) (fst (ask _ (GetClipProperty item) w)).
Proof.
  unfold info_step. intros E.
  erewrite bindM_ok in E by apply perform_run. cbn [fst snd app] in E.
  destruct (compute_record_frame ts fps) as [rf|e] eqn:Erf.
  - erewrite bindM_ok in E by apply lift_run. cbn [fst snd app] in E.
    erewrite bindM_ok in E by apply perform_run. cbn [fst snd app] in E.
    destruct (get_clip_duration_frames _ fps) as [dur|e] eqn:Ed.
    + erewrite bindM_ok in E by apply lift_run. cbn [fst snd app] in E.
      inversion E; subst. exists rf, dur. repeat split.
    + erewrite bindM_raise in E by apply lift_run. discriminate E.
  - erewrite bindM_raise in E by apply lift_run. discriminate E.
Qed.

Lemma info_loop fps items : forall acc w r w' tr,
  fold_M (info_step Handle World ask fps) items acc w = (r, w', tr) ->
  Forall (fun e => is_placement e = false) tr /\
  forall max_wh infos, r = Ok (max_wh, infos) ->
    map mediaPoolItem infos = map mediaPoolItem (snd acc) ++ map handle_of items.
Proof.
  intros acc w r w' tr E. split.
  - pose proof (avoids_fold_M _ _ is_placement (info_step Handle World ask fps) items
                  (info_step_quiet fps) acc w) as H.
    rewrite E in H. exact H.
  - revert acc w r w' tr E.
    induction items as [|[[[item v] s] ts] items IH]; intros acc w r w' tr E mx infos ->.
    + simpl in E. inversion E; subst. simpl. rewrite app_nil_r. reflexivity.
    + simpl in E.
      destruct (info_step Handle World ask fps acc (item, v, s, ts) w)
        as [[[[mx1 infos1] | e] w1] t1] eqn:E1.
      * erewrite bindM_ok in E by exact E1.
        destruct (fold_M (info_step Handle World ask fps) items (mx1, infos1) w1)
          as [[r2 w2] t2] eqn:E2.
        simpl in E. inversion E; subst.
        rewrite (IH _ _ _ _ _ E2 mx infos eq_refl).
        apply info_step_ok in E1. destruct E1 as (rf & dur & _ & -> & _).
        simpl. rewrite map_app, <- app_assoc. reflexivity.
      * erewrite bindM_raise in E by exact E1. discriminate E.
Qed.

Lemma append_step_run info w :
  exists w' tr,
    append_step Handle World ask info w = (Ok tt, w', tr) /\
    appended tr = [info] /\ imported_handles tr = [].
Proof.
  unfold append_step.
  erewrite bindM_ok by apply perform_run.
  destruct (ask _ (AppendToTimeline info) w) as [ok w1]; simpl.
  destruct ok.
  - eexists _, _. repeat split.
  - erewrite bindM_ok by apply perform_run.
    rewrite !perform_run; simpl.
    destruct (ask _ (Print _) _) as [[] w3]; simpl.
    eexists _, _. repeat split.
Qed.

Lemma append_loop l : forall w,
  exists w' tr,
    for_each (append_step Handle World ask) l w = (Ok tt, w', tr) /\
    appended tr = l /\ imported_handles tr = [].
Proof.
  induction l as [|info l IH]; intros w; simpl.
  - exists w, []. repeat split.
  - destruct (append_step_run info w) as (w1 & t1 & E1 & A1 & I1).
    erewrite bindM_ok by exact E1.
    destruct (IH w1) as (w' & tr & E & A & I). rewrite E; simpl.
    eexists _, _. split; [reflexivity|].
    unfold appended, imported_handles in *.
    rewrite !flat_map_app, A1, I1, A, I. split; reflexivity.
Qed.

End Placement.

Section PlacementOrder.

Variable Handle World : Type.
Variable ask : forall R : Type, call Handle R -> World -> R * World.

Lemma quiet_run {A : Type} (m : M Handle World A) w :
  avoids is_placement m ->
  appended (snd (m w)) = [] /\ imported_handles (snd (m w)) = [].
Proof. intros H. apply no_placement_appended, H. Qed.

Lemma appended_app (a b : list (event Handle)) :
  appended (a ++ b) = appended a ++ appended b.
Proof. apply flat_map_app. Qed.

Lemma imported_handles_app (a b : list (event Handle)) :
  imported_handles (a ++ b) = imported_handles a ++ imported_handles b.
Proof. apply flat_map_app. Qed.

Lemma appended_cons e (tr : list (event Handle)) :
  appended (e :: tr) = appended_of Handle e ++ appended tr.
Proof. reflexivity. Qed.

Lemma imported_handles_cons e (tr : list (event Handle)) :
  imported_handles (e :: tr) = imported_of Handle e ++ imported_handles tr.
Proof. reflexivity. Qed.

Ltac obs :=
  repeat first
    [ rewrite appended_app | rewrite imported_handles_app
    | rewrite appended_cons | rewrite imported_handles_cons ];
  cbn [appended_of imported_of first_item app];
  change (appended (@nil (event Handle))) with (@nil (clip_info Handle));
  change (imported_handles (@nil (event Handle))) with (@nil Handle).

Lemma process_date_group_placement date_folder_name cam_id fps cam_bin all_timelines g w :
  placement_ok
    (snd (process_date_group Handle World ask date_folder_name cam_id fps cam_bin
            all_timelines g w)).
Proof.
  unfold process_date_group. destruct g as [realdate items].
  pose proof (quiet_run _ w (ensure_bin_quiet Handle World ask (Some cam_bin) realdate))
    as [A1 I1].
  destruct (ensure_bin Handle World ask (Some cam_bin) realdate w)
    as [[[date_bin | e] w1] t1] eqn:E1; simpl in A1, I1.
  2:{ erewrite bindM_raise by exact E1. left. exact A1. }
  erewrite bindM_ok by exact E1. simpl.
  erewrite bindM_ok by apply perform_run. simpl.
  set (w2 := snd (ask unit (SetCurrentFolder date_bin) w1)).
  destruct date_bin as [bin|].
  2:{ erewrite bindM_ok by apply perform_run. simpl. left.
      obs. rewrite A1. reflexivity. }
  destruct (import_loop Handle World ask items [] w2) as (imp & w3 & t3 & E3 & A3 & I3).
  erewrite bindM_ok by exact E3. simpl.
  set (name := join_underscore date_folder_name cam_id realdate).
  pose proof (quiet_run _ w3 (get_or_create_timeline_quiet Handle World ask name))
    as [A4 I4].
  destruct (get_or_create_timeline Handle World ask name w3)
    as [[[tl | e] w4] t4] eqn:E4; simpl in A4, I4.
  2:{ erewrite bindM_raise by exact E4. simpl. left.
      obs. rewrite A1, A3, A4. reflexivity. }
  erewrite bindM_ok by exact E4. simpl.
  destruct tl as [timeline|].
  2:{ erewrite bindM_ok by apply perform_run. simpl. left.
      obs. rewrite A1, A3, A4. reflexivity. }
  erewrite bindM_ok by apply perform_run. simpl.
  erewrite bindM_ok by apply perform_run. simpl.
  match goal with |- context [bindM (fold_M ?b imp ?a) _ ?w] =>
    destruct (fold_M b imp a w) as [[[[max_wh clip_infos] | e] w5] t5] eqn:E5
  end.
  2:{ erewrite bindM_raise by exact E5. simpl. left.
      apply info_loop in E5. destruct E5 as [Q _].
      apply no_placement_appended in Q. destruct Q as [A5 _].
      obs. rewrite A1, A3, A4, A5. reflexivity. }
  erewrite bindM_ok by exact E5. simpl.
  apply info_loop in E5. destruct E5 as [Q5 M5].
  apply no_placement_appended in Q5. destruct Q5 as [A5 I5].
  specialize (M5 _ _ eq_refl). simpl in M5.
  pose proof (quiet_run _ w5
                (apply_resolution_quiet Handle World ask timeline name max_wh))
    as [A6 I6].
  destruct (apply_resolution Handle World ask timeline name max_wh w5)
    as [[[u | e] w6] t6] eqn:E6; simpl in A6, I6.
  2:{ erewrite bindM_raise by exact E6. simpl. left.
      obs. rewrite A1, A3, A4, A5, A6. reflexivity. }
  erewrite bindM_ok by exact E6. simpl.
  destruct (append_loop Handle World ask (sort_clip_infos Handle clip_infos) w6)
    as (w7 & t7 & E7 & A7 & I7).
  erewrite bindM_ok by exact E7. simpl.
  right. exists clip_infos. split.
  - obs. rewrite I1, I4, I5, I6, I7. simpl.
    rewrite !app_nil_r. rewrite M5, I3. reflexivity.
  - obs. rewrite A1, A3, A4, A5, A6, A7. simpl.
    rewrite !app_nil_r. reflexivity.
Qed.

(** C6.  The placement entries handed to the host for one (camera, day)
    group, in the order of the [AppendToTimeline] calls of the run, are
    sorted ascending by [recordFrame]; and unless nothing is handed over
    they are a rearrangement of one entry per imported clip, taken in the
    order of import, in which the entries of any given [recordFrame] keep
    that order (the sort is stable). *)
Theorem placement_entries_sorted_stable
    date_folder_name cam_id fps cam_bin all_timelines g w :
  StronglySorted (fun a b => recordFrame a <= recordFrame b)
    (appended (snd (process_date_group Handle World ask date_folder_name
                      cam_id fps cam_bin all_timelines g w))) /\
  (appended (snd (process_date_group Handle World ask date_folder_name
                    cam_id fps cam_bin all_timelines g w)) = [] \/
   exists clip_infos,
     map mediaPoolItem clip_infos
       = imported_handles
           (snd (process_date_group Handle World ask date_folder_name
                   cam_id fps cam_bin all_timelines g w)) /\
     Permutation
       (appended (snd (process_date_group Handle World ask date_folder_name
                         cam_id fps cam_bin all_timelines g w)))
       clip_infos /\
     forall f,
       filter (fun i => recordFrame i =? f)
         (appended (snd (process_date_group Handle World ask date_folder_name
                           cam_id fps cam_bin all_timelines g w)))
       = filter (fun i => recordFrame i =? f) clip_infos).
Proof.
  destruct (process_date_group_placement date_folder_name cam_id fps cam_bin
              all_timelines g w) as [E | (clip_infos & Hm & Ha)].
  - rewrite E. split; [constructor | left; reflexivity].
  - rewrite Ha. unfold sort_clip_infos. split; [apply sort_by_sorted|].
    right. exists clip_infos. split; [exact Hm|]. split.
    + apply sort_by_perm.
    + intros f. apply sort_by_stable.
Qed.

End PlacementOrder.

(** ** Grouping by the timestamp's calendar day *)


Lemma text_eqb_eq a b : text_eqb a b = true <-> a = b.
Proof. unfold text_eqb. destruct (list_eq_dec ascii_dec a b); split; congruence. Qed.

Lemma text_eqb_refl a : text_eqb a a = true.
Proof. apply text_eqb_eq. reflexivity. Qed.

Lemma text_eqb_sym a b : text_eqb a b = text_eqb b a.
Proof.
  destruct (text_eqb a b) eqn:E1, (text_eqb b a) eqn:E2; try reflexivity.
  - apply text_eqb_eq in E1. subst. rewrite text_eqb_refl in E2. discriminate.
  - apply text_eqb_eq in E2. subst. rewrite text_eqb_refl in E1. discriminate.
Qed.

Lemma lookup_setdefault_append k key x g :
  lookup k (setdefault_append key x g) =
  if text_eqb key k
  then Some (match lookup key g with Some xs => xs ++ [x] | None => [x] end)
  else lookup k g.
Proof.
  induction g as [|[k' xs] g IH]; simpl.
  - destruct (text_eqb key k); reflexivity.
  - destruct (text_eqb k' key) eqn:E1; simpl.
    + apply text_eqb_eq in E1. subst k'.
      destruct (text_eqb key k); reflexivity.
    + rewrite IH. destruct (text_eqb k' k) eqn:E2.
      * destruct (text_eqb key k) eqn:E3; [|reflexivity].
        apply text_eqb_eq in E2, E3. subst. rewrite text_eqb_refl in E1. discriminate.
      * reflexivity.
Qed.

Lemma keys_setdefault_append key x g :
  map fst (setdefault_append key x g) =
  if existsb (text_eqb key) (map fst g) then map fst g else map fst g ++ [key].
Proof.
  induction g as [|[k' xs] g IH]; simpl; [reflexivity|].
  rewrite (text_eqb_sym key k').
  destruct (text_eqb k' key); simpl; [reflexivity|].
  rewrite IH. destruct (existsb (text_eqb key) (map fst g)); reflexivity.
Qed.

Lemma nodup_setdefault_append key x g :
  NoDup (map fst g) -> NoDup (map fst (setdefault_append key x g)).
Proof.
  intros H. rewrite keys_setdefault_append.
  destruct (existsb (text_eqb key) (map fst g)) eqn:E; [assumption|].
  apply NoDup_app; [assumption | repeat constructor; intros [] |].
  intros a Ha [-> | []].
  assert (existsb (text_eqb a) (map fst g) = true).
  { apply existsb_exists. exists a. split; [assumption | apply text_eqb_refl]. }
  congruence.
Qed.

Lemma group_clips_snoc clips c :
  group_clips (clips ++ [c]) = setdefault_append (clip_key c) c (group_clips clips).
Proof. unfold group_clips. rewrite fold_left_app. reflexivity. Qed.

Lemma group_clips_nodup clips : NoDup (map fst (group_clips clips)).
Proof.
  induction clips as [|c clips IH] using rev_ind.
  - constructor.
  - rewrite group_clips_snoc. apply nodup_setdefault_append, IH.
Qed.

Lemma lookup_group_clips k clips :
  lookup k (group_clips clips) =
  match filter (in_day k) clips with
  | [] => None
  | l => Some l
  end.
Proof.
  induction clips as [|c clips IH] using rev_ind; [reflexivity|].
  rewrite group_clips_snoc, lookup_setdefault_append, filter_app. simpl.
  unfold in_day at 2.
  destruct (text_eqb (clip_key c) k) eqn:E.
  - apply text_eqb_eq in E. subst k. rewrite IH.
    destruct (filter (in_day (clip_key c)) clips) as [|a l]; simpl; [reflexivity|].
    destruct (l ++ [c]) eqn:El; [destruct l; discriminate|rewrite <- El; reflexivity].
  - rewrite app_nil_r. exact IH.
Qed.

Lemma lookup_in k xs g :
  NoDup (map fst g) -> (In (k, xs) g <-> lookup k g = Some xs).
Proof.
  induction g as [|[k' ys] g IH]; simpl; intros H.
  - split; [intros [] | discriminate].
  - inversion H as [|? ? Hn Hd]; subst.
    destruct (text_eqb k' k) eqn:E.
    + apply text_eqb_eq in E. subst k'. split.
      * intros [Eq | Hin]; [congruence|].
        exfalso. apply Hn. apply (in_map fst) in Hin. exact Hin.
      * intros Eq. left. congruence.
    + split.
      * intros [Eq | Hin]; [|apply IH; assumption].
        inversion Eq; subst. rewrite text_eqb_refl in E. discriminate.
      * intros Hl. right. apply IH; assumption.
Qed.

Lemma group_clips_membership clips k items :
  In (k, items) (group_clips clips) <->
  items <> [] /\ items = filter (in_day k) clips.
Proof.
  rewrite (lookup_in _ _ _ (group_clips_nodup clips)), lookup_group_clips.
  destruct (filter (in_day k) clips) as [|a l]; split.
  - discriminate.
  - intros [Hne ->]. congruence.
  - intros E. inversion E; subst. split; [discriminate | reflexivity].
  - intros [_ ->]. reflexivity.
Qed.

Lemma digit_char_inj a b :
  digit_char a = digit_char b -> a mod 10 = b mod 10.
Proof.
  unfold digit_char. intros H.
  apply (f_equal N_of_ascii) in H.
  pose proof (Z.mod_pos_bound a 10 ltac:(lia)).
  pose proof (Z.mod_pos_bound b 10 ltac:(lia)).
  rewrite !N_ascii_embedding in H by lia.
  lia.
Qed.

Lemma two_digits_inj a b :
  0 <= a < 100 -> 0 <= b < 100 -> two_digits a = two_digits b -> a = b.
Proof.
  intros Ha Hb H. unfold two_digits in H. inversion H as [[H1 H2]].
  apply digit_char_inj in H1, H2.
  rewrite (Z.mod_small (a / 10)) in H1 by (split; [apply Z.div_pos | apply Z.div_lt_upper_bound]; lia).
  rewrite (Z.mod_small (b / 10)) in H1 by (split; [apply Z.div_pos | apply Z.div_lt_upper_bound]; lia).
  rewrite (Z.div_mod a 10), (Z.div_mod b 10) by lia. lia.
Qed.

Lemma valid_datetime_date t :
  valid_datetime t = true -> 1 <= month t <= 12 /\ 1 <= day t <= 31.
Proof.
  unfold valid_datetime. intros H.
  repeat (apply andb_prop in H; destruct H as [H ?]).
  repeat match goal with X : (_ <=? _) = true |- _ => apply Z.leb_le in X end.
  assert (days_in_month (year t) (month t) <= 31).
  { unfold days_in_month.
    repeat match goal with |- context [if ?c then _ else _] => destruct c end; lia. }
  lia.
Qed.

(** The key is the calendar date: two valid timestamps get the same key
    exactly when they agree on two-digit year, month and day. *)
Lemma strftime_ymd_same_date t1 t2 :
  valid_datetime t1 = true -> valid_datetime t2 = true ->
  (strftime_ymd t1 = strftime_ymd t2 <->
   year t1 mod 100 = year t2 mod 100 /\ month t1 = month t2 /\ day t1 = day t2).
Proof.
  intros V1 V2.
  apply valid_datetime_date in V1, V2.
  pose proof (Z.mod_pos_bound (year t1) 100 ltac:(lia)).
  pose proof (Z.mod_pos_bound (year t2) 100 ltac:(lia)).
  split.
  - unfold strftime_ymd. intros Heq.
    change (two_digits (year t1 mod 100) ++ str "-" ++ two_digits (month t1) ++ str "-" ++ two_digits (day t1))
      with ([digit_char (year t1 mod 100 / 10); digit_char (year t1 mod 100); "-"%char;
             digit_char (month t1 / 10); digit_char (month t1); "-"%char;
             digit_char (day t1 / 10); digit_char (day t1)]) in Heq.
    change (two_digits (year t2 mod 100) ++ str "-" ++ two_digits (month t2) ++ str "-" ++ two_digits (day t2))
      with ([digit_char (year t2 mod 100 / 10); digit_char (year t2 mod 100); "-"%char;
             digit_char (month t2 / 10); digit_char (month t2); "-"%char;
             digit_char (day t2 / 10); digit_char (day t2)]) in Heq.
    inversion Heq as [[Y1 Y2 M1 M2 D1 D2]].
    repeat split; apply two_digits_inj; try lia; unfold two_digits; congruence.
  - intros (Y & Mo & D). unfold strftime_ymd. rewrite Y, Mo, D. reflexivity.
Qed.

Lemma strptime_valid w t : strptime w = Ok t -> valid_datetime t = true.
Proof.
  unfold strptime. intros H.
  repeat match type of H with
         | match ?x with _ => _ end = _ => destruct x eqn:?; try discriminate H
         end.
  inversion H; subst. assumption.
Qed.

Lemma parse_srt_for_timestamp_valid content t :
  parse_srt_for_timestamp content = Ok (Some t) -> valid_datetime t = true.
Proof.
  unfold parse_srt_for_timestamp. intros H.
  destruct (search timestamp_pattern content) as [[w caps]|]; [|discriminate H].
  destruct (strptime w) as [t'|e] eqn:E; simpl in H; [|discriminate H].
  inversion H; subst. exact (strptime_valid _ _ E).
Qed.

Section Grouping.

Variable Handle World : Type.
Variable ask : forall R : Type, call Handle R -> World -> R * World.

(** One turn of the loop is the resolution of the video followed by
    line 238. *)
Lemma group_step_resolve g v w :
  group_step Handle World ask g v w
  = (match fst (fst (resolve_video Handle World ask v w)) with
     | Ok (Some c) => Ok (setdefault_append (clip_key c) c g)
     | Ok None => Ok g
     | Raise e => Raise e
     end,
     snd (fst (resolve_video Handle World ask v w)),
     snd (resolve_video Handle World ask v w)).
Proof.
  unfold group_step, resolve_video, bindM.
  destruct (find_srt_for_video Handle World ask v w) as [[[s | e] wa] ta];
    [|reflexivity].
  destruct s as [srt_path|].
  - rewrite !perform_run. unfold lift.
    destruct (parse_srt_for_timestamp (fst (ask text (ReadText srt_path) wa)))
      as [[t|]|e]; [reflexivity | | reflexivity].
    rewrite !perform_run. reflexivity.
  - rewrite !perform_run. reflexivity.
Qed.

(** What the resolution of one video leaves in the trace. *)
Lemma resolve_video_ok v w r w1 t1 :
  resolve_video Handle World ask v w = (Ok r, w1, t1) ->
  match r with
  | Some c => clip_video c = v /\ from_own_sidecar [v] t1 c
  | None => skipped t1 v
  end.
Proof.
  unfold resolve_video. intros E.
  destruct (find_srt_for_video Handle World ask v w) as [[[s | e] wa] ta] eqn:Ef.
  2:{ erewrite bindM_raise in E by exact Ef. discriminate E. }
  erewrite bindM_ok in E by exact Ef.
  destruct s as [srt_path|].
  - erewrite bindM_ok in E by apply perform_run. cbn [fst snd] in E.
    set (content := fst (ask text (ReadText srt_path) wa)) in *.
    destruct (parse_srt_for_timestamp content) as [[t|]|e] eqn:Ep.
    + erewrite bindM_ok in E by apply lift_run. cbn [fst snd ret] in E.
      inversion E; subst. split; [reflexivity|].
      split; [left; reflexivity|].
      exists content. split; [|exact Ep].
      apply in_or_app. right. left. reflexivity.
    + erewrite bindM_ok in E by apply lift_run. cbn [fst snd] in E.
      erewrite bindM_ok in E by apply perform_run. cbn [fst snd ret] in E.
      inversion E; subst. right.
      rewrite (unit_eta (fst (ask unit (Print (MsgSkipNoTimestamp v)) _))).
      repeat first [rewrite in_app_iff | progress cbn [In]]. tauto.
    + erewrite bindM_raise in E by apply lift_run. discriminate E.
  - erewrite bindM_ok in E by apply perform_run. cbn [fst snd ret] in E.
    inversion E; subst. left.
    rewrite (unit_eta (fst (ask unit (Print (MsgSkipNoSrt v)) _))).
    repeat first [rewrite in_app_iff | progress cbn [In]]. tauto.
Qed.

Lemma from_own_sidecar_weaken vs vs' (tr tr' pre : list (event Handle)) c :
  incl vs vs' -> tr' = pre ++ tr \/ tr' = tr ++ pre ->
  from_own_sidecar vs tr c -> from_own_sidecar vs' tr' c.
Proof.
  intros Hi Ht [Hv (content & Hin & Hp)]. split; [apply Hi, Hv|].
  exists content. split; [|exact Hp].
  destruct Ht as [-> | ->]; apply in_or_app; auto.
Qed.

Lemma skipped_weaken (tr tr' pre : list (event Handle)) v :
  tr' = pre ++ tr \/ tr' = tr ++ pre -> skipped tr v -> skipped tr' v.
Proof.
  intros Ht [H | H]; [left | right];
    destruct Ht as [-> | ->]; apply in_or_app; auto.
Qed.

Lemma resolve_step_ok clips v w r w1 t1 :
  resolve_video Handle World ask v w = (Ok r, w1, t1) ->
  resolve_step Handle World ask clips v w = (Ok (keep_clip clips r), w1, t1).
Proof.
  intros E. unfold resolve_step, bindM. rewrite E. cbn [ret].
  rewrite app_nil_r. reflexivity.
Qed.

Lemma resolve_step_raise clips v w e w1 t1 :
  resolve_video Handle World ask v w = (Raise e, w1, t1) ->
  resolve_step Handle World ask clips v w = (Raise e, w1, t1).
Proof. intros E. unfold resolve_step, bindM. rewrite E. reflexivity. Qed.

(** The grouping loop is the resolution loop followed by [group_clips]. *)
Lemma group_loop_resolve videos : forall clips0 w,
  fold_M (group_step Handle World ask) videos (group_clips clips0) w
  = (match fst (fst (fold_M (resolve_step Handle World ask) videos clips0 w)) with
     | Ok clips => Ok (group_clips clips)
     | Raise e => Raise e
     end,
     snd (fst (fold_M (resolve_step Handle World ask) videos clips0 w)),
     snd (fold_M (resolve_step Handle World ask) videos clips0 w)).
Proof.
  induction videos as [|v videos IH]; intros clips0 w; cbn [fold_M].
  - reflexivity.
  - pose proof (group_step_resolve (group_clips clips0) v w) as Es.
    destruct (resolve_video Handle World ask v w) as [[[r | e] w1] t1] eqn:Er;
      cbn [fst snd] in Es.
    2:{ rewrite (bindM_raise Handle World _ _ _ _ _ _ Es).
        rewrite (bindM_raise Handle World _ _ _ _ _ _
                   (resolve_step_raise clips0 v w e w1 t1 Er)).
        reflexivity. }
    assert (Eg : group_step Handle World ask (group_clips clips0) v w
                 = (Ok (group_clips (keep_clip clips0 r)), w1, t1)).
    { rewrite Es. destruct r as [c|]; unfold keep_clip.
      - rewrite group_clips_snoc. reflexivity.
      - rewrite app_nil_r. reflexivity. }
    rewrite (bindM_ok Handle World _ _ _ _ _ _ Eg).
    rewrite (bindM_ok Handle World _ _ _ _ _ _
               (resolve_step_ok clips0 v w r w1 t1 Er)).
    rewrite IH. reflexivity.
Qed.

Lemma resolve_loop videos : forall clips0 w clips w' tr,
  fold_M (resolve_step Handle World ask) videos clips0 w = (Ok clips, w', tr) ->
  exists new,
    clips = clips0 ++ new /\
    Forall (from_own_sidecar videos tr) new /\
    (forall v, In v videos ->
       skipped tr v \/ exists c, In c new /\ clip_video c = v).
Proof.
  induction videos as [|v videos IH]; intros clips0 w clips w' tr E; cbn [fold_M] in E.
  - inversion E; subst. exists []. rewrite app_nil_r.
    split; [reflexivity|]. split; [constructor | intros v []].
  - destruct (resolve_video Handle World ask v w) as [[[r | e] w1] t1] eqn:Er.
    2:{ rewrite (bindM_raise Handle World _ _ _ _ _ _
                   (resolve_step_raise clips0 v w e w1 t1 Er)) in E.
        discriminate E. }
    rewrite (bindM_ok Handle World _ _ _ _ _ _
               (resolve_step_ok clips0 v w r w1 t1 Er)) in E.
    destruct (fold_M (resolve_step Handle World ask) videos (keep_clip clips0 r) w1)
      as [[r2 w2] t2] eqn:E2.
    cbn [fst snd] in E. inversion E; subst r2 w2 tr. clear E.
    destruct (IH _ _ _ _ _ E2) as (new & -> & Hall & Hacc).
    apply resolve_video_ok in Er.
    assert (Hall' : Forall (from_own_sidecar (v :: videos) (t1 ++ t2)) new).
    { eapply Forall_impl; [|exact Hall]. intros c.
      apply from_own_sidecar_weaken with (pre := t1); [|left; reflexivity].
      intros x Hx. right. exact Hx. }
    destruct r as [c|]; unfold keep_clip.
    + destruct Er as [Ev Hc].
      exists (c :: new). split; [rewrite <- app_assoc; reflexivity|]. split.
      * constructor; [|exact Hall'].
        apply from_own_sidecar_weaken with (vs := [v]) (tr := t1) (pre := t2);
          [|right; reflexivity|exact Hc].
        intros x [<- | []]. left. reflexivity.
      * intros v' [<- | Hv'].
        -- right. exists c. split; [left; reflexivity | exact Ev].
        -- destruct (Hacc v' Hv') as [Hs | (c' & Hc' & Ec')].
           ++ left. eapply skipped_weaken; [left; reflexivity | exact Hs].
           ++ right. exists c'. split; [right; exact Hc' | exact Ec'].
    + exists new. split; [rewrite app_nil_r; reflexivity|]. split; [exact Hall'|].
      intros v' [<- | Hv'].
      * left. eapply skipped_weaken; [right; reflexivity | exact Er].
      * destruct (Hacc v' Hv') as [Hs | (c' & Hc' & Ec')].
        -- left. eapply skipped_weaken; [left; reflexivity | exact Hs].
        -- right. exists c'. split; assumption.
Qed.

(** *** Surroundings whose answers do not depend on the state *)

Lemma answer_only_ret {A : Type} (a : A) :
  answer_only (Handle := Handle) (World := World) (ret a).
Proof. intros w1 w2. reflexivity. Qed.

Lemma answer_only_lift {A : Type} (r : result A) :
  answer_only (Handle := Handle) (World := World) (lift r).
Proof. intros w1 w2. reflexivity. Qed.

Lemma answer_only_perform {R : Type} (c : call Handle R) :
  answers_fixed Handle World ask -> answer_only (perform ask c).
Proof.
  intros H w1 w2. rewrite !perform_run. cbn [fst]. rewrite (H R c w1 w2). reflexivity.
Qed.

Lemma answer_only_bind {A B : Type} (m : M Handle World A) (k : A -> M Handle World B) :
  answer_only m -> (forall a, answer_only (k a)) -> answer_only (bindM m k).
Proof.
  intros Hm Hk w1 w2. unfold bindM. specialize (Hm w1 w2).
  destruct (m w1) as [[r1 wa] ta], (m w2) as [[r2 wb] tb]. cbn [fst] in Hm. subst r2.
  destruct r1 as [a|e]; [|reflexivity].
  specialize (Hk a wa wb).
  destruct (k a wa) as [[ra wc] tc], (k a wb) as [[rb wd] td]. exact Hk.
Qed.

Lemma answer_only_find_srt_for_video v :
  answers_fixed Handle World ask ->
  answer_only (find_srt_for_video Handle World ask v).
Proof.
  intros H. unfold find_srt_for_video.
  repeat first
    [ apply answer_only_ret
    | apply answer_only_lift
    | apply answer_only_perform; exact H
    | apply answer_only_bind; [| intros]
    | match goal with
      | |- answer_only (match ?x with _ => _ end) => destruct x
      | |- answer_only (if ?x then _ else _) => destruct x
      end ].
Qed.

Lemma resolve_video_clip_at v w w0 r w1 t1 :
  answers_fixed Handle World ask ->
  resolve_video Handle World ask v w = (Ok r, w1, t1) ->
  r = clip_at Handle World ask w0 v.
Proof.
  intros H E. unfold clip_at.
  rewrite (answer_only_find_srt_for_video v H w0 w).
  unfold resolve_video in E.
  destruct (find_srt_for_video Handle World ask v w) as [[[s | e] wa] ta] eqn:Ef.
  2:{ erewrite bindM_raise in E by exact Ef. discriminate E. }
  erewrite bindM_ok in E by exact Ef. cbn [fst].
  destruct s as [srt_path|].
  - erewrite bindM_ok in E by apply perform_run. cbn [fst snd] in E.
    rewrite (H text (ReadText srt_path) w0 wa).
    destruct (parse_srt_for_timestamp (fst (ask text (ReadText srt_path) wa)))
      as [[t|]|e] eqn:Ep.
    + erewrite bindM_ok in E by apply lift_run. cbn [fst snd ret] in E.
      inversion E; subst. reflexivity.
    + erewrite bindM_ok in E by apply lift_run. cbn [fst snd] in E.
      erewrite bindM_ok in E by apply perform_run. cbn [fst snd ret] in E.
      inversion E; subst. reflexivity.
    + erewrite bindM_raise in E by apply lift_run. discriminate E.
  - erewrite bindM_ok in E by apply perform_run. cbn [fst snd ret] in E.
    inversion E; subst. reflexivity.
Qed.

Lemma resolve_loop_clips_at w0 videos :
  answers_fixed Handle World ask ->
  forall clips0 w clips w' tr,
    fold_M (resolve_step Handle World ask) videos clips0 w = (Ok clips, w', tr) ->
    clips = clips0 ++ clips_at Handle World ask w0 videos.
Proof.
  intros H. induction videos as [|v videos IH]; intros clips0 w clips w' tr E;
    cbn [fold_M] in E.
  - inversion E; subst. unfold clips_at. cbn [flat_map]. rewrite app_nil_r. reflexivity.
  - destruct (resolve_video Handle World ask v w) as [[[r | e] w1] t1] eqn:Er.
    2:{ rewrite (bindM_raise Handle World _ _ _ _ _ _
                   (resolve_step_raise clips0 v w e w1 t1 Er)) in E.
        discriminate E. }
    rewrite (bindM_ok Handle World _ _ _ _ _ _
               (resolve_step_ok clips0 v w r w1 t1 Er)) in E.
    destruct (fold_M (resolve_step Handle World ask) videos (keep_clip clips0 r) w1)
      as [[r2 w2] t2] eqn:E2.
    cbn [fst snd] in E. inversion E; subst r2 w2 tr. clear E.
    rewrite (IH _ _ _ _ _ E2).
    rewrite (resolve_video_clip_at v w w0 r w1 t1 H Er).
    unfold clips_at, keep_clip. cbn [flat_map]. rewrite <- app_assoc. reflexivity.
Qed.

(** C3.  Grouping the scanned videos of a camera folder (lines 227-238).
    The clips that are grouped are those of the scanned videos, each made
    of the video, the sidecar found for it and the timestamp parsed from
    the text of that sidecar, in scan order: every scanned video is
    either reported as skipped or is the video of a grouped clip, and
    when the surroundings answer the same way throughout, the clips are
    exactly the scanned videos that have a sidecar and a timestamp.  The
    result is [group_clips] of these clips, a function of the clips
    alone, so grouping the same clips again gives the same groups.  Keys
    are distinct; the group of key [k] holds exactly the clips whose
    timestamp formats as [k], in scan order; so every clip of a group
    has the group's key as the day of its timestamp, every clip is in
    the group of its own day, and two clips share a group exactly when
    their timestamps agree on two-digit year, month and day.  The folder
    the clips are stored in is not an input of the grouping. *)
Theorem group_videos_by_timestamp_day videos w g w' tr :
  group_videos Handle World ask videos w = (Ok g, w', tr) ->
  exists clips,
    resolve_videos Handle World ask videos w = (Ok clips, w', tr) /\
    (forall v, In v videos ->
        skipped tr v \/ exists c, In c clips /\ clip_video c = v) /\
    (answers_fixed Handle World ask ->
        clips = clips_at Handle World ask w videos) /\
    g = group_clips clips /\
    Forall (from_own_sidecar videos tr) clips /\
    NoDup (map fst g) /\
    (forall k items,
        In (k, items) g <->
        items <> [] /\
        items = filter (fun c => text_eqb (strftime_ymd (snd c)) k) clips) /\
    (forall k items c,
        In (k, items) g -> In c items -> k = strftime_ymd (snd c)) /\
    (forall c, In c clips ->
        exists items, In (strftime_ymd (snd c), items) g /\ In c items) /\
    (forall c1 c2, In c1 clips -> In c2 clips ->
        (strftime_ymd (snd c1) = strftime_ymd (snd c2) <->
         year (snd c1) mod 100 = year (snd c2) mod 100 /\
         month (snd c1) = month (snd c2) /\ day (snd c1) = day (snd c2))).
Proof.
  intros E. unfold group_videos in E.
  change (@nil (text * list clip)) with (group_clips []) in E.
  rewrite group_loop_resolve in E.
  fold (resolve_videos Handle World ask videos) in E.
  destruct (resolve_videos Handle World ask videos w) as [[[clips | e] w1] t1] eqn:Er;
    cbn [fst snd] in E; [|discriminate E].
  inversion E; subst g w1 t1. clear E.
  destruct (resolve_loop videos [] w clips w' tr Er) as (new & En & Hall & Hacc).
  cbn [app] in En. subst new.
  exists clips. split; [reflexivity|]. split; [exact Hacc|]. split.
  { intros H. apply (resolve_loop_clips_at w videos H [] w clips w' tr Er). }
  split; [reflexivity|]. split; [exact Hall|].
  split; [apply group_clips_nodup|].
  split; [intros k items; apply group_clips_membership|].
  split; [|split].
  - intros k items c Hin Hc.
    apply group_clips_membership in Hin. destruct Hin as [_ ->].
    apply filter_In in Hc. destruct Hc as [_ Hc].
    apply text_eqb_eq in Hc. symmetry. exact Hc.
  - intros c Hc. exists (filter (in_day (clip_key c)) clips). split.
    + apply group_clips_membership. split; [|reflexivity].
      intros Hnil.
      assert (Hin : In c (filter (in_day (clip_key c)) clips)).
      { apply filter_In. split; [exact Hc | apply text_eqb_refl]. }
      rewrite Hnil in Hin. destruct Hin.
    + apply filter_In. split; [exact Hc | apply text_eqb_refl].
  - intros c1 c2 H1 H2. rewrite Forall_forall in Hall.
    destruct (Hall c1 H1) as [_ (x1 & _ & P1)].
    destruct (Hall c2 H2) as [_ (x2 & _ & P2)].
    apply strftime_ymd_same_date; eapply parse_srt_for_timestamp_valid; eassumption.
Qed.

End Grouping.

(** The theorem at the two clips of the concrete environment: the clip
    stamped 23:59:59.500 on 9 May and the one stamped 00:00:30 on 10 May,
    stored side by side, land in different groups. *)
Lemma group_videos_by_timestamp_day_witness :
  group_videos nat unit demo_ask demo_videos tt
    = (Ok demo_groups, tt, demo_group_trace) /\
  exists clips,
    resolve_videos nat unit demo_ask demo_videos tt
      = (Ok clips, tt, demo_group_trace) /\
    (forall v, In v demo_videos ->
        skipped demo_group_trace v \/ exists c, In c clips /\ clip_video c = v) /\
    (answers_fixed nat unit demo_ask ->
        clips = clips_at nat unit demo_ask tt demo_videos) /\
    demo_groups = group_clips clips /\
    Forall (from_own_sidecar demo_videos demo_group_trace) clips /\
    NoDup (map fst demo_groups) /\
    (forall k items,
        In (k, items) demo_groups <->
        items <> [] /\
        items = filter (fun c => text_eqb (strftime_ymd (snd c)) k) clips) /\
    (forall k items c,
        In (k, items) demo_groups -> In c items -> k = strftime_ymd (snd c)) /\
    (forall c, In c clips ->
        exists items, In (strftime_ymd (snd c), items) demo_groups /\ In c items) /\
    (forall c1 c2, In c1 clips -> In c2 clips ->
        (strftime_ymd (snd c1) = strftime_ymd (snd c2) <->
         year (snd c1) mod 100 = year (snd c2) mod 100 /\
         month (snd c1) = month (snd c2) /\ day (snd c1) = day (snd c2))).
Proof.
  split; [vm_compute; reflexivity|].
  apply (group_videos_by_timestamp_day nat unit demo_ask demo_videos tt
           demo_groups tt demo_group_trace).
  vm_compute; reflexivity.
Defined.

(** ** The clip recorded half a second before midnight *)

(** C2, as amended.  For the clip whose sidecar timestamp is 2024-05-09
    23:59:59.500 and frame rate 30 the record-frame-offset is
    2591985 = round(86399.5 * 30) and the day key is 24-05-09; and the
    turn of the grouping loop for a video whose sidecar carries that
    timestamp (lines 229-238) appends the clip to the 24-05-09 group and
    leaves every other group, the one of 24-05-10 among them, as it
    was. *)
Theorem record_frame_before_midnight :
  parse_srt_for_timestamp sidecar_before_midnight
    = Ok (Some ts_2024_05_09_235959_500) /\
  compute_record_frame ts_2024_05_09_235959_500 30 = Ok 2591985 /\
  strftime_ymd ts_2024_05_09_235959_500 = str "24-05-09" /\
  forall (Handle World : Type)
         (ask : forall R : Type, call Handle R -> World -> R * World)
         (group_by_date : groups) (v srt : path) (w w1 : World)
         (t1 : list (event Handle)),
    find_srt_for_video Handle World ask v w = (Ok (Some srt), w1, t1) ->
    parse_srt_for_timestamp (fst (ask text (ReadText srt) w1))
      = Ok (Some ts_2024_05_09_235959_500) ->
    exists g,
      fst (fst (group_step Handle World ask group_by_date v w)) = Ok g /\
      lookup (str "24-05-09") g
      = Some (match lookup (str "24-05-09") group_by_date with
              | Some items => items
              | None => []
              end ++ [(v, srt, ts_2024_05_09_235959_500)]) /\
      forall k, k <> str "24-05-09" -> lookup k g = lookup k group_by_date.
Proof.
  split; [vm_compute; reflexivity|].
  split; [vm_compute; reflexivity|].
  split; [vm_compute; reflexivity|].
  intros Handle World ask group_by_date v srt w w1 t1 Ef Ep.
  unfold group_step.
  rewrite (bindM_ok Handle World _ _ _ _ _ _ Ef).
  erewrite bindM_ok by apply perform_run. cbn [fst snd].
  rewrite Ep.
  erewrite bindM_ok by apply lift_run. cbn [fst snd ret].
  change (strftime_ymd ts_2024_05_09_235959_500) with (str "24-05-09").
  eexists. split; [reflexivity|]. split.
  - rewrite lookup_setdefault_append, text_eqb_refl.
    destruct (lookup (str "24-05-09") group_by_date); reflexivity.
  - intros k Hk. rewrite lookup_setdefault_append.
    destruct (text_eqb (str "24-05-09") k) eqn:E; [|reflexivity].
    apply text_eqb_eq in E. congruence.
Qed.

(** The fourth part in the concrete environment, where the sidecar of
    early.mp4 carries that timestamp: the clip joins the 24-05-09 group
    and the 24-05-10 group keeps its one clip. *)
Lemma record_frame_before_midnight_witness :
  exists g,
    fst (fst (group_step nat unit demo_ask
                [(str "24-05-10",
                  [([str "CAM A"; str "late.mp4"], [str "CAM A"; str "late.srt"],
                    ts_2024_05_10_000030_000)])]
                [str "CAM A"; str "early.mp4"] tt)) = Ok g /\
    lookup (str "24-05-09") g
    = Some (match lookup (str "24-05-09")
                    [(str "24-05-10",
                      [([str "CAM A"; str "late.mp4"], [str "CAM A"; str "late.srt"],
                        ts_2024_05_10_000030_000)])] with
            | Some items => items
            | None => []
            end ++ [([str "CAM A"; str "early.mp4"], [str "CAM A"; str "early.srt"],
                     ts_2024_05_09_235959_500)]) /\
    forall k, k <> str "24-05-09" ->
      lookup k g
      = lookup k [(str "24-05-10",
                   [([str "CAM A"; str "late.mp4"], [str "CAM A"; str "late.srt"],
                     ts_2024_05_10_000030_000)])].
Proof.
  apply (proj2 (proj2 (proj2 record_frame_before_midnight)) nat unit demo_ask
           [(str "24-05-10",
             [([str "CAM A"; str "late.mp4"], [str "CAM A"; str "late.srt"],
               ts_2024_05_10_000030_000)])]
           [str "CAM A"; str "early.mp4"] [str "CAM A"; str "early.srt"] tt tt
           [Ev (PathExists [str "CAM A"; str "early.srt"]) true]).
  - vm_compute. reflexivity.
  - vm_compute. reflexivity.
Defined.

(** C2 as stated fails: the offset the code computes is neither 29985 nor
    29984. *)
Lemma record_frame_before_midnight_not_29985 :
  compute_record_frame ts_2024_05_09_235959_500 30 = Ok 2591985 /\
  2591985 <> 29985 /\ 2591985 <> 29984.
Proof. repeat apply conj; [vm_compute; reflexivity | discriminate | discriminate]. Qed.

(** ** Resolution reconciliation *)

Lemma digit_run_firstn s : forall j,
  (j <= digit_run s)%nat -> all_digits (firstn j s) /\ List.length (firstn j s) = j.
Proof.
  unfold all_digits.
  induction s as [|c s IH]; intros j Hj; simpl in *.
  - assert (j = O) by lia. subst. split; reflexivity.
  - destruct j as [|j]; [split; reflexivity|].
    destruct (is_digit c) eqn:Ec; [|lia].
    destruct (IH j ltac:(lia)) as [H1 H2]. simpl. rewrite Ec, H1, H2. split; reflexivity.
Qed.

Lemma try_counts_sound {R : Type} (cont : text -> option R) s lo : forall k d r,
  try_counts cont s lo k = Some (d, r) ->
  exists j, (lo <= j <= k)%nat /\ d = firstn j s /\ cont (skipn j s) = Some r.
Proof.
  induction k as [|k IH]; intros d r H; cbn [try_counts] in H.
  - destruct (Nat.ltb_spec 0 lo); [discriminate|].
    destruct (cont (skipn 0 s)) as [r'|] eqn:E; [|discriminate].
    inversion H; subst. exists O. split; [lia|]. split; [reflexivity | exact E].
  - destruct (Nat.ltb_spec (S k) lo); [discriminate|].
    destruct (cont (skipn (S k) s)) as [r'|] eqn:E.
    + inversion H; subst. exists (S k). split; [lia|]. split; [reflexivity | exact E].
    + destruct (IH _ _ H) as (j & Hj & Hd & Hc).
      exists j. split; [lia|]. split; assumption.
Qed.

Lemma match_items_captures p : forall s caps rest,
  match_items p s = Some (caps, rest) -> Forall all_digits caps.
Proof.
  induction p as [|[l | lo hi] p IH]; intros s caps rest H; simpl in H.
  - inversion H; subst. constructor.
  - destruct (strip_prefix l s) as [s'|]; [|discriminate]. eapply IH, H.
  - destruct (try_counts _ _ _ _) as [[d [caps' rest']]|] eqn:E; [|discriminate].
    inversion H; subst.
    apply try_counts_sound in E. destruct E as (j & Hj & -> & Hc).
    constructor; [|eapply IH, Hc].
    apply digit_run_firstn.
    destruct hi; lia.
Qed.


Lemma is_digit_code c : is_digit c = true -> 48 <= code c <= 57.
Proof. unfold is_digit. intros H. apply andb_prop in H. lia. Qed.

Lemma int_of_digits_nonneg d : all_digits d -> 0 <= int_of_digits d.
Proof.
  unfold int_of_digits, all_digits.
  assert (G : forall acc, 0 <= acc -> forallb is_digit d = true ->
              0 <= fold_left (fun a c => a * 10 + (code c - 48)) d acc).
  { induction d as [|c d IH]; intros acc Ha H; simpl in *; [assumption|].
    apply andb_prop in H. destruct H as [Hc Hd].
    apply is_digit_code in Hc. apply IH; [lia | assumption]. }
  apply G. lia.
Qed.






(** ** Export file names *)

Lemma is_forbidden_spec c : is_forbidden c = true <-> In c forbidden_chars.
Proof.
  unfold is_forbidden. rewrite existsb_exists. split.
  - intros (x & Hx & E). apply Ascii.eqb_eq in E. subst. exact Hx.
  - intros H. exists c. split; [exact H | apply Ascii.eqb_refl].
Qed.

(** C8, as amended.  [safe_filename] keeps the length of the name and
    replaces, position by position, each of the nine characters
    \ / : * ? (double quote) < > | by an underscore, leaving every other
    character as it is; so the plan named Shoot_CAM A*:1_24-05-10, in which
    two such characters are adjacent, is exported as
    Shoot_CAM A__1_24-05-10.xml, with two underscores. *)
Theorem safe_filename_replaces_each :
  forall name : text,
    List.length (safe_filename name) = List.length name /\
    (forall i c, nth_error name i = Some c ->
       nth_error (safe_filename name) i
         = Some (if is_forbidden c then "_"%char else c)) /\
    (forall c, is_forbidden c = true <->
       In c [ascii_of_nat 92; "/"; ":"; "*"; "?"; ascii_of_nat 34;
             "<"; ">"; "|"]%char) /\
    xml_name (str "Shoot_CAM A*:1_24-05-10") = str "Shoot_CAM A__1_24-05-10.xml".
Proof.
  intros name. unfold safe_filename. split; [apply length_map|].
  split; [|split].
  - intros i c H. rewrite nth_error_map, H. reflexivity.
  - intros c. apply is_forbidden_spec.
  - vm_compute. reflexivity.
Qed.

(** C8 as stated fails: the exported name of the plan
    Shoot_CAM A*:1_24-05-10 is not Shoot_CAM A_1_24-05-10.xml. *)
Lemma xml_name_two_underscores :
  xml_name (str "Shoot_CAM A*:1_24-05-10") = str "Shoot_CAM A__1_24-05-10.xml" /\
  xml_name (str "Shoot_CAM A*:1_24-05-10") <> str "Shoot_CAM A_1_24-05-10.xml".
Proof. split; [vm_compute; reflexivity | vm_compute; discriminate]. Qed.

(** ** Filesystem scanner *)

Lemma node_induction (P : node -> Prop) :
  (forall name, P (File name)) ->
  (forall name, P (Special name)) ->
  (forall name children, Forall P children -> P (Dir name children)) ->
  forall n, P n.
Proof.
  intros HF HS HD. fix IH 1. intros [name | name children | name].
  - apply HF.
  - apply HD. induction children as [|c cs IHcs]; constructor; [apply IH | exact IHcs].
  - apply HS.
Qed.

Lemma rglob_below_spec n : forall parent p b,
  In (p, b) (rglob_below parent n) <->
  exists q m, p = parent ++ node_name n :: q /\ below n q m /\ b = is_file m.
Proof.
  induction n as [name | name | name children IH] using node_induction;
    intros parent p b; simpl.
  - split; [intros [] | intros (q & m & _ & H & _); inversion H].
  - split; [intros [] | intros (q & m & _ & H & _); inversion H].
  - rewrite in_app_iff, in_map_iff, in_flat_map. split.
    + intros [(c & E & Hc) | (c & Hc & Hin)].
      * inversion E; subst. exists [node_name c], c.
        rewrite <- app_assoc. repeat split. constructor. exact Hc.
      * rewrite Forall_forall in IH. apply (IH c Hc) in Hin.
        destruct Hin as (q & m & -> & Hb & ->).
        exists (node_name c :: q), m. rewrite <- app_assoc.
        repeat split. apply below_deeper; assumption.
    + intros (q & m & -> & Hb & ->).
      inversion Hb as [? ? c' Hc' | ? ? c' q' m' Hc' Hb']; subst.
      * left. exists m. rewrite <- app_assoc. split; [reflexivity | assumption].
      * right. exists c'. split; [assumption|].
        rewrite Forall_forall in IH. apply (IH c'); [assumption|].
        exists q', m. rewrite <- app_assoc. repeat split. assumption.
Qed.

Lemma rglob_spec folder p b :
  In (p, b) (rglob folder) <-> exists m, below folder p m /\ b = is_file m.
Proof.
  destruct folder as [name | name children | name]; simpl.
  - split; [intros [] | intros (m & H & _); inversion H].
  - rewrite in_app_iff, in_map_iff, in_flat_map. split.
    + intros [(c & E & Hc) | (c & Hc & Hin)].
      * inversion E; subst. exists c. split; [constructor; exact Hc | reflexivity].
      * apply rglob_below_spec in Hin. destruct Hin as (q & m & -> & Hb & ->).
        exists m. split; [|reflexivity]. apply below_deeper; assumption.
    + intros (m & Hb & ->).
      inversion Hb as [? ? c' Hc' | ? ? c' q' m' Hc' Hb']; subst.
      * left. exists m. split; [reflexivity | assumption].
      * right. exists c'. split; [assumption|].
        apply rglob_below_spec. exists q', m. repeat split. assumption.
  - split; [intros [] | intros (m & H & _); inversion H].
Qed.

Lemma below_name n p m : below n p m -> path_name p = node_name m.
Proof.
  induction 1 as [name children c Hc | name children c p m Hc Hb IH].
  - reflexivity.
  - unfold path_name in *. destruct p as [|x p]; [inversion Hb|].
    exact IH.
Qed.

Lemma startswith_dot_underscore name :
  startswith (str "._") name = true -> startswith (str ".") name = true.
Proof.
  unfold startswith, str. cbn [list_ascii_of_string strip_prefix].
  destruct name as [|c name]; [discriminate|].
  destruct (Ascii.eqb "." c); [destruct name; reflexivity | discriminate].
Qed.

(** C10.  [scan_videos] returns exactly the paths of the regular files
    below the camera folder, at any depth, whose own name does not start
    with a dot and ends, letter case aside, in .mp4 or .mov.  Nothing is
    asked of the directories on the way, so a video inside a hidden
    directory is returned. *)
Theorem scan_videos_exact :
  forall (cam_folder : node) (p : path),
    In p (scan_videos cam_folder) <->
    exists name,
      below cam_folder p (File name) /\
      startswith (str ".") name = false /\
      (endswith (str ".mp4") (lower name) = true \/
       endswith (str ".mov") (lower name) = true).
Proof.
  intros cam_folder p. unfold scan_videos.
  rewrite in_map_iff. split.
  - intros ([p' b] & E & Hin). cbn [fst] in E. subst p'.
    apply filter_In in Hin. destruct Hin as [Hin Hk].
    apply rglob_spec in Hin. destruct Hin as (m & Hb & ->).
    unfold keep_video in Hk. cbn [fst snd] in Hk.
    rewrite (below_name _ _ _ Hb) in Hk.
    destruct (startswith (str "._") (node_name m) || startswith (str ".") (node_name m))
      eqn:Hh; [discriminate|].
    apply orb_false_iff in Hh. destruct Hh as [_ Hdot].
    apply andb_prop in Hk. destruct Hk as [Hf Hv].
    destruct m as [name | |]; try discriminate Hf.
    exists name. cbn [node_name] in *. split; [exact Hb|]. split; [exact Hdot|].
    unfold norm_ext in Hv.
    destruct (endswith (str ".mp4") (lower name)); [left; reflexivity|].
    destruct (endswith (str ".mov") (lower name)); [right; reflexivity|].
    cbn [orb] in Hv. destruct (endswith (str ".srt") (lower name)); discriminate.
  - intros (name & Hb & Hdot & Hext).
    exists (p, true). split; [reflexivity|].
    apply filter_In. split.
    + apply rglob_spec. exists (File name). split; [exact Hb | reflexivity].
    + unfold keep_video. cbn [fst snd]. rewrite (below_name _ _ _ Hb).
      cbn [node_name].
      destruct (startswith (str "._") name) eqn:H2.
      * apply startswith_dot_underscore in H2. congruence.
      * rewrite Hdot. cbn [orb andb]. unfold norm_ext.
        destruct Hext as [-> | ->]; [reflexivity|].
        rewrite orb_true_r. reflexivity.
Qed.

(** A video inside a hidden directory is found; a hidden video is not. *)
Example scan_videos_hidden_directory :
  scan_videos
    (Dir (str "CAM A")
       [Dir (str ".cache") [File (str "clip.MP4"); File (str ".clip.mp4")];
        File (str "._take.mov"); File (str "take.mov"); File (str "take.srt")])
  = [[str "take.mov"]; [str ".cache"; str "clip.MP4"]].
Proof. vm_compute. reflexivity. Qed.

(** ** Fatal configuration *)

Section FatalConfiguration.

Variable Handle World : Type.
Variable ask : forall R : Type, call Handle R -> World -> R * World.

Lemma succeeds_ret {A : Type} (a : A) : succeeds (Handle := Handle) (World := World) (ret a).
Proof. intros w. exists a. reflexivity. Qed.

Lemma succeeds_perform {R : Type} (c : call Handle R) : succeeds (perform ask c).
Proof. intros w. rewrite perform_run. eexists. reflexivity. Qed.

Lemma succeeds_bind {A B : Type} (m : M Handle World A) (k : A -> M Handle World B) :
  succeeds m -> (forall a, succeeds (k a)) -> succeeds (bindM m k).
Proof.
  intros Hm Hk w. destruct (Hm w) as [a Ha].
  destruct (m w) as [[r w1] t1] eqn:E. simpl in Ha. subst r.
  erewrite bindM_ok by exact E. simpl. apply Hk.
Qed.

Lemma succeeds_print_listing idx paths :
  succeeds (print_listing Handle World ask idx paths).
Proof.
  revert idx. induction paths as [|p paths IH]; intros idx; simpl.
  - apply succeeds_ret.
  - apply succeeds_bind; [apply succeeds_perform | intros _; apply IH].
Qed.

Lemma avoids_print_listing P idx paths :
  (forall m r, P (Ev (Handle := Handle) (Print m) r) = false) ->
  avoids P (print_listing Handle World ask idx paths).
Proof.
  intros HP. revert idx. induction paths as [|p paths IH]; intros idx; simpl.
  - apply avoids_ret.
  - apply avoids_bind; [apply avoids_perform, HP | intros _; apply IH].
Qed.

Ltac succeed_step :=
  first
    [ apply succeeds_ret
    | apply succeeds_perform
    | apply succeeds_print_listing
    | apply succeeds_bind; [| intros]
    | match goal with
      | |- succeeds (match ?x with _ => _ end) => destruct x
      | |- succeeds (if ?x then _ else _) => destruct x
      end ].

Lemma succeeds_list_cam_folders d : succeeds (list_cam_folders Handle World ask d).
Proof. unfold list_cam_folders. repeat succeed_step. Qed.

Lemma succeeds_select_indices n p : succeeds (select_indices Handle World ask n p).
Proof. unfold select_indices. repeat succeed_step. Qed.

Lemma succeeds_choose_date_folder d : succeeds (choose_date_folder Handle World ask d).
Proof.
  unfold choose_date_folder.
  repeat first [ apply succeeds_list_cam_folders | apply succeeds_select_indices
               | succeed_step ].
Qed.

Lemma quiet_choose_date_folder d :
  avoids host_call (choose_date_folder Handle World ask d).
Proof.
  unfold choose_date_folder, list_cam_folders, select_indices.
  repeat first [ apply avoids_print_listing; reflexivity | quiet_step ask ].
Qed.

Lemma quiet_select_indices n p :
  avoids host_call (select_indices Handle World ask n p).
Proof. unfold select_indices. quiet ask. Qed.

Lemma host_call_split (tr : list (event Handle)) :
  Forall (fun e => host_call e = false) tr ->
  Forall (fun e => changes_host e = false) tr /\
  Forall (fun e => asks_project e = false) tr.
Proof.
  induction 1 as [|e tr He _ [IH1 IH2]]; [split; constructor|].
  apply orb_false_iff in He. destruct He. split; constructor; assumption.
Qed.

Lemma no_project_query (tr : list (event Handle)) :
  Forall (fun e : event Handle => asks_project e = false) tr ->
  Exists (fun e => asks_project e = true) tr -> False.
Proof.
  intros F E. rewrite Exists_exists in E. rewrite Forall_forall in F.
  destruct E as (x & Hx & Hx'). rewrite (F x Hx) in Hx'. discriminate.
Qed.

Ltac all_events :=
  repeat first [ assumption
               | apply Forall_nil
               | apply Forall_cons; [reflexivity|]
               | apply Forall_app; split ].

Ltac units :=
  repeat match goal with
         | |- context [fst (ask unit ?c ?w)] => rewrite (unit_eta (fst (ask unit c w)))
         end.

Ltac step :=
  first [ erewrite bindM_ok by apply perform_run
        | erewrite bindM_ok by reflexivity ];
  cbn [fst snd].

(** The three fatal configuration conditions of [main], when the calls
    return.
    (1) The source path is missing or not a directory: the run ends
    normally after the path queries with the message, and those queries
    change neither files nor the host.  (2) The path is a directory and
    the frame rate is not positive: the run ends normally with the
    message, after having created the export folder (line 177 precedes
    the check of line 178).  (3) No host project is open: the run ends
    normally, changes nothing in the host, and if it gets as far as asking
    for the project, that query and the message are its last two events;
    the export folder has been created, and the folders listed and the
    operator prompted, before that. *)
Theorem main_fatal_configuration :
  forall (date_folder export_folder : path) (fps : Z) (w : World),
    let run := main Handle World ask date_folder export_folder fps w in
    let is_directory :=
      fst (ask bool (PathExists date_folder) w)
      && fst (ask bool (PathIsDir date_folder)
                (snd (ask bool (PathExists date_folder) w))) in
    (is_directory = false ->
       fst (fst run) = Ok tt /\
       exists queries,
         snd run = queries ++ [Ev (Print MsgNoDateFolder) tt] /\
         Forall (fun e => changes_host e = false /\ changes_files e = false) queries) /\
    (is_directory = true -> fps <= 0 ->
       fst (fst run) = Ok tt /\
       snd run = [Ev (PathExists date_folder) true; Ev (PathIsDir date_folder) true;
                  Ev (Mkdir export_folder) tt; Ev (Print MsgBadFrameRate) tt]) /\
    ((forall w0, fst (ask bool GetCurrentProject w0) = false) ->
       fst (fst run) = Ok tt /\
       Forall (fun e => changes_host e = false) (snd run) /\
       (Exists (fun e => asks_project e = true) (snd run) ->
        exists before,
          snd run = before ++ [Ev GetCurrentProject false; Ev (Print MsgNoProject) tt])).
Proof.
  intros date_folder export_folder fps w run is_directory.
  subst run is_directory. unfold main.
  step.
  destruct (ask bool (PathExists date_folder) w) as [e w1] eqn:Ee. cbn [fst snd].
  destruct e.
  - (* the path exists *)
    step.
    destruct (ask bool (PathIsDir date_folder) w1) as [d w2] eqn:Ed. cbn [fst snd].
    destruct d; cbn [andb negb].
    + (* ... and is a directory *)
      step. rewrite (unit_eta (fst (ask unit (Mkdir export_folder) w2))).
      set (w3 := snd (ask unit (Mkdir export_folder) w2)).
      destruct (Z.leb_spec fps 0) as [Hfps | Hfps].
      * rewrite perform_run. cbn [fst snd].
        rewrite (unit_eta (fst (ask unit (Print MsgBadFrameRate) w3))).
        split; [discriminate|]. split; [intros _ _; split; reflexivity|].
        intros _. split; [reflexivity|]. split.
        { all_events. }
        intros Hex. exfalso. revert Hex. apply no_project_query. all_events.
      * split; [discriminate|]. split; [intros _ ?; lia|].
        intros Hnone.
        pose proof (quiet_choose_date_folder date_folder w3) as Q3.
        destruct (succeeds_choose_date_folder date_folder w3) as [ch S3].
        destruct (choose_date_folder Handle World ask date_folder w3)
          as [[r3 w4] t3] eqn:E3.
        cbn [fst snd] in S3, Q3. subst r3.
        erewrite bindM_ok by exact E3. cbn [fst snd].
        apply host_call_split in Q3. destruct Q3 as [C3 A3].
        destruct ch as [[date_folder' cams]|].
        2:{ cbn [fst snd]. rewrite !app_nil_r.
            split; [reflexivity|]. split.
            - all_events.
            - intros Hex. exfalso. revert Hex. apply no_project_query. all_events. }
        pose proof (avoids_print_listing host_call 1 cams ltac:(reflexivity) w4) as Q4.
        destruct (succeeds_print_listing 1 cams w4) as [u4 S4].
        destruct (print_listing Handle World ask 1 cams w4) as [[r4 w5] t4] eqn:E4.
        cbn [fst snd] in S4, Q4. subst r4.
        erewrite bindM_ok by exact E4. cbn [fst snd].
        apply host_call_split in Q4. destruct Q4 as [C4 A4].
        pose proof (quiet_select_indices (Z.of_nat (List.length cams)) PromptCams w5) as Q5.
        destruct (succeeds_select_indices (Z.of_nat (List.length cams)) PromptCams w5)
          as [idxs S5].
        destruct (select_indices Handle World ask (Z.of_nat (List.length cams)) PromptCams w5)
          as [[r5 w6] t5] eqn:E5.
        cbn [fst snd] in S5, Q5. subst r5.
        erewrite bindM_ok by exact E5. cbn [fst snd].
        apply host_call_split in Q5. destruct Q5 as [C5 A5].
        destruct idxs as [|i idxs].
        { rewrite perform_run. cbn [fst snd].
          rewrite (unit_eta (fst (ask unit (Print MsgNoCamChosen) w6))).
          split; [reflexivity|]. split.
          - all_events.
          - intros Hex. exfalso. revert Hex. apply no_project_query. all_events. }
        step. step. step.
        match goal with |- context [ask bool GetCurrentProject ?wp] =>
          pose proof (Hnone wp) as Hp;
          destruct (ask bool GetCurrentProject wp) as [proj w7] eqn:Ep
        end.
        cbn [fst snd] in Hp |- *. subst proj. cbn [negb].
        rewrite perform_run. cbn [fst snd].
        rewrite (unit_eta (fst (ask unit (Print MsgNoProject) w7))).
        split; [reflexivity|]. split.
        { all_events. }
        intros _.
        match goal with
        | |- exists before, ?a ++ ?b ++ ?c ++ ?d ++ ?e ++ ?f ++ ?g ++ ?h ++ _ = _ =>
            exists (a ++ b ++ c ++ d ++ e ++ f ++ g ++ h)
        end.
        rewrite <- !app_assoc. reflexivity.
    + (* ... but is not a directory *)
      split.
      * intros _. rewrite perform_run. cbn [fst snd].
        rewrite (unit_eta (fst (ask unit (Print MsgNoDateFolder) w2))).
        split; [reflexivity|].
        exists [Ev (PathExists date_folder) true; Ev (PathIsDir date_folder) false].
        split; [reflexivity|]. repeat constructor.
      * split; [discriminate|]. intros _.
        rewrite perform_run. cbn [fst snd]. units.
        split; [reflexivity|]. split; [all_events|].
        intros Hex. exfalso. revert Hex. apply no_project_query. all_events.
  - (* the path does not exist *)
    step. cbn [andb negb].
    split.
    + intros _. rewrite perform_run. cbn [fst snd].
      rewrite (unit_eta (fst (ask unit (Print MsgNoDateFolder) w1))).
      split; [reflexivity|].
      exists [Ev (PathExists date_folder) false].
      split; [reflexivity|]. repeat constructor.
    + split; [discriminate|]. intros _.
      rewrite perform_run. cbn [fst snd]. units.
      split; [reflexivity|]. split; [all_events|].
      intros Hex. exfalso. revert Hex. apply no_project_query. all_events.
Qed.

End FatalConfiguration.

(** The theorem in the concrete environment, where no host project is
    open. *)
Lemma main_fatal_configuration_witness :
  fst (fst (main nat unit demo_ask [str "2024-05-09"] [str "out"] 30 tt)) = Ok tt /\
  Forall (fun e => changes_host e = false)
    (snd (main nat unit demo_ask [str "2024-05-09"] [str "out"] 30 tt)) /\
  (Exists (fun e => asks_project e = true)
     (snd (main nat unit demo_ask [str "2024-05-09"] [str "out"] 30 tt)) ->
   exists before,
     snd (main nat unit demo_ask [str "2024-05-09"] [str "out"] 30 tt)
     = before ++ [Ev GetCurrentProject false; Ev (Print MsgNoProject) tt]).
Proof.
  apply (proj2 (proj2 (main_fatal_configuration nat unit demo_ask
                         [str "2024-05-09"] [str "out"] 30 tt))).
  intros w0. reflexivity.
Defined.

(** C9.  The run does create filesystem state before it aborts: with a
    source directory and a frame rate of 0 the calls of the run are the
    two path queries, the [mkdir] of the export folder (line 177) and
    only then the message of line 179; and with a valid frame rate but no
    host project open, the run has made a call that changes files by the
    time it asks for the project and ends with the message of line
    213. *)
Lemma main_creates_export_folder_before_abort :
  snd (main nat unit demo_ask [str "2024-05-09"] [str "out"] 0 tt)
  = [Ev (PathExists [str "2024-05-09"]) true;
     Ev (PathIsDir [str "2024-05-09"]) true;
     Ev (Mkdir [str "out"]) tt;
     Ev (Print MsgBadFrameRate) tt] /\
  changes_files (Ev (Handle := nat) (Mkdir [str "out"]) tt) = true /\
  existsb changes_files
    (snd (main nat unit demo_ask [str "2024-05-09"] [str "out"] 30 tt)) = true /\
  existsb asks_project
    (snd (main nat unit demo_ask [str "2024-05-09"] [str "out"] 30 tt)) = true /\
  last (snd (main nat unit demo_ask [str "2024-05-09"] [str "out"] 30 tt))
       (Ev (Print MsgNoProject) tt)
  = Ev (Print MsgNoProject) tt.
Proof. repeat apply conj; vm_compute; reflexivity. Qed.


(** * Further properties of the code *)

(** ** Index selection (lines 56-70) *)

Section SelectIndices.

Variable Handle World : Type.
Variable ask : forall R : Type, call Handle R -> World -> R * World.

Lemma select_step_invariant count result token :
  Forall (fun i => 1 <= i <= count) result -> NoDup result ->
  Forall (fun i => 1 <= i <= count) (select_step count result token) /\
  NoDup (select_step count result token).
Proof.
  intros HF HN. unfold select_step.
  destruct token as [|c token]; [split; assumption|].
  destruct (int_of_token (c :: token)) as [i|]; [|split; assumption].
  destruct ((1 <=? i) && (i <=? count)) eqn:Hr; [|split; assumption].
  destruct (existsb (Z.eqb i) result) eqn:He; [split; assumption|].
  apply andb_prop in Hr. destruct Hr as [H1 H2].
  apply Z.leb_le in H1, H2. split.
  - apply Forall_app. split; [assumption | constructor; [lia | constructor]].
  - apply NoDup_app; [assumption | repeat constructor; intros [] |].
    intros a Ha [<- | []].
    assert (existsb (Z.eqb i) result = true).
    { apply existsb_exists. exists i. split; [assumption | apply Z.eqb_refl]. }
    congruence.
Qed.

Lemma select_fold_invariant count tokens : forall result,
  Forall (fun i => 1 <= i <= count) result -> NoDup result ->
  Forall (fun i => 1 <= i <= count) (fold_left (select_step count) tokens result) /\
  NoDup (fold_left (select_step count) tokens result).
Proof.
  induction tokens as [|t tokens IH]; intros result HF HN; simpl.
  - split; assumption.
  - destruct (select_step_invariant count result t HF HN). apply IH; assumption.
Qed.

Lemma int_of_token_nil : int_of_token [] = None.
Proof. reflexivity. Qed.

Lemma select_step_in count result token i :
  In i (select_step count result token) <->
  In i result \/ (1 <= i <= count /\ int_of_token token = Some i).
Proof.
  unfold select_step. destruct token as [|c token].
  { rewrite int_of_token_nil. split; [intros H; left; exact H|].
    intros [H | [_ H]]; [exact H | discriminate H]. }
  destruct (int_of_token (c :: token)) as [j|].
  2:{ split; [intros H; left; exact H|].
      intros [H | [_ H]]; [exact H | discriminate H]. }
  destruct ((1 <=? j) && (j <=? count)) eqn:Hr.
  - apply andb_prop in Hr. destruct Hr as [H1 H2]. apply Z.leb_le in H1, H2.
    destruct (existsb (Z.eqb j) result) eqn:He.
    + apply existsb_exists in He. destruct He as (x & Hx & Exj).
      apply Z.eqb_eq in Exj. subst x.
      split; [intros H; left; exact H|].
      intros [H | [_ H]]; [exact H|]. inversion H; subst. exact Hx.
    + rewrite in_app_iff. cbn [In]. split.
      * intros [H | [<- | []]]; [left; exact H|]. right. split; [lia | reflexivity].
      * intros [H | [_ H]]; [left; exact H|]. inversion H. right. left. reflexivity.
  - split; [intros H; left; exact H|].
    intros [H | [Hi H]]; [exact H|]. inversion H; subst j. exfalso.
    apply andb_false_iff in Hr. destruct Hr as [Hr | Hr]; apply Z.leb_gt in Hr; lia.
Qed.

Lemma select_fold_in count i tokens : forall result,
  In i (fold_left (select_step count) tokens result) <->
  In i result \/
  (1 <= i <= count /\ exists token, In token tokens /\ int_of_token token = Some i).
Proof.
  induction tokens as [|t tokens IH]; intros result; cbn [fold_left].
  - split; [intros H; left; exact H|].
    intros [H | (_ & token & [] & _)]. exact H.
  - rewrite IH, select_step_in. split.
    + intros [[H | [Hi H]] | (Hi & token & Hin & H)].
      * left. exact H.
      * right. split; [exact Hi|]. exists t. split; [left; reflexivity | exact H].
      * right. split; [exact Hi|]. exists token. split; [right; exact Hin | exact H].
    + intros [H | (Hi & token & [<- | Hin] & H)].
      * left. left. exact H.
      * left. right. split; assumption.
      * right. split; [exact Hi|]. exists token. split; assumption.
Qed.

(** X1.  What [_select_indices] returns when [input] returns, whatever
    the operator types in characters of code points 0..255: every index
    lies in 1..count and none is returned twice, so for a
    list of [count] elements every returned index designates an element
    ([cams[i - 1]] at line 207 and [subdirs[i - 1]] at line 195 cannot be
    out of range); and the indices returned are exactly the values in
    1..count of the pieces of the stripped input that [int] accepts. *)
Theorem select_indices_in_range_distinct
    (count : Z) (p : prompt) (w : World) (idxs : list Z) :
  fst (fst (select_indices Handle World ask count p w)) = Ok idxs ->
  Forall (fun i => 1 <= i <= count) idxs /\
  NoDup idxs /\
  (forall i,
     In i idxs <->
     1 <= i <= count /\
     exists token,
       In token (split_tokens (strip (fst (ask text (Input p) w))) []) /\
       int_of_token token = Some i) /\
  forall (A : Type) (l : list A),
    Z.of_nat (List.length l) = count ->
    Forall (fun i => exists a, index_list l i = Some a) idxs.
Proof.
  unfold select_indices.
  erewrite bindM_ok by apply perform_run. cbn [fst snd].
  set (sel := strip (fst (ask text (Input p) w))).
  assert (G : (match sel with
               | [] => @ret Handle World (list Z) []
               | _ :: _ => ret (fold_left (select_step count) (split_tokens sel []) [])
               end) (snd (ask text (Input p) w))
              = (Ok (fold_left (select_step count) (split_tokens sel []) []),
                 snd (ask text (Input p) w), [])).
  { destruct sel as [|c sel]; reflexivity. }
  rewrite G. cbn [fst snd]. intros E. inversion E as [E']. clear E G.
  destruct (select_fold_invariant count (split_tokens sel []) [] (Forall_nil _)
              (NoDup_nil _)) as [HF HN].
  split; [exact HF|]. split; [exact HN|]. split.
  - intros i. rewrite select_fold_in. cbn [In]. tauto.
  - intros A l Hl. eapply Forall_impl; [|exact HF].
    intros i Hi. cbv beta in Hi. unfold index_list.
    destruct (nth_error l (Z.to_nat (i - 1))) as [a|] eqn:En; [exists a; reflexivity|].
    apply nth_error_None in En. lia.
Qed.

End SelectIndices.

(** X1 in the concrete environment, where the operator types "1" at a
    listing of one entry. *)
Lemma select_indices_in_range_distinct_witness :
  Forall (fun i => 1 <= i <= 1) [1] /\
  NoDup [1] /\
  (forall i,
     In i [1] <->
     1 <= i <= 1 /\
     exists token,
       In token (split_tokens (strip (fst (demo_ask text (Input PromptCams) tt))) []) /\
       int_of_token token = Some i) /\
  forall (A : Type) (l : list A),
    Z.of_nat (List.length l) = 1 ->
    Forall (fun i => exists a, index_list l i = Some a) [1].
Proof.
  apply (select_indices_in_range_distinct nat unit demo_ask 1 PromptCams tt [1]).
  vm_compute. reflexivity.
Defined.

(** ** Export file names (lines 159-160) *)

Lemma underscore_not_forbidden : is_forbidden "_" = false.
Proof. reflexivity. Qed.

(** X2.  The result of [safe_filename], and the exported file name built
    from it, contain none of the nine characters the substitution
    replaces; sanitizing twice is sanitizing once; and a name without
    such characters is returned unchanged. *)
Theorem safe_filename_clean_idempotent (name : text) :
  Forall (fun c => is_forbidden c = false) (safe_filename name) /\
  Forall (fun c => is_forbidden c = false) (xml_name name) /\
  safe_filename (safe_filename name) = safe_filename name /\
  (Forall (fun c => is_forbidden c = false) name -> safe_filename name = name).
Proof.
  assert (C : Forall (fun c => is_forbidden c = false) (safe_filename name)).
  { unfold safe_filename. apply Forall_forall. intros c Hc.
    apply in_map_iff in Hc. destruct Hc as (x & <- & _).
    destruct (is_forbidden x) eqn:E; [reflexivity | exact E]. }
  assert (K : forall n, Forall (fun c => is_forbidden c = false) n ->
                        safe_filename n = n).
  { intros n. induction 1 as [|c l Hc _ IH]; [reflexivity|].
    unfold safe_filename in *. cbn [map]. rewrite Hc, IH. reflexivity. }
  split; [exact C|]. split; [|split].
  - unfold xml_name. apply Forall_app. split; [exact C|].
    repeat constructor.
  - apply K, C.
  - apply K.
Qed.

(** ** Regular expressions and timestamp extraction (lines 21-26) *)

Lemma strip_prefix_sound l : forall s s', strip_prefix l s = Some s' -> s = l ++ s'.
Proof.
  induction l as [|a l IH]; intros s s' H; simpl in H.
  - inversion H. reflexivity.
  - destruct s as [|b s]; [discriminate|].
    destruct (Ascii.eqb_spec a b) as [-> | _]; [|discriminate].
    simpl. f_equal. apply IH, H.
Qed.

Lemma strip_prefix_app l : forall s, strip_prefix l (l ++ s) = Some s.
Proof.
  induction l as [|a l IH]; intros s; simpl; [reflexivity|].
  rewrite Ascii.eqb_refl. apply IH.
Qed.

Lemma digit_run_app d s : all_digits d -> (List.length d <= digit_run (d ++ s))%nat.
Proof.
  unfold all_digits. induction d as [|c d IH]; simpl; intros H; [lia|].
  apply andb_prop in H. destruct H as [Hc Hd]. rewrite Hc. specialize (IH Hd). lia.
Qed.

Lemma firstn_app_length {A : Type} (a b : list A) : firstn (List.length a) (a ++ b) = a.
Proof. induction a as [|x a IH]; simpl; [destruct b; reflexivity | f_equal; exact IH]. Qed.

Lemma skipn_app_length {A : Type} (a b : list A) : skipn (List.length a) (a ++ b) = b.
Proof. induction a as [|x a IH]; simpl; [reflexivity | exact IH]. Qed.

(** What a match is: the text before the rest is the pattern's literals
    with one digit group per repetition. *)
Lemma match_items_sound p : forall s caps rest,
  match_items p s = Some (caps, rest) ->
  s = render p caps ++ rest /\ fits p caps.
Proof.
  induction p as [|[l | lo hi] p IH]; intros s caps rest H; simpl in H.
  - inversion H; subst. split; reflexivity.
  - destruct (strip_prefix l s) as [s'|] eqn:E; [|discriminate].
    apply strip_prefix_sound in E. subst s.
    destruct (IH _ _ _ H) as [-> F]. simpl. rewrite <- app_assoc. split; [reflexivity | exact F].
  - destruct (try_counts _ _ _ _) as [[d [caps' rest']]|] eqn:E; [|discriminate].
    inversion H; subst. clear H.
    apply try_counts_sound in E. destruct E as (j & Hj & -> & Hc).
    destruct (IH _ _ _ Hc) as [Es F].
    assert (Hjr : (j <= digit_run s)%nat) by (destruct hi; lia).
    destruct (digit_run_firstn s j Hjr) as [Hd Hlen].
    split.
    + simpl. rewrite <- app_assoc, <- Es. symmetry. apply firstn_skipn.
    + simpl. rewrite Hlen. repeat split; try assumption; try lia.
      destruct hi; [lia | exact I].
Qed.

(** A pattern of fixed-count repetitions matches its own rendering,
    whatever follows. *)
Lemma match_items_complete p : forall caps rest,
  fixed_width p = true -> fits p caps ->
  match_items p (render p caps ++ rest) = Some (caps, rest).
Proof.
  induction p as [|[l | lo hi] p IH]; intros caps rest W F; simpl in *.
  - subst. reflexivity.
  - rewrite <- app_assoc, strip_prefix_app. apply IH; assumption.
  - destruct hi as [h|]; [|discriminate].
    apply andb_prop in W. destruct W as [Wn W]. apply Nat.eqb_eq in Wn. subst h.
    destruct caps as [|d caps]; [destruct F|].
    destruct F as (Hd & H1 & H2 & F).
    assert (Hlen : List.length d = lo) by lia.
    rewrite <- app_assoc.
    pose proof (digit_run_app d (render p caps ++ rest) Hd) as Hrun.
    rewrite Nat.min_l by lia.
    destruct lo as [|lo'].
    + destruct d; [|discriminate]. cbn [try_counts Nat.ltb Nat.leb skipn firstn app].
      rewrite (IH _ _ W F). reflexivity.
    + cbn [try_counts]. rewrite Nat.ltb_irrefl.
      rewrite <- Hlen, skipn_app_length, (IH _ _ W F), firstn_app_length.
      reflexivity.
Qed.

Lemma matched_text_render (body rest : text) : matched_text (body ++ rest) rest = body.
Proof.
  unfold matched_text. rewrite length_app, Nat.add_sub. apply firstn_app_length.
Qed.

Lemma match_here p s caps rest :
  match_items p s = Some (caps, rest) ->
  s = matched_text s rest ++ rest /\
  match_items p (matched_text s rest ++ rest) = Some (caps, rest).
Proof.
  intros E. destruct (match_items_sound _ _ _ _ E) as [Es _]. subst s.
  rewrite matched_text_render. split; [reflexivity | exact E].
Qed.

(** [search] returns the match at the first position that has one. *)
Lemma search_sound p : forall s w caps,
  search p s = Some (w, caps) ->
  exists pre rest,
    s = pre ++ w ++ rest /\
    match_items p (w ++ rest) = Some (caps, rest) /\
    forall k, (k < List.length pre)%nat -> match_items p (skipn k s) = None.
Proof.
  induction s as [|c s IH]; intros w caps H; simpl in H.
  - destruct (match_items p []) as [[caps' rest]|] eqn:E; [|discriminate].
    inversion H; subst. clear H.
    destruct (match_here _ _ _ _ E) as [Es Em].
    exists [], rest. split; [exact Es|]. split; [exact Em|].
    intros k Hk. simpl in Hk. lia.
  - destruct (match_items p (c :: s)) as [[caps' rest]|] eqn:E.
    + inversion H; subst. clear H.
      destruct (match_here _ _ _ _ E) as [Es Em].
      exists [], rest. split; [exact Es|]. split; [exact Em|].
      intros k Hk. simpl in Hk. lia.
    + destruct (IH _ _ H) as (pre & rest & -> & Hm & Hleft).
      exists (c :: pre), rest. split; [reflexivity|]. split; [exact Hm|].
      intros [|k] Hk; [exact E|]. simpl in Hk |- *. apply Hleft. lia.
Qed.

Lemma search_none p : forall s,
  search p s = None <->
  forall k, (k <= List.length s)%nat -> match_items p (skipn k s) = None.
Proof.
  induction s as [|c s IH]; simpl.
  - destruct (match_items p []) as [[caps rest]|] eqn:E.
    + split; [discriminate|]. intros H. specialize (H O (Nat.le_refl _)).
      simpl in H. congruence.
    + split; [|reflexivity]. intros _ k Hk. destruct k; [exact E | lia].
  - destruct (match_items p (c :: s)) as [[caps rest]|] eqn:E.
    + split; [discriminate|]. intros H. specialize (H O ltac:(lia)).
      simpl in H. congruence.
    + rewrite IH. split.
      * intros H [|k] Hk; [exact E | apply H; lia].
      * intros H k Hk. apply (H (S k)). lia.
Qed.

(** X3.  What [parse_srt_for_timestamp] returns on a text whose
    characters are code points 0..255, where the class [\d] is exactly
    the ten ASCII digits.  Either the pattern
    matches nowhere in the text and the result is [None]; or the text is
    [pre ++ YYYY-MM-DD HH:MM:SS.mmm ++ post] with seven groups of 4, 2,
    2, 2, 2, 2 and 3 decimal digits, no match starts inside [pre], and
    the result is the datetime with those fields (the three digits after
    the dot counted as milliseconds) when that is a valid date and time,
    ValueError otherwise. *)
Theorem parse_srt_for_timestamp_leftmost content :
  (parse_srt_for_timestamp content = Ok None /\
   forall k, (k <= List.length content)%nat ->
             match_items timestamp_pattern (skipn k content) = None) \/
  exists pre y mo d h mi s f post,
    content = pre ++ (y ++ str "-" ++ mo ++ str "-" ++ d ++ str " " ++ h
                        ++ str ":" ++ mi ++ str ":" ++ s ++ str "." ++ f) ++ post /\
    Forall all_digits [y; mo; d; h; mi; s; f] /\
    map (@List.length ascii) [y; mo; d; h; mi; s; f] = [4; 2; 2; 2; 2; 2; 3]%nat /\
    (forall k, (k < List.length pre)%nat ->
               match_items timestamp_pattern (skipn k content) = None) /\
    parse_srt_for_timestamp content
    = let t := {| year := int_of_digits y; month := int_of_digits mo;
                  day := int_of_digits d; hour := int_of_digits h;
                  minute := int_of_digits mi; second := int_of_digits s;
                  microsecond := int_of_digits f * 1000 |} in
      if valid_datetime t then Ok (Some t) else Raise ValueError.
Proof.
  unfold parse_srt_for_timestamp.
  destruct (search timestamp_pattern content) as [[w caps]|] eqn:E.
  - right. apply search_sound in E.
    destruct E as (pre & rest & -> & Hm & Hleft).
    destruct (match_items_sound _ _ _ _ Hm) as [Es F].
    apply app_inv_tail in Es. subst w.
    pose proof (match_items_complete timestamp_pattern caps [] eq_refl F) as C.
    rewrite app_nil_r in C.
    destruct caps as [|y [|mo [|d [|h [|mi [|s [|f [|x caps]]]]]]]];
      cbn in F; try tauto; try (decompose [and] F; discriminate).
    destruct F as (Hy & Ly & Uy & Hmo & Lmo & Umo & Hd & Ld & Ud & Hh & Lh & Uh
                   & Hmi & Lmi & Umi & Hs & Ls & Us & Hf & Lf & Uf & _).
    exists pre, y, mo, d, h, mi, s, f, rest.
    split.
    { cbn [render timestamp_pattern]. rewrite ?app_nil_r, <- ?app_assoc. reflexivity. }
    split; [repeat constructor; assumption|].
    split.
    { cbn [map]. repeat f_equal; lia. }
    split; [exact Hleft|].
    unfold strptime. rewrite C. cbv zeta.
    destruct (valid_datetime _); reflexivity.
  - left. split; [reflexivity|]. apply search_none, E.
Qed.

(** ** Accuracy of the float computations (lines 29-45) *)

(** Relative error of rounding to 53 bits: half an ulp, at most
    [2^-53] of the exact value, for values in the normal range. *)
Lemma round_ulps_error n d :
  0 < d -> 2 ^ 53 * d <= n ->
  2 ^ 53 * (round_ulps n d * d - n) <= n /\
  2 ^ 53 * (n - round_ulps n d * d) <= n.
Proof.
  intros Hd Hn. unfold round_ulps.
  assert (Hq : 2 ^ 53 <= n / d) by (apply Z.div_le_lower_bound; lia).
  set (q := n / d) in *.
  assert (Hq0 : 0 < q) by (assert (0 < 2 ^ 53) by reflexivity; lia).
  assert (Hl : 53 <= Z.log2 q).
  { change 53 with (Z.log2 (2 ^ 53)). apply Z.log2_le_mono. exact Hq. }
  unfold prec. rewrite Z.max_r by lia.
  set (t := Z.log2 q - (53 - 1)).
  assert (Ht : 1 <= t) by (subst t; lia).
  assert (Pt : 0 < 2 ^ t) by (apply Z.pow_pos_nonneg; lia).
  assert (E : 2 ^ t * 2 ^ 52 <= q).
  { rewrite <- Z.pow_add_r by lia. replace (t + 52) with (Z.log2 q) by (subst t; lia).
    apply Z.log2_spec. exact Hq0. }
  assert (Hdq : d * q <= n) by (subst q; apply Z.mul_div_le; exact Hd).
  assert (HD : 0 < d * 2 ^ t) by nia.
  destruct (round_half_even_bounds n (d * 2 ^ t) HD) as (B & _). cbv zeta in B.
  set (r := round_half_even n (d * 2 ^ t)) in *.
  assert (K : (d * 2 ^ t) * 2 ^ 52 <= n).
  { rewrite <- Z.mul_assoc. etransitivity; [|exact Hdq].
    apply Z.mul_le_mono_nonneg_l; lia. }
  replace (r * 2 ^ t * d) with (d * 2 ^ t * r) by ring.
  change (2 ^ 53) with (2 * 2 ^ 52). change (2 ^ 52) with 4503599627370496 in *.
  lia.
Qed.

Lemma round_ulps_zero d : 0 < d -> round_ulps 0 d = 0.
Proof.
  intros Hd. unfold round_ulps. rewrite Z.div_0_l by lia.
  cbn [Z.log2 Z.max prec]. change (Z.max 0 (0 - (53 - 1))) with 0.
  rewrite Z.mul_1_r. change (2 ^ 0) with 1. rewrite Z.mul_1_r.
  apply (round_half_even_exact 0 d Hd).
Qed.

Lemma round_ulps_int k : 0 <= k < 2 ^ 53 -> round_ulps (k * one_ulps) 1 = k * one_ulps.
Proof.
  intros [H0 H1]. unfold round_ulps. rewrite Z.div_1_r, Z.mul_1_l.
  destruct (Z.eq_dec k 0) as [-> | Hk].
  { reflexivity. }
  assert (Hl : Z.log2 (k * one_ulps) = Z.log2 k + 1074).
  { unfold one_ulps, ulp_exp. rewrite <- Z.shiftl_mul_pow2 by lia.
    apply Z.log2_shiftl; lia. }
  rewrite Hl. unfold prec.
  assert (L0 : 0 <= Z.log2 k) by apply Z.log2_nonneg.
  assert (L1 : Z.log2 k < 53) by (apply Z.log2_lt_pow2; lia).
  rewrite Z.max_r by lia.
  set (t := Z.log2 k + 1074 - (53 - 1)).
  assert (Ht : 0 <= t <= 1074) by (subst t; lia).
  assert (Pt : 0 < 2 ^ t) by (apply Z.pow_pos_nonneg; lia).
  assert (E : one_ulps = 2 ^ (1074 - t) * 2 ^ t).
  { unfold one_ulps, ulp_exp. rewrite <- Z.pow_add_r by lia. f_equal. lia. }
  rewrite E at 1. rewrite Z.mul_assoc, round_half_even_exact by lia.
  rewrite <- Z.mul_assoc, <- E. reflexivity.
Qed.

Lemma half_frame_arith (U us fps s p r : Z) :
  0 < U -> 1 <= us < 86400 * 1000000 -> 1 <= fps <= 16384 ->
  2 ^ 53 * (s * 1000000 - us * U) <= us * U ->
  2 ^ 53 * (us * U - s * 1000000) <= us * U ->
  2 ^ 53 * (p - s * fps) <= s * fps ->
  2 ^ 53 * (s * fps - p) <= s * fps ->
  2 * U * r - U <= 2 * p <= 2 * U * r + U ->
  2 * Z.abs (r * 1000000 - us * fps) <= 1000000.
Proof.
  intros HU Hus Hfps A1 A2 B1 B2 R.
  change (2 ^ 53) with 9007199254740992 in *.
  set (P := 9007199254740992) in *.
  assert (HP : 0 < P) by reflexivity.
  (* (3) *)
  assert (S3 : P * (s * 1000000) <= (P + 1) * (us * U)) by lia.
  assert (S0 : 0 <= s).
  { assert (0 <= P * (s * 1000000)) by nia. nia. }
  set (W := 1000000 * p - us * fps * U).
  (* upper *)
  assert (W1 : P * P * W <= fps * us * U * (2 * P + 1)).
  { assert (X1 : P * (P * (p - s * fps)) * 1000000 <= P * (s * fps) * 1000000).
    { apply Z.mul_le_mono_nonneg_r; [lia|]. apply Z.mul_le_mono_nonneg_l; lia. }
    assert (X2 : P * (s * 1000000) * fps <= (P + 1) * (us * U) * fps)
      by (apply Z.mul_le_mono_nonneg_r; lia).
    assert (X3 : P * (P * (s * 1000000 - us * U)) * fps <= P * (us * U) * fps).
    { apply Z.mul_le_mono_nonneg_r; [lia|]. apply Z.mul_le_mono_nonneg_l; lia. }
    subst W. lia. }
  assert (W2 : - (fps * us * U * (2 * P + 1)) <= P * P * W).
  { assert (X1 : P * (P * (s * fps - p)) * 1000000 <= P * (s * fps) * 1000000).
    { apply Z.mul_le_mono_nonneg_r; [lia|]. apply Z.mul_le_mono_nonneg_l; lia. }
    assert (X2 : P * (s * 1000000) * fps <= (P + 1) * (us * U) * fps)
      by (apply Z.mul_le_mono_nonneg_r; lia).
    assert (X3 : P * (P * (us * U - s * 1000000)) * fps <= P * (us * U) * fps).
    { apply Z.mul_le_mono_nonneg_r; [lia|]. apply Z.mul_le_mono_nonneg_l; lia. }
    subst W. lia. }
  assert (K : fps * us <= 16384 * (86400 * 1000000)).
  { apply Z.mul_le_mono_nonneg; lia. }
  assert (K2 : fps * us * U * (2 * P + 1) <= 16384 * (86400 * 1000000) * U * (2 * P + 1)).
  { apply Z.mul_le_mono_nonneg_r; [lia|]. apply Z.mul_le_mono_nonneg_r; lia. }
  assert (N : 2 * (16384 * (86400 * 1000000) * (2 * P + 1)) < P * P) by reflexivity.
  assert (W3 : 2 * W < U /\ - U < 2 * W).
  { assert (Y : 2 * (16384 * (86400 * 1000000) * U * (2 * P + 1)) < P * P * U).
    { replace (2 * (16384 * (86400 * 1000000) * U * (2 * P + 1)))
        with (2 * (16384 * (86400 * 1000000) * (2 * P + 1)) * U) by ring.
      apply Z.mul_lt_mono_pos_r; assumption. }
    assert (PP : 0 < P * P) by reflexivity.
    split.
    - apply (Z.mul_lt_mono_pos_l (P * P)); [exact PP|]. lia.
    - apply (Z.mul_lt_mono_pos_l (P * P)); [exact PP|]. lia. }
  destruct W3 as [W3 W4]. subst W.
  assert (G1 : 2 * (r * 1000000 - us * fps) <= 1000000).
  { destruct (Z_le_gt_dec (2 * (r * 1000000 - us * fps)) 1000000) as [|Hgt]; [assumption|].
    exfalso.
    assert (T1 : (2 * us * fps + 1000000 + 1) * U <= (2 * r * 1000000) * U)
      by (apply Z.mul_le_mono_nonneg_r; lia).
    assert (T2 : (2 * U * r - U) * 1000000 <= (2 * p) * 1000000)
      by (apply Z.mul_le_mono_nonneg_r; lia).
    lia. }
  assert (G2 : - 1000000 <= 2 * (r * 1000000 - us * fps)).
  { destruct (Z_le_gt_dec (- 1000000) (2 * (r * 1000000 - us * fps))) as [|Hgt]; [assumption|].
    exfalso.
    assert (T1 : (2 * r * 1000000) * U <= (2 * us * fps - 1000000 - 1) * U)
      by (apply Z.mul_le_mono_nonneg_r; lia).
    assert (T2 : (2 * p) * 1000000 <= (2 * U * r + U) * 1000000)
      by (apply Z.mul_le_mono_nonneg_r; lia).
    lia. }
  lia.
Qed.

(** X4.  For a valid timestamp and a frame rate from 1 to 16384,
    [compute_record_frame] returns an integer nearest to the exact
    product of the seconds since midnight and the frame rate: the result
    differs from [time_of_day_us * fps / 10^6] by at most half a frame,
    the two roundings to binary64 notwithstanding. *)
Theorem compute_record_frame_nearest (t : datetime) (fps : Z) :
  valid_datetime t = true -> 0 < fps <= 16384 ->
  exists r,
    compute_record_frame t fps = Ok r /\
    2 * Z.abs (r * 1000000 - time_of_day_us t * fps) <= 1000000.
Proof.
  intros Hv Hf.
  assert (Hb : 0 < fps < fps_bound).
  { split; [lia|]. apply Z.le_lt_trans with 16384; [lia | reflexivity]. }
  rewrite (compute_record_frame_closed_form t fps Hv Hb).
  eexists. split; [reflexivity|].
  pose proof (time_of_day_us_bounds t Hv) as Hus.
  pose proof one_ulps_pos as HU.
  unfold product_ulps.
  rewrite (round_ulps_int fps)
    by (split; [lia | apply Z.le_lt_trans with 16384; [lia | reflexivity]]).
  unfold seconds_ulps.
  set (us := time_of_day_us t) in *.
  destruct (Z.eq_dec us 0) as [E0 | N0].
  - rewrite E0. cbn [Z.mul]. rewrite (round_ulps_zero 1000000) by lia.
    cbn [Z.mul]. rewrite (round_ulps_zero one_ulps HU).
    pose proof (round_half_even_exact 0 one_ulps HU) as Z0.
    change (round_half_even 0 one_ulps = 0) in Z0. rewrite Z0. cbn. lia.
  - assert (Big : 2 ^ 53 * 2 ^ 53 * 1000000 <= one_ulps) by (intro H; vm_compute in H; discriminate).
    set (s := round_ulps (us * one_ulps) 1000000).
    assert (A : 2 ^ 53 * (s * 1000000 - us * one_ulps) <= us * one_ulps /\
                2 ^ 53 * (us * one_ulps - s * 1000000) <= us * one_ulps).
    { apply round_ulps_error; [lia|]. change (2 ^ 53) with 9007199254740992 in *. nia. }
    destruct A as [A1 A2].
    assert (Hs : 2 ^ 53 <= s).
    { change (2 ^ 53) with 9007199254740992 in *. nia. }
    set (p := round_ulps (s * (fps * one_ulps)) one_ulps).
    assert (B : 2 ^ 53 * (p * one_ulps - s * (fps * one_ulps)) <= s * (fps * one_ulps) /\
                2 ^ 53 * (s * (fps * one_ulps) - p * one_ulps) <= s * (fps * one_ulps)).
    { apply round_ulps_error; [lia|].
      replace (s * (fps * one_ulps)) with ((s * fps) * one_ulps) by ring.
      apply Z.mul_le_mono_nonneg_r; [lia|].
      transitivity (s * 1); [lia|]. apply Z.mul_le_mono_nonneg_l; lia. }
    destruct B as [B1 B2].
    destruct (round_half_even_bounds p one_ulps HU) as (R & _). cbv zeta in R.
    apply (half_frame_arith one_ulps us fps s p); try lia.
    + apply (Z.mul_le_mono_pos_r _ _ one_ulps HU). lia.
    + apply (Z.mul_le_mono_pos_r _ _ one_ulps HU). lia.
Qed.

(** X4 at half a second before midnight, 30 frames per second. *)
Lemma compute_record_frame_nearest_witness :
  exists r,
    compute_record_frame ts_2024_05_09_235959_500 30 = Ok r /\
    2 * Z.abs (r * 1000000 - time_of_day_us ts_2024_05_09_235959_500 * 30)
      <= 1000000.
Proof.
  apply (compute_record_frame_nearest ts_2024_05_09_235959_500 30);
    [reflexivity | lia].
Defined.

Lemma duration_arith (U T F A q : Z) :
  0 < U -> 1 <= T -> 1 <= F -> T * F <= 2 ^ 50 -> 0 <= q ->
  2 ^ 53 * (A * (F * U) - 1000 * U * U) <= 1000 * U * U ->
  2 ^ 53 * (1000 * U * U - A * (F * U)) <= 1000 * U * U ->
  2 ^ 53 * (q * A - T * U * U) <= T * U * U ->
  2 ^ 53 * (T * U * U - q * A) <= T * U * U ->
  (T * F / 1000 - 1) * U <= q < (T * F / 1000 + 1) * U /\
  ((T * F) mod 1000 <> 0 -> (T * F / 1000) * U <= q).
Proof.
  intros HU HT HF HN Hq E1a E1b E2a E2b.
  change (2 ^ 53) with 9007199254740992 in *.
  change (2 ^ 50) with 1125899906842624 in *.
  set (P := 9007199254740992) in *.
  assert (HP : 0 < P) by reflexivity.
  (* the rounding of frame_ms *)
  assert (H1 : (P - 1) * 1000 * U <= P * (A * F)).
  { apply (Z.mul_le_mono_pos_r _ _ U HU).
    replace (P * (A * F) * U) with (P * (A * (F * U))) by ring.
    replace ((P - 1) * 1000 * U * U) with ((P - 1) * (1000 * U * U)) by ring.
    lia. }
  assert (H2 : P * (A * F) <= (P + 1) * 1000 * U).
  { apply (Z.mul_le_mono_pos_r _ _ U HU).
    replace (P * (A * F) * U) with (P * (A * (F * U))) by ring.
    replace ((P + 1) * 1000 * U * U) with ((P + 1) * (1000 * U * U)) by ring.
    lia. }
  (* the rounding of the quotient *)
  assert (H3 : P * (q * A) <= (P + 1) * (T * U * U)) by lia.
  assert (H4 : (P - 1) * (T * U * U) <= P * (q * A)) by lia.
  set (N := T * F) in *.
  assert (UB : q * ((P - 1) * 1000) <= (P + 1) * (N * U)).
  { apply (Z.mul_le_mono_pos_r _ _ U HU).
    transitivity (q * (P * (A * F))).
    - replace (q * ((P - 1) * 1000) * U) with (q * ((P - 1) * 1000 * U)) by ring.
      apply Z.mul_le_mono_nonneg_l; assumption.
    - replace (q * (P * (A * F))) with (P * (q * A) * F) by ring.
      replace ((P + 1) * (N * U) * U) with ((P + 1) * (T * U * U) * F)
        by (subst N; ring).
      apply Z.mul_le_mono_nonneg_r; [lia | exact H3]. }
  assert (LB : (P - 1) * (N * U) <= q * ((P + 1) * 1000)).
  { apply (Z.mul_le_mono_pos_r _ _ U HU).
    transitivity (q * (P * (A * F))).
    - replace (q * (P * (A * F))) with (P * (q * A) * F) by ring.
      replace ((P - 1) * (N * U) * U) with ((P - 1) * (T * U * U) * F)
        by (subst N; ring).
      apply Z.mul_le_mono_nonneg_r; [lia | exact H4].
    - replace (q * ((P + 1) * 1000) * U) with (q * ((P + 1) * 1000 * U)) by ring.
      apply Z.mul_le_mono_nonneg_l; assumption. }
  assert (HN0 : 1 <= N) by (subst N; nia).
  pose proof (Z.div_mod N 1000 ltac:(lia)) as Hdm.
  pose proof (Z.mod_pos_bound N 1000 ltac:(lia)) as Hm.
  set (X := N / 1000) in *. set (m := N mod 1000) in *.
  assert (HX : 0 <= X) by (subst X; apply Z.div_pos; lia).
  assert (ENU : N * U = 1000 * (X * U) + m * U) by (rewrite Hdm; ring).
  assert (HXU : 0 <= X * U) by (apply Z.mul_nonneg_nonneg; lia).
  assert (HmU0 : 0 <= m * U) by (apply Z.mul_nonneg_nonneg; lia).
  assert (HmU1 : m * U <= 999 * U) by (apply Z.mul_le_mono_nonneg_r; lia).
  assert (HXb : 1000 * (X * U) <= 1125899906842624 * U).
  { replace (1000 * (X * U)) with ((1000 * X) * U) by ring.
    apply Z.mul_le_mono_nonneg_r; lia. }
  rewrite ENU in UB, LB.
  replace ((X - 1) * U) with (X * U - U) by ring.
  replace ((X + 1) * U) with (X * U + U) by ring.
  subst P. split; [split; lia|].
  intros Hm0.
  assert (HmU2 : U <= m * U).
  { replace U with (1 * U) at 1 by ring. apply Z.mul_le_mono_nonneg_r; lia. }
  lia.
Qed.

Lemma findall_from_captures p : forall s skip,
  Forall (Forall all_digits) (findall_from p s skip).
Proof.
  induction s as [|c s IH]; intros skip.
  - destruct skip; simpl; [|constructor].
    destruct (match_items p []) as [[caps rest]|] eqn:E; constructor.
    + eapply match_items_captures, E.
    + constructor.
  - destruct skip; simpl; [|apply IH].
    destruct (match_items p (c :: s)) as [[caps rest]|] eqn:E; [|apply IH].
    constructor; [eapply match_items_captures, E | apply IH].
Qed.

Lemma sum_Z_nonneg l : Forall (fun z => 0 <= z) l -> 0 <= sum_Z l.
Proof.
  unfold sum_Z.
  assert (G : forall acc, 0 <= acc -> Forall (fun z => 0 <= z) l ->
                          0 <= fold_left Z.add l acc).
  { induction l as [|x l IH]; intros acc Ha H; simpl; [assumption|].
    inversion H; subst. apply IH; [lia | assumption]. }
  apply G. lia.
Qed.

Lemma difftime_total_nonneg content : 0 <= difftime_total content.
Proof.
  unfold difftime_total. apply sum_Z_nonneg.
  rewrite map_map. apply Forall_forall. intros z Hz.
  apply in_map_iff in Hz. destruct Hz as (caps & <- & Hin).
  apply int_of_digits_nonneg.
  pose proof (findall_from_captures difftime_pattern content O) as F.
  rewrite Forall_forall in F. specialize (F caps Hin).
  unfold group1. destruct caps as [|d caps]; [reflexivity|].
  inversion F; subst. assumption.
Qed.

Lemma fdiv_finite sx ux sy uy :
  uy <> 0 ->
  fdiv (Finite sx ux) (Finite sy uy) = Ok (fround (xorb sx sy) (ux * one_ulps) uy).
Proof. intros H. unfold fdiv. destruct uy; [congruence | reflexivity | reflexivity]. Qed.

Lemma float_of_int_exact k :
  0 <= k < 2 ^ 53 -> float_of_int k = Ok (Finite false (k * one_ulps)).
Proof.
  intros [H0 H1]. destruct (Z.eq_dec k 0) as [-> | Hk]; [reflexivity|].
  rewrite float_of_int_pos.
  - rewrite round_ulps_int by lia. reflexivity.
  - split; [lia|]. eapply Z.lt_trans; [exact H1 | reflexivity].
Qed.

Lemma mul_one_ulps_nonneg k : 0 <= k -> 0 <= k * one_ulps.
Proof. intros H. apply Z.mul_nonneg_nonneg; [exact H | apply Z.lt_le_incl, one_ulps_pos]. Qed.

Lemma map_result_py_int_of_str l :
  Forall (fun d => (List.length d <= max_str_digits)%nat) l ->
  map_result py_int_of_str l = Ok (map int_of_digits l).
Proof.
  induction 1 as [|d l Hd _ IH]; [reflexivity|].
  cbn [map_result map]. unfold py_int_of_str at 1.
  apply Nat.ltb_ge in Hd. rewrite Hd, IH. reflexivity.
Qed.

(** A DiffTime marker of more than 4300 digits makes line 33 raise
    ValueError, whatever the frame rate. *)
Lemma get_clip_duration_frames_long_marker (content : text) (fps : Z) :
  Exists (fun m => (max_str_digits < List.length (group1 m))%nat)
    (findall difftime_pattern content) ->
  get_clip_duration_frames content fps = Raise ValueError.
Proof.
  intros H. unfold get_clip_duration_frames. cbv zeta.
  assert (E : map_result py_int_of_str (map group1 (findall difftime_pattern content))
              = Raise ValueError).
  { induction H as [m l Hm | m l _ IH].
    - cbn [map map_result]. unfold py_int_of_str at 1.
      apply Nat.ltb_lt in Hm. rewrite Hm. reflexivity.
    - cbn [map map_result]. rewrite IH.
      destruct (py_int_of_str (group1 m)) as [z|e] eqn:Em; [reflexivity|].
      unfold py_int_of_str in Em.
      destruct (max_str_digits <? List.length (group1 m))%nat; congruence. }
  destruct (map group1 (findall difftime_pattern content)) as [|d l];
    [discriminate E|].
  rewrite E. reflexivity.
Qed.

(** X5.  For a sidecar with at least one DiffTime marker, each of at most
    4300 digits, a frame rate from 1 to 65536 and a total of at most
    2^34 ms, [get_clip_duration_frames] returns either the exact
    floor(total * fps / 1000) or one frame less, and the exact value
    whenever total * fps is not a multiple of 1000: the rounding of
    [1000.0 / fps] can lose a frame only when the duration is a whole
    number of frames. *)
Theorem get_clip_duration_frames_within_one (content : text) (fps : Z) :
  findall difftime_pattern content <> [] ->
  Forall (fun m => (List.length (group1 m) <= max_str_digits)%nat)
    (findall difftime_pattern content) ->
  0 < fps <= 2 ^ 16 -> difftime_total content <= 2 ^ 34 ->
  exists n,
    get_clip_duration_frames content fps = Ok (Some n) /\
    difftime_total content * fps / 1000 - 1 <= n
      <= difftime_total content * fps / 1000 /\
    ((difftime_total content * fps) mod 1000 <> 0 ->
     n = difftime_total content * fps / 1000).
Proof.
  intros Hne Hlen Hf HT.
  pose proof (difftime_total_nonneg content) as HT0.
  pose proof one_ulps_pos as HU.
  unfold get_clip_duration_frames. cbv zeta.
  rewrite map_result_py_int_of_str
    by (apply Forall_forall; intros d Hd; apply in_map_iff in Hd;
        destruct Hd as (m & <- & Hm); rewrite Forall_forall in Hlen;
        apply Hlen, Hm).
  cbn [bind].
  change (sum_Z (map int_of_digits (map group1 (findall difftime_pattern content))))
    with (difftime_total content).
  set (T := difftime_total content) in *.
  destruct (map group1 (findall difftime_pattern content)) as [|d0 l0] eqn:Ed.
  { exfalso. apply Hne. destruct (findall difftime_pattern content); [reflexivity | discriminate]. }
  change (2 ^ 16) with 65536 in *. change (2 ^ 34) with 17179869184 in *.
  rewrite (float_of_int_exact fps) by (split; [lia | apply Z.le_lt_trans with 65536; [lia | reflexivity]]).
  cbn [bind].
  assert (HFU : 0 < fps * one_ulps) by (apply Z.mul_pos_pos; lia).
  rewrite fdiv_finite by lia. cbn [xorb bind].
  set (A := round_ulps (1000 * one_ulps * one_ulps) (fps * one_ulps)).
  assert (Big : 2 ^ 53 * 65536 <= one_ulps) by (intro H; vm_compute in H; discriminate).
  change (2 ^ 53) with 9007199254740992 in Big.
  assert (HUU : 0 < one_ulps * one_ulps) by (apply Z.mul_pos_pos; assumption).
  assert (EA : 2 ^ 53 * (A * (fps * one_ulps) - 1000 * one_ulps * one_ulps)
                 <= 1000 * one_ulps * one_ulps /\
               2 ^ 53 * (1000 * one_ulps * one_ulps - A * (fps * one_ulps))
                 <= 1000 * one_ulps * one_ulps).
  { apply round_ulps_error; [exact HFU|].
    change (2 ^ 53) with 9007199254740992.
    replace (9007199254740992 * (fps * one_ulps))
      with ((9007199254740992 * fps) * one_ulps) by ring.
    replace (1000 * one_ulps * one_ulps) with ((1000 * one_ulps) * one_ulps) by ring.
    apply Z.mul_le_mono_nonneg_r; lia. }
  destruct EA as [EA1 EA2].
  assert (HA1 : A <= 1000 * one_ulps).
  { replace (1000 * one_ulps)
      with (round_ulps (1000 * one_ulps * one_ulps) one_ulps)
      by (vm_compute; reflexivity).
    subst A. apply round_ulps_mono; try lia.
    replace (1000 * one_ulps * one_ulps * (fps * one_ulps))
      with ((1000 * one_ulps * one_ulps * one_ulps) * fps) by ring.
    assert (0 <= 1000 * one_ulps * one_ulps * one_ulps).
    { do 3 apply mul_one_ulps_nonneg. lia. }
    replace (1000 * one_ulps * one_ulps * one_ulps)
      with ((1000 * one_ulps * one_ulps * one_ulps) * 1) at 1 by ring.
    apply Z.mul_le_mono_nonneg_l; lia. }
  assert (HA0 : 0 < A).
  { destruct (Z_lt_le_dec 0 A) as [|Hle]; [assumption|exfalso].
    assert (A * (fps * one_ulps) <= 0) by (apply Z.mul_nonpos_nonneg; lia).
    change (2 ^ 53) with 9007199254740992 in EA2. lia. }
  rewrite fround_finite
    by (apply Z.le_lt_trans with (1000 * one_ulps); [exact HA1 | reflexivity]).
  change (round_ulps (1000 * one_ulps * one_ulps) (fps * one_ulps)) with A.
  rewrite (float_of_int_exact T)
    by (split; [lia | apply Z.le_lt_trans with 17179869184; [lia | reflexivity]]).
  cbn [bind].
  rewrite fdiv_finite by lia. cbn [xorb bind].
  set (q := round_ulps (T * one_ulps * one_ulps) A).
  assert (HN : T * fps <= 2 ^ 50).
  { change (2 ^ 50) with (17179869184 * 65536). apply Z.mul_le_mono_nonneg; lia. }
  destruct (Z.eq_dec T 0) as [ET | NT].
  - (* all DiffTime values are zero *)
    assert (Eq0 : q = 0).
    { subst q. rewrite ET. change (0 * one_ulps * one_ulps) with 0.
      apply round_ulps_zero. exact HA0. }
    rewrite fround_finite
      by (change (round_ulps (T * one_ulps * one_ulps) A) with q;
          rewrite Eq0; reflexivity).
    change (round_ulps (T * one_ulps * one_ulps) A) with q.
    rewrite Eq0. cbn [py_int bind signed]. rewrite ET.
    exists 0. split; [reflexivity|]. split; [cbn; lia | intros H; exfalso; apply H; reflexivity].
  - assert (HTUU : 0 <= T * one_ulps * one_ulps)
      by (do 2 apply mul_one_ulps_nonneg; lia).
    assert (Hq0 : 0 <= q) by (subst q; apply round_ulps_nonneg; assumption).
    assert (EQ : 2 ^ 53 * (q * A - T * one_ulps * one_ulps) <= T * one_ulps * one_ulps /\
                 2 ^ 53 * (T * one_ulps * one_ulps - q * A) <= T * one_ulps * one_ulps).
    { apply round_ulps_error; [exact HA0|].
      change (2 ^ 53) with 9007199254740992.
      transitivity (9007199254740992 * (1000 * one_ulps)); [lia|].
      transitivity (1 * one_ulps * one_ulps).
      - replace (9007199254740992 * (1000 * one_ulps))
          with ((9007199254740992 * 1000) * one_ulps) by ring.
        apply Z.mul_le_mono_nonneg_r; lia.
      - apply Z.mul_le_mono_nonneg_r; [lia|].
        apply Z.mul_le_mono_nonneg_r; lia. }
    destruct EQ as [EQ1 EQ2].
    destruct (duration_arith one_ulps T fps A q HU ltac:(lia) ltac:(lia) HN Hq0
                EA1 EA2 EQ1 EQ2) as [[L1 L2] L3].
    set (X := T * fps / 1000) in *.
    assert (HX : X <= 2 ^ 50).
    { subst X. transitivity (T * fps); [|exact HN].
      apply Z.div_le_upper_bound; [lia|].
      assert (0 <= T * fps) by (apply Z.mul_nonneg_nonneg; lia). lia. }
    rewrite fround_finite;
      change (round_ulps (T * one_ulps * one_ulps) A) with q.
    2:{ eapply Z.lt_le_trans; [exact L2|].
        transitivity ((2 ^ 50 + 1) * one_ulps).
        - apply Z.mul_le_mono_nonneg_r; lia.
        - intro H; vm_compute in H; discriminate. }
    cbn [py_int bind signed].
    exists (q / one_ulps). split; [reflexivity|]. split.
    + split.
      * apply Z.div_le_lower_bound; [exact HU|]. lia.
      * assert (q / one_ulps < X + 1); [|lia].
        apply Z.div_lt_upper_bound; [exact HU|]. lia.
    + intros Hm. specialize (L3 Hm).
      assert (X <= q / one_ulps) by (apply Z.div_le_lower_bound; [exact HU | lia]).
      assert (q / one_ulps < X + 1) by (apply Z.div_lt_upper_bound; [exact HU | lia]).
      lia.
Qed.

(** X5 at one marker of a second, 30 frames per second (where the code
    returns 29, one less than the exact 30). *)
Lemma get_clip_duration_frames_within_one_witness :
  exists n,
    get_clip_duration_frames sidecar_one_second 30 = Ok (Some n) /\
    difftime_total sidecar_one_second * 30 / 1000 - 1 <= n
      <= difftime_total sidecar_one_second * 30 / 1000 /\
    ((difftime_total sidecar_one_second * 30) mod 1000 <> 0 ->
     n = difftime_total sidecar_one_second * 30 / 1000).
Proof.
  apply (get_clip_duration_frames_within_one sidecar_one_second 30).
  - vm_compute. discriminate.
  - change (findall difftime_pattern sidecar_one_second)
      with [[str "1000"]].
    constructor; [|constructor]. apply Nat.leb_le. vm_compute. reflexivity.
  - vm_compute. split; [reflexivity | discriminate].
  - vm_compute. discriminate.
Defined.

(** Two FrameCnt markers and no DiffTime marker: two frames, at any
    frame rate. *)
Example get_clip_duration_frames_framecnt :
  get_clip_duration_frames (str "FrameCnt: 1, x FrameCnt: 2") 0 = Ok (Some 2).
Proof. vm_compute. reflexivity. Qed.

(** ** Sidecar lookup (lines 82-100) *)

Lemma parent_snoc (d : path) (n : text) : parent (d ++ [n]) = d.
Proof. unfold parent. apply removelast_last. Qed.

Lemma path_name_snoc (d : path) (n : text) : path_name (d ++ [n]) = n.
Proof. unfold path_name. apply last_last. Qed.

Lemma not_hidden_no_dot n : not_hidden n = true -> startswith (str ".") n = false.
Proof.
  unfold not_hidden. intros H. apply andb_prop in H. destruct H as [_ H].
  apply negb_true_iff in H. exact H.
Qed.

Lemma rfind_dot_app x : forall y,
  rfind_dot (x ++ y) =
  match rfind_dot y with
  | Some i => Some (List.length x + i)%nat
  | None => rfind_dot x
  end.
Proof.
  induction x as [|c x IH]; intros y; simpl.
  - destruct (rfind_dot y); reflexivity.
  - rewrite IH. destruct (rfind_dot y) as [i|]; [reflexivity|].
    destruct (rfind_dot x); reflexivity.
Qed.

Lemma stem_no_dot x : rfind_dot x = None -> stem x = x.
Proof. unfold stem. intros ->. reflexivity. Qed.

Lemma stem_add_extension x e :
  x <> [] -> rfind_dot e = Some O -> (2 <= List.length e)%nat -> stem (x ++ e) = x.
Proof.
  intros Hx He Hl. unfold stem. rewrite rfind_dot_app, He, Nat.add_0_r.
  rewrite length_app.
  assert (0 < List.length x)%nat by (destruct x; [congruence | simpl; lia]).
  destruct (Nat.ltb_spec 0 (List.length x)); [|lia].
  destruct (Nat.ltb_spec (List.length x) (List.length x + List.length e - 1)); [|lia].
  cbn [andb]. apply firstn_app_length.
Qed.

Lemma first_matching_stem_some dir names want p :
  first_matching_stem dir names want = Some p ->
  exists n, In n names /\ p = dir ++ [n] /\ stem n = want /\ not_hidden n = true.
Proof.
  unfold first_matching_stem. intros H.
  destruct (filter _ names) as [|n l] eqn:E; [discriminate|].
  inversion H; subst. clear H.
  assert (Hin : In n (filter (fun n => text_eqb (stem n) want && not_hidden n) names))
    by (rewrite E; left; reflexivity).
  apply filter_In in Hin. destruct Hin as [Hin Hc].
  apply andb_prop in Hc. destruct Hc as [Hs Hh].
  apply text_eqb_eq in Hs.
  exists n. repeat split; assumption.
Qed.

Lemma stem_nonempty name : name <> [] -> stem name <> [].
Proof.
  intros Hn. unfold stem. destruct (rfind_dot name) as [i|]; [|exact Hn].
  destruct (Nat.ltb_spec 0 i) as [Hi|]; cbn [andb]; [|exact Hn].
  destruct (i <? List.length name - 1)%nat; [|exact Hn].
  destruct name as [|c name]; [congruence|].
  destruct i as [|i]; [lia|]. discriminate.
Qed.

Lemma with_suffix_ok (p : path) (s : text) :
  path_name p <> [] ->
  with_suffix p s = Ok (parent p ++ [stem (path_name p) ++ s]).
Proof.
  intros H. unfold with_suffix. destruct (path_name p); [congruence | reflexivity].
Qed.

Section FindSrt.

Variable Handle World : Type.
Variable ask : forall R : Type, call Handle R -> World -> R * World.

(** A path with an empty name (the empty path) makes [with_suffix] at
    line 83 raise ValueError. *)
Lemma find_srt_for_video_empty_name (video_path : path) (w : World) :
  path_name video_path = [] ->
  find_srt_for_video Handle World ask video_path w = (Raise ValueError, w, []).
Proof.
  intros E. unfold find_srt_for_video, with_suffix. rewrite E. reflexivity.
Qed.

(** X6.  A sidecar that [find_srt_for_video] returns lies in the video's
    own directory and has a name that does not start with a dot.  Its
    name is the video's stem, stripped of a further extension if it has
    one, followed by .srt or .SRT, or else a listed name with the video's
    stem; so for a video whose stem contains no dot the sidecar always
    has the video's stem. *)
Theorem find_srt_for_video_result (video_path : path) (w : World) (s : path) :
  fst (fst (find_srt_for_video Handle World ask video_path w)) = Ok (Some s) ->
  path_name video_path <> [] /\
  parent s = parent video_path /\
  startswith (str ".") (path_name s) = false /\
  (path_name s = stem (stem (path_name video_path)) ++ str ".srt" \/
   path_name s = stem (stem (path_name video_path)) ++ str ".SRT" \/
   stem (path_name s) = stem (path_name video_path)) /\
  (rfind_dot (stem (path_name video_path)) = None ->
   stem (path_name s) = stem (path_name video_path)).
Proof.
  destruct (path_name video_path) as [|c0 n0] eqn:En.
  { rewrite find_srt_for_video_empty_name by exact En. discriminate. }
  assert (Hne : path_name video_path <> []) by (rewrite En; discriminate).
  rewrite <- En. clear c0 n0 En.
  unfold find_srt_for_video.
  rewrite (with_suffix_ok video_path) by exact Hne.
  erewrite bindM_ok by apply lift_run. cbn [fst snd app].
  rewrite !with_suffix_ok
    by (rewrite path_name_snoc, app_nil_r; apply stem_nonempty, Hne).
  erewrite bindM_ok by apply lift_run. cbn [fst snd app].
  erewrite bindM_ok by apply lift_run. cbn [fst snd app].
  rewrite !parent_snoc, !path_name_snoc, !app_nil_r.
  set (vname := path_name video_path) in *.
  set (dir := parent video_path).
  assert (Hst : stem vname <> []) by (apply stem_nonempty, Hne).
  assert (Cand : forall e, rfind_dot e = Some O -> (2 <= List.length e)%nat ->
            not_hidden (stem (stem vname) ++ e) = true ->
            parent (dir ++ [stem (stem vname) ++ e]) = dir /\
            startswith (str ".") (path_name (dir ++ [stem (stem vname) ++ e])) = false /\
            (rfind_dot (stem vname) = None ->
             stem (path_name (dir ++ [stem (stem vname) ++ e])) = stem vname)).
  { intros e He Hl Hh. rewrite parent_snoc, path_name_snoc.
    split; [reflexivity|]. split; [apply not_hidden_no_dot, Hh|].
    intros Hd. rewrite (stem_no_dot _ Hd). apply stem_add_extension; assumption. }
  assert (Glob : forall names p,
            first_matching_stem dir names (stem vname) = Some p ->
            parent p = dir /\ startswith (str ".") (path_name p) = false /\
            stem (path_name p) = stem vname).
  { intros names p H. apply first_matching_stem_some in H.
    destruct H as (n & _ & -> & Hs & Hh).
    rewrite parent_snoc, path_name_snoc.
    split; [reflexivity|]. split; [apply not_hidden_no_dot, Hh | exact Hs]. }
  erewrite bindM_ok by apply perform_run. cbn [fst snd].
  destruct (fst (ask bool (PathExists (dir ++ [stem (stem vname) ++ str ".srt"])) w)
            && not_hidden (stem (stem vname) ++ str ".srt")) eqn:E1.
  { cbn [ret fst]. intros Hs. inversion Hs; subst s. clear Hs.
    apply andb_prop in E1. destruct E1 as [_ Hh].
    destruct (Cand (str ".srt") eq_refl ltac:(simpl; lia) Hh) as (C1 & C2 & C3).
    split; [exact Hne|]. split; [exact C1|]. split; [exact C2|]. split; [|exact C3].
    left. apply path_name_snoc. }
  erewrite bindM_ok by apply perform_run. cbn [fst snd].
  match goal with |- context [fst (ask bool (PathExists ?p) ?w1) && ?h] =>
    destruct (fst (ask bool (PathExists p) w1) && h) eqn:E2
  end.
  { cbn [ret fst]. intros Hs. inversion Hs; subst s. clear Hs.
    apply andb_prop in E2. destruct E2 as [_ Hh].
    destruct (Cand (str ".SRT") eq_refl ltac:(simpl; lia) Hh) as (C1 & C2 & C3).
    split; [exact Hne|]. split; [exact C1|]. split; [exact C2|]. split; [|exact C3].
    right. left. apply path_name_snoc. }
  erewrite bindM_ok by apply perform_run. cbn [fst snd].
  match goal with |- context [first_matching_stem dir ?l (stem vname)] =>
    destruct (first_matching_stem dir l (stem vname)) as [p|] eqn:E3
  end.
  { cbn [ret fst]. intros Hs. inversion Hs; subst s. clear Hs.
    destruct (Glob _ _ E3) as (G1 & G2 & G3).
    split; [exact Hne|]. split; [exact G1|]. split; [exact G2|].
    split; [right; right; exact G3|].
    intros _. exact G3. }
  erewrite bindM_ok by apply perform_run. cbn [fst snd ret].
  intros Hs. inversion Hs as [Hs']. clear Hs.
  destruct (Glob _ _ Hs') as (G1 & G2 & G3).
  split; [exact Hne|]. split; [exact G1|]. split; [exact G2|].
  split; [right; right; exact G3|].
  intros _. exact G3.
Qed.

End FindSrt.

(** X6 at a video whose stem contains a dot: the first candidate drops
    the stem's last extension, so "clip.v2.mp4" is paired with "clip.srt"
    when that file exists. *)
Lemma find_srt_for_video_result_witness :
  path_name [str "CAM A"; str "clip.v2.mp4"] <> [] /\
  parent [str "CAM A"; str "clip.srt"] = parent [str "CAM A"; str "clip.v2.mp4"] /\
  startswith (str ".") (path_name [str "CAM A"; str "clip.srt"]) = false /\
  (path_name [str "CAM A"; str "clip.srt"]
   = stem (stem (path_name [str "CAM A"; str "clip.v2.mp4"])) ++ str ".srt" \/
   path_name [str "CAM A"; str "clip.srt"]
   = stem (stem (path_name [str "CAM A"; str "clip.v2.mp4"])) ++ str ".SRT" \/
   stem (path_name [str "CAM A"; str "clip.srt"])
   = stem (path_name [str "CAM A"; str "clip.v2.mp4"])) /\
  (rfind_dot (stem (path_name [str "CAM A"; str "clip.v2.mp4"])) = None ->
   stem (path_name [str "CAM A"; str "clip.srt"])
   = stem (path_name [str "CAM A"; str "clip.v2.mp4"])).
Proof.
  apply (find_srt_for_video_result nat unit demo_ask
           [str "CAM A"; str "clip.v2.mp4"] tt [str "CAM A"; str "clip.srt"]).
  vm_compute. reflexivity.
Defined.

(** ** Bins and timelines (lines 113-156) *)

Section ReuseOrCreate.

Variable Handle World : Type.
Variable ask : forall R : Type, call Handle R -> World -> R * World.

Lemma find_by_name_run name folders : forall w,
  exists res w' tr,
    find_by_name Handle World ask name folders w = (Ok res, w', tr) /\
    Forall (fun e => changes_host e = false) tr /\
    (forall f, res = Some f -> In (Ev (GetName f) (Some name)) tr) /\
    (res = None -> Forall (fun e => reports name e = false) tr).
Proof.
  induction folders as [|f rest IH]; intros w; cbn [find_by_name].
  - exists None, w, []. split; [reflexivity|].
    split; [constructor|]. split; [discriminate | constructor].
  - erewrite bindM_ok by apply perform_run. cbn [fst snd].
    destruct (ask (option text) (GetName f) w) as [n w1]. cbn [fst snd].
    destruct n as [n'|].
    + destruct (text_eqb n' name) eqn:En.
      * apply text_eqb_eq in En. subst n'.
        exists (Some f), w1, [Ev (GetName f) (Some name)].
        split; [reflexivity|]. split; [repeat constructor|].
        split; [|discriminate].
        intros f' Hf. inversion Hf; subst. left. reflexivity.
      * destruct (IH w1) as (res & w' & tr & E & C & S & N). rewrite E. cbn [fst snd].
        exists res, w', (Ev (GetName f) (Some n') :: tr).
        split; [reflexivity|]. split; [constructor; [reflexivity | exact C]|].
        split.
        -- intros f' Hf. right. apply S, Hf.
        -- intros Hn. constructor; [exact En | apply N, Hn].
    + destruct (IH w1) as (res & w' & tr & E & C & S & N). rewrite E. cbn [fst snd].
      exists res, w', (Ev (GetName f) None :: tr).
      split; [reflexivity|]. split; [constructor; [reflexivity | exact C]|].
      split.
      * intros f' Hf. right. apply S, Hf.
      * intros Hn. constructor; [reflexivity | apply N, Hn].
Qed.

Lemma scan_subfolders_run root name w :
  exists res w' tr,
    scan_subfolders Handle World ask root name w = (Ok res, w', tr) /\
    Forall (fun e => changes_host e = false) tr /\
    (forall f, res = Some f -> In (Ev (GetName f) (Some name)) tr) /\
    (res = None -> Forall (fun e => reports name e = false) tr).
Proof.
  unfold scan_subfolders.
  erewrite bindM_ok by apply perform_run. cbn [fst snd].
  destruct (ask _ (GetSubFolders root) w) as [subs w1]. cbn [fst snd].
  destruct subs as [folders|].
  - destruct (find_by_name_run name folders w1) as (res & w' & tr & E & C & S & N).
    rewrite E. cbn [fst snd].
    exists res, w', (Ev (GetSubFolders root) (Some folders) :: tr).
    split; [reflexivity|]. split; [constructor; [reflexivity | exact C]|].
    split.
    + intros f Hf. right. apply S, Hf.
    + intros Hn. constructor; [reflexivity | apply N, Hn].
  - exists None, w1, [Ev (GetSubFolders root) None].
    split; [reflexivity|]. split; [repeat constructor|].
    split; [discriminate | intros _; repeat constructor].
Qed.

(** The shape of a run of [ensure_bin] on a root folder, when every
    call answers. *)
Lemma ensure_bin_run (root : Handle) (name : text) (w : World) :
  ensure_bin Handle World ask None name w = (Ok None, w, []) /\
  exists res,
    fst (fst (ensure_bin Handle World ask (Some root) name w)) = Ok res /\
    (forall f, res = Some f ->
       In (Ev (AddSubFolder root name) (Some f))
          (snd (ensure_bin Handle World ask (Some root) name w)) \/
       In (Ev (GetName f) (Some name))
          (snd (ensure_bin Handle World ask (Some root) name w))) /\
    (Forall (fun e => changes_host e = false)
       (snd (ensure_bin Handle World ask (Some root) name w)) \/
     exists pre created post,
       snd (ensure_bin Handle World ask (Some root) name w)
       = pre ++ [Ev (SetCurrentFolder (Some root)) tt;
                 Ev (AddSubFolder root name) created] ++ post /\
       Forall (fun e => changes_host e = false) pre /\
       Forall (fun e => reports name e = false) pre /\
       Forall (fun e => changes_host e = false) post /\
       (created <> None -> post = [] /\ res = created)).
Proof.
  split; [reflexivity|].
  cbn [ensure_bin].
  destruct (scan_subfolders_run root name w) as (r1 & w1 & t1 & E1 & C1 & S1 & N1).
  erewrite bindM_ok by exact E1. cbn [fst snd].
  destruct r1 as [f|].
  - exists (Some f). cbn [ret fst snd]. rewrite app_nil_r.
    split; [reflexivity|]. split.
    + intros f' Hf. inversion Hf; subst. right. apply S1. reflexivity.
    + left. exact C1.
  - specialize (N1 eq_refl).
    erewrite bindM_ok by apply perform_run. cbn [fst snd].
    rewrite (unit_eta (fst (ask unit (SetCurrentFolder (Some root)) w1))).
    set (w2 := snd (ask unit (SetCurrentFolder (Some root)) w1)).
    erewrite bindM_ok by apply perform_run. cbn [fst snd].
    destruct (ask _ (AddSubFolder root name) w2) as [created w3]. cbn [fst snd].
    destruct created as [c|].
    + exists (Some c). cbn [ret fst snd].
      split; [reflexivity|]. split.
      * intros f' Hf. inversion Hf; subst. left.
        apply in_or_app. right. right. left. reflexivity.
      * right. exists t1, (Some c), [].
        split; [reflexivity|]. split; [exact C1|]. split; [exact N1|].
        split; [constructor|]. intros _. split; reflexivity.
    + destruct (scan_subfolders_run root name w3) as (r2 & w4 & t2 & E2 & C2 & S2 & N2).
      rewrite E2. cbn [fst snd].
      exists r2. split; [reflexivity|]. split.
      * intros f' Hf. right.
        apply in_or_app. right. right. right. apply S2, Hf.
      * right. exists t1, None, t2.
        split; [reflexivity|]. split; [exact C1|]. split; [exact N1|].
        split; [exact C2|]. intros H. congruence.
Qed.

Lemma find_timeline_run name n : forall i w,
  exists res w' tr,
    find_timeline Handle World ask name i n w = (Ok res, w', tr) /\
    Forall (fun e => changes_host e = false) tr /\
    (forall t, res = Some t -> In (Ev (TimelineGetName t) name) tr) /\
    (res = None -> Forall (fun e => reports name e = false) tr).
Proof.
  induction n as [|n IH]; intros i w; cbn [find_timeline].
  - exists None, w, []. split; [reflexivity|].
    split; [constructor|]. split; [discriminate | constructor].
  - erewrite bindM_ok by apply perform_run. cbn [fst snd].
    destruct (ask _ (GetTimelineByIndex i) w) as [tl w1]. cbn [fst snd].
    destruct tl as [t|].
    + erewrite bindM_ok by apply perform_run. cbn [fst snd].
      destruct (ask _ (TimelineGetName t) w1) as [tn w2]. cbn [fst snd].
      destruct (text_eqb tn name) eqn:En.
      * apply text_eqb_eq in En. subst tn.
        exists (Some t), w2, [Ev (GetTimelineByIndex i) (Some t); Ev (TimelineGetName t) name].
        split; [reflexivity|]. split; [repeat constructor|].
        split; [|discriminate].
        intros t' Ht. inversion Ht; subst. right. left. reflexivity.
      * destruct (IH (i + 1) w2) as (res & w' & tr & E & C & S & N).
        rewrite E. cbn [fst snd].
        exists res, w',
          (Ev (GetTimelineByIndex i) (Some t) :: Ev (TimelineGetName t) tn :: tr).
        split; [reflexivity|].
        split; [constructor; [reflexivity | constructor; [reflexivity | exact C]]|].
        split.
        -- intros t' Ht. right. right. apply S, Ht.
        -- intros Hn. constructor; [reflexivity|].
           constructor; [exact En | apply N, Hn].
    + destruct (IH (i + 1) w1) as (res & w' & tr & E & C & S & N).
      rewrite E. cbn [fst snd].
      exists res, w', (Ev (GetTimelineByIndex i) None :: tr).
      split; [reflexivity|]. split; [constructor; [reflexivity | exact C]|].
      split.
      * intros t' Ht. right. apply S, Ht.
      * intros Hn. constructor; [reflexivity | apply N, Hn].
Qed.

(** X7.  A run of [ensure_bin] on a root folder that returns: a bin it
    returns was either answered by [AddSubFolder root name] or is a
    listed subfolder that reported the name [name]; and the run either
    changes nothing in the host, or consists of a scan in which no
    subfolder reported [name], then [SetCurrentFolder root] and a single
    [AddSubFolder root name], then, only if that returned nothing, a
    second scan. *)
Theorem ensure_bin_reuses_or_creates_once
    (root : Handle) (name : text) (w : World) res w' tr :
  ensure_bin Handle World ask (Some root) name w = (Ok res, w', tr) ->
  (forall f, res = Some f ->
     In (Ev (AddSubFolder root name) (Some f)) tr \/
     In (Ev (GetName f) (Some name)) tr) /\
  (Forall (fun e => changes_host e = false) tr \/
   exists pre created post,
     tr = pre ++ [Ev (SetCurrentFolder (Some root)) tt;
                  Ev (AddSubFolder root name) created] ++ post /\
     Forall (fun e => changes_host e = false) pre /\
     Forall (fun e => reports name e = false) pre /\
     Forall (fun e => changes_host e = false) post /\
     (created <> None -> post = [] /\ res = created)).
Proof.
  intros E.
  destruct (ensure_bin_run root name w) as [_ (res0 & E0 & H1 & H2)].
  rewrite E in E0, H1, H2. cbn [fst snd] in E0, H1, H2.
  inversion E0; subst res0. split; assumption.
Qed.

(** The shape of a run of [get_or_create_timeline], when every call
    answers. *)
Lemma get_or_create_timeline_run (name : text) (w : World) :
  exists res,
    fst (fst (get_or_create_timeline Handle World ask name w)) = Ok res /\
    (forall t, res = Some t ->
       In (Ev (CreateEmptyTimeline name) (Some t))
          (snd (get_or_create_timeline Handle World ask name w)) \/
       In (Ev (TimelineGetName t) name)
          (snd (get_or_create_timeline Handle World ask name w))) /\
    (Forall (fun e => changes_host e = false)
       (snd (get_or_create_timeline Handle World ask name w)) \/
     exists pre,
       snd (get_or_create_timeline Handle World ask name w)
       = pre ++ [Ev (CreateEmptyTimeline name) res] /\
       Forall (fun e => changes_host e = false) pre /\
       Forall (fun e => reports name e = false) pre).
Proof.
  unfold get_or_create_timeline.
  erewrite bindM_ok by apply perform_run. cbn [fst snd].
  destruct (ask _ GetTimelineCount w) as [cnt w1]. cbn [fst snd].
  destruct (find_timeline_run name (Z.to_nat cnt) 1 w1)
    as (r1 & w2 & t1 & E1 & C1 & S1 & N1).
  erewrite bindM_ok by exact E1. cbn [fst snd].
  destruct r1 as [t|].
  - exists (Some t). cbn [ret fst snd]. rewrite app_nil_r.
    split; [reflexivity|]. split.
    + intros t' Ht. inversion Ht; subst. right. right. apply S1. reflexivity.
    + left. constructor; [reflexivity | exact C1].
  - specialize (N1 eq_refl). rewrite perform_run. cbn [fst snd].
    exists (fst (ask _ (CreateEmptyTimeline name) w2)).
    split; [reflexivity|]. split.
    + intros t' Ht. left. rewrite Ht.
      apply in_or_app. right. apply in_or_app. right. left. reflexivity.
    + right. exists (Ev GetTimelineCount cnt :: t1).
      split; [reflexivity|].
      split; constructor; try reflexivity; assumption.
Qed.

(** X8.  A run of [get_or_create_timeline] that returns: a timeline it
    returns was either answered by [CreateEmptyTimeline name] or reported
    the name [name]; and the run either changes nothing in the host, or
    ends with a single [CreateEmptyTimeline name], whose answer is the
    result, after a scan in which no timeline reported [name]. *)
Theorem get_or_create_timeline_reuses (name : text) (w : World) res w' tr :
  get_or_create_timeline Handle World ask name w = (Ok res, w', tr) ->
  (forall t, res = Some t ->
     In (Ev (CreateEmptyTimeline name) (Some t)) tr \/
     In (Ev (TimelineGetName t) name) tr) /\
  (Forall (fun e => changes_host e = false) tr \/
   exists pre,
     tr = pre ++ [Ev (CreateEmptyTimeline name) res] /\
     Forall (fun e => changes_host e = false) pre /\
     Forall (fun e => reports name e = false) pre).
Proof.
  intros E.
  destruct (get_or_create_timeline_run name w) as (res0 & E0 & H1 & H2).
  rewrite E in E0, H1, H2. cbn [fst snd] in E0, H1, H2.
  inversion E0; subst res0. split; assumption.
Qed.

End ReuseOrCreate.

(** X7 in the concrete environment: the root folder lists no subfolder,
    so the bin is created. *)
Lemma ensure_bin_reuses_or_creates_once_witness :
  (forall f, Some 1%nat = Some f ->
     In (Ev (AddSubFolder O (str "CAM A")) (Some f))
        [Ev (GetSubFolders O) (Some []);
         Ev (SetCurrentFolder (Some O)) tt;
         Ev (AddSubFolder O (str "CAM A")) (Some 1%nat)] \/
     In (Ev (GetName f) (Some (str "CAM A")))
        [Ev (GetSubFolders O) (Some []);
         Ev (SetCurrentFolder (Some O)) tt;
         Ev (AddSubFolder O (str "CAM A")) (Some 1%nat)]) /\
  (Forall (fun e => changes_host e = false)
     [Ev (GetSubFolders O) (Some []);
      Ev (SetCurrentFolder (Some O)) tt;
      Ev (AddSubFolder O (str "CAM A")) (Some 1%nat)] \/
   exists pre created post,
     [Ev (GetSubFolders O) (Some []);
      Ev (SetCurrentFolder (Some O)) tt;
      Ev (AddSubFolder O (str "CAM A")) (Some 1%nat)]
     = pre ++ [Ev (SetCurrentFolder (Some O)) tt;
               Ev (AddSubFolder O (str "CAM A")) created] ++ post /\
     Forall (fun e => changes_host e = false) pre /\
     Forall (fun e => reports (str "CAM A") e = false) pre /\
     Forall (fun e => changes_host e = false) post /\
     (created <> None -> post = [] /\ Some 1%nat = created)).
Proof.
  apply (ensure_bin_reuses_or_creates_once nat unit demo_ask O (str "CAM A") tt
           (Some 1%nat) tt).
  vm_compute. reflexivity.
Defined.

(** X8 in the concrete environment: the project has no timeline, so one
    is created. *)
Lemma get_or_create_timeline_reuses_witness :
  (forall t, Some 2%nat = Some t ->
     In (Ev (CreateEmptyTimeline (str "D_CAM A_24-05-09")) (Some t))
        [Ev (Handle := nat) GetTimelineCount 0;
         Ev (CreateEmptyTimeline (str "D_CAM A_24-05-09")) (Some 2%nat)] \/
     In (Ev (TimelineGetName t) (str "D_CAM A_24-05-09"))
        [Ev (Handle := nat) GetTimelineCount 0;
         Ev (CreateEmptyTimeline (str "D_CAM A_24-05-09")) (Some 2%nat)]) /\
  (Forall (fun e => changes_host e = false)
     [Ev (Handle := nat) GetTimelineCount 0;
      Ev (CreateEmptyTimeline (str "D_CAM A_24-05-09")) (Some 2%nat)] \/
   exists pre,
     [Ev (Handle := nat) GetTimelineCount 0;
      Ev (CreateEmptyTimeline (str "D_CAM A_24-05-09")) (Some 2%nat)]
     = pre ++ [Ev (CreateEmptyTimeline (str "D_CAM A_24-05-09")) (Some 2%nat)] /\
     Forall (fun e => changes_host e = false) pre /\
     Forall (fun e => reports (str "D_CAM A_24-05-09") e = false) pre).
Proof.
  apply (get_or_create_timeline_reuses nat unit demo_ask (str "D_CAM A_24-05-09") tt
           (Some 2%nat) tt).
  vm_compute. reflexivity.
Defined.

(** ** Files touched by a run (lines 163-318) *)

Lemma path_eqb_refl p : path_eqb p p = true.
Proof. unfold path_eqb. destruct (list_eq_dec (list_eq_dec ascii_dec) p p); congruence. Qed.

Lemma endswith_app suffix s : endswith suffix (s ++ suffix) = true.
Proof.
  unfold endswith, startswith. rewrite rev_app_distr, strip_prefix_app. reflexivity.
Qed.

Section FileFrame.

Variable Handle World : Type.
Variable ask : forall R : Type, call Handle R -> World -> R * World.

(** A predicate on events that flags file changes only. *)
Variable P : event Handle -> bool.
Hypothesis P_files : forall e, written_path e = None -> P e = false.

Ltac frame_step :=
  first
    [ apply avoids_ret
    | apply avoids_lift
    | apply (avoids_perform _ _ ask); intros; apply P_files; reflexivity
    | apply avoids_bind; [| intros]
    | apply avoids_for_each; intros
    | apply avoids_fold_M; intros
    | match goal with
      | |- avoids _ (match ?x with _ => _ end) => destruct x
      | |- avoids _ (if ?x then _ else _) => destruct x
      | |- avoids _ (let '(_, _) := ?x in _) => destruct x
      end ].

Lemma frame_find_by_name name folders :
  avoids P (find_by_name Handle World ask name folders).
Proof.
  apply find_by_name_avoids. intros f r. apply P_files. reflexivity.
Qed.

Lemma frame_ensure_bin root name :
  avoids P (ensure_bin Handle World ask root name).
Proof.
  unfold ensure_bin, scan_subfolders.
  destruct root as [root|]; [|apply avoids_ret].
  repeat first [ apply frame_find_by_name | frame_step ].
Qed.

Lemma frame_find_timeline name i n :
  avoids P (find_timeline Handle World ask name i n).
Proof.
  revert i. induction n as [|n IH]; intros i; simpl.
  - apply avoids_ret.
  - repeat first [ apply IH | frame_step ].
Qed.

Lemma frame_get_or_create_timeline name :
  avoids P (get_or_create_timeline Handle World ask name).
Proof.
  unfold get_or_create_timeline.
  repeat first [ apply frame_find_timeline | frame_step ].
Qed.

Lemma frame_print_listing idx paths :
  avoids P (print_listing Handle World ask idx paths).
Proof.
  apply avoids_print_listing. intros m r. apply P_files. reflexivity.
Qed.

Lemma frame_select_indices n p :
  avoids P (select_indices Handle World ask n p).
Proof. unfold select_indices. repeat frame_step. Qed.

Lemma frame_list_cam_folders d :
  avoids P (list_cam_folders Handle World ask d).
Proof. unfold list_cam_folders. repeat frame_step. Qed.

Lemma frame_choose_date_folder d :
  avoids P (choose_date_folder Handle World ask d).
Proof.
  unfold choose_date_folder.
  repeat first [ apply frame_list_cam_folders | apply frame_print_listing
               | apply frame_select_indices | frame_step ].
Qed.

Lemma frame_find_srt_for_video v :
  avoids P (find_srt_for_video Handle World ask v).
Proof. unfold find_srt_for_video. repeat frame_step. Qed.

Lemma frame_group_videos videos :
  avoids P (group_videos Handle World ask videos).
Proof.
  unfold group_videos. apply avoids_fold_M. intros g v. unfold group_step.
  repeat first [ apply frame_find_srt_for_video | frame_step ].
Qed.

Lemma frame_process_date_group date_folder_name cam_id fps cam_bin all_timelines g :
  avoids P (process_date_group Handle World ask date_folder_name cam_id fps
              cam_bin all_timelines g).
Proof.
  unfold process_date_group, import_step, info_step, apply_resolution, append_step.
  destruct g as [realdate items].
  repeat first [ apply frame_ensure_bin | apply frame_get_or_create_timeline
               | frame_step ].
Qed.

Lemma frame_process_cam date_folder_name fps root all_timelines cam_folder :
  avoids P (process_cam Handle World ask date_folder_name fps root all_timelines
              cam_folder).
Proof.
  unfold process_cam, scan_videos_io.
  repeat first [ apply frame_ensure_bin | apply frame_group_videos
               | apply frame_process_date_group | frame_step ].
Qed.

End FileFrame.

Section MainFrame.

Variable Handle World : Type.
Variable ask : forall R : Type, call Handle R -> World -> R * World.

Lemma file_change_outside_files export_folder (e : event Handle) :
  written_path e = None -> file_change_outside export_folder e = false.
Proof. destruct e as [R c r]. destruct c; simpl; intros H; congruence. Qed.

Lemma single_name_xml_name name : single_name (xml_name name) = true.
Proof.
  unfold single_name, xml_name, safe_filename.
  rewrite forallb_app. apply andb_true_intro. split; [|reflexivity].
  apply forallb_forall. intros c Hc. apply in_map_iff in Hc.
  destruct Hc as (x & <- & _).
  destruct (is_forbidden x) eqn:E; [reflexivity | rewrite E; reflexivity].
Qed.

Lemma frame_export_timeline export_folder tl :
  avoids (file_change_outside export_folder)
    (export_timeline Handle World ask export_folder tl).
Proof.
  unfold export_timeline.
  apply avoids_bind; [apply avoids_perform; reflexivity | intros name].
  apply avoids_bind; [apply avoids_perform; reflexivity | intros e].
  apply avoids_bind.
  - destruct e; [|apply avoids_ret].
    apply avoids_perform. intros r. cbn [file_change_outside].
    rewrite parent_snoc, path_name_snoc, path_eqb_refl, single_name_xml_name.
    unfold xml_name. rewrite endswith_app. reflexivity.
  - intros _.
    apply avoids_bind; [apply avoids_perform; reflexivity | intros _].
    apply avoids_bind.
    + apply avoids_perform. intros r. cbn [file_change_outside].
      rewrite parent_snoc, path_name_snoc, path_eqb_refl, single_name_xml_name.
      unfold xml_name. rewrite endswith_app. reflexivity.
    + intros ok. destruct ok; apply avoids_perform; reflexivity.
Qed.

(** X9.  In every run of [main], whatever the environment answers, the
    only [mkdir] is the one on the export folder (line 177, with
    [parents=True], so missing ancestors of the export folder are created
    with it), and every path the script unlinks or hands to the host's
    [Export] is the export folder joined with a single name that ends in
    .xml and holds none of the nine characters that [safe_filename]
    replaces (among them both path separators). *)
Theorem main_changes_files_only_in_export_folder
    (date_folder export_folder : path) (fps : Z) (w : World) :
  Forall (fun e => file_change_outside export_folder e = false)
    (snd (main Handle World ask date_folder export_folder fps w)).
Proof.
  revert w. change (avoids (file_change_outside export_folder)
                      (main Handle World ask date_folder export_folder fps)).
  pose proof (file_change_outside_files export_folder) as HP.
  unfold main.
  apply avoids_bind; [apply avoids_perform; reflexivity | intros e].
  apply avoids_bind.
  { destruct e; [apply avoids_perform; reflexivity | apply avoids_ret]. }
  intros d.
  destruct (negb (e && d)); [apply avoids_perform; reflexivity|].
  apply avoids_bind.
  { apply avoids_perform. intros r. cbn [file_change_outside].
    rewrite path_eqb_refl. reflexivity. }
  intros _.
  destruct (fps <=? 0); [apply avoids_perform; reflexivity|].
  apply avoids_bind; [apply frame_choose_date_folder; exact HP | intros chosen].
  destruct chosen as [[date_folder' cams]|]; [|apply avoids_ret].
  apply avoids_bind; [apply frame_print_listing; exact HP | intros _].
  apply avoids_bind; [apply frame_select_indices; exact HP | intros cam_idxs].
  destruct cam_idxs as [|i idxs]; [apply avoids_perform; reflexivity|].
  cbv zeta.
  apply avoids_bind; [apply avoids_perform; reflexivity | intros _].
  apply avoids_bind; [apply avoids_perform; reflexivity | intros _].
  apply avoids_bind; [apply avoids_perform; reflexivity | intros project].
  destruct (negb project); [apply avoids_perform; reflexivity|].
  apply avoids_bind; [apply avoids_perform; reflexivity | intros _].
  apply avoids_bind; [apply avoids_perform; reflexivity | intros root].
  apply avoids_bind; [apply avoids_perform; reflexivity | intros _].
  apply avoids_bind.
  - apply avoids_fold_M. intros s a. apply frame_process_cam. exact HP.
  - intros all_timelines. apply avoids_for_each. intros tl.
    apply frame_export_timeline.
Qed.

End MainFrame.

(** ** Placement entries and the clips they describe (lines 246-301) *)

Section Entries.

Variable Handle World : Type.
Variable ask : forall R : Type, call Handle R -> World -> R * World.

(** What the import loop keeps: clips of the group, each with the media
    pool item the host answered first for its video. *)
Lemma import_loop_items items0 items : forall acc w,
  incl items items0 ->
  Forall (fun x : imported Handle =>
            let '(item, v, s, ts) := x in In (v, s, ts) items0) acc ->
  exists imported_items w' tr,
    fold_M (import_step Handle World ask) items acc w = (Ok imported_items, w', tr) /\
    Forall (fun x : imported Handle =>
              let '(item, v, s, ts) := x in
              In (v, s, ts) items0 /\
              (In x acc \/ exists rest, In (Ev (ImportMedia v) (item :: rest)) tr))
      imported_items.
Proof.
  induction items as [|[[v s] ts] items IH]; intros acc w Hi Hacc; cbn [fold_M].
  - exists acc, w, []. split; [reflexivity|].
    rewrite Forall_forall in *. intros [[[item v] s] ts] Hx.
    split; [exact (Hacc _ Hx) | left; exact Hx].
  - erewrite bindM_ok by apply import_step_run.
    destruct (ask _ (ImportMedia v) w) as [added w1]; cbn [fst snd].
    assert (Hi' : incl items items0) by (intros x Hx; apply Hi; right; exact Hx).
    destruct added as [|item more].
    + destruct (IH acc w1 Hi' Hacc) as (r & w' & tr & E & F). rewrite E. cbn [fst snd].
      exists r, w', (Ev (ImportMedia v) [] :: tr). split; [reflexivity|].
      eapply Forall_impl; [|exact F].
      intros [[[item' v'] s'] ts'] [H1 [H2 | (rest & H2)]];
        (split; [exact H1|]); [left; exact H2 | right; exists rest; right; exact H2].
    + assert (Hacc' : Forall (fun x : imported Handle =>
                                let '(item, v, s, ts) := x in In (v, s, ts) items0)
                        (acc ++ [(item, v, s, ts)])).
      { apply Forall_app. split; [exact Hacc|].
        constructor; [apply Hi; left; reflexivity | constructor]. }
      destruct (IH (acc ++ [(item, v, s, ts)]) w1 Hi' Hacc') as (r & w' & tr & E & F).
      rewrite E. cbn [fst snd].
      exists r, w', (Ev (ImportMedia v) (item :: more) :: tr). split; [reflexivity|].
      eapply Forall_impl; [|exact F].
      intros [[[item' v'] s'] ts'] [H1 [H2 | (rest & H2)]]; (split; [exact H1|]).
      * apply in_app_or in H2. destruct H2 as [H2 | [H2 | []]]; [left; exact H2|].
        inversion H2; subst. right. exists more. left. reflexivity.
      * right. exists rest. right. exact H2.
Qed.

Lemma entry_of_weaken fps (tr tr' : list (event Handle)) x i :
  incl tr tr' -> entry_of fps tr x i -> entry_of fps tr' x i.
Proof.
  destruct x as [[[item v] s] ts]. intros Hi (H1 & H2 & H3 & content & d & H4 & H5 & H6).
  repeat split; try assumption. exists content, d. repeat split; try assumption.
  apply Hi, H4.
Qed.

Lemma info_step_entry fps acc x w max_wh infos w1 t1 :
  info_step Handle World ask fps acc x w = (Ok (max_wh, infos), w1, t1) ->
  exists i, infos = snd acc ++ [i] /\ entry_of fps t1 x i.
Proof.
  destruct x as [[[item v] s] ts]. unfold info_step. intros E.
  erewrite bindM_ok in E by apply perform_run. cbn [fst snd app] in E.
  destruct (compute_record_frame ts fps) as [rf|e] eqn:Erf.
  - erewrite bindM_ok in E by apply lift_run. cbn [fst snd app] in E.
    erewrite bindM_ok in E by apply perform_run. cbn [fst snd app] in E.
    match type of E with context [get_clip_duration_frames ?c fps] =>
      set (content := c) in *;
      destruct (get_clip_duration_frames content fps) as [dur|e] eqn:Ed
    end.
    + erewrite bindM_ok in E by apply lift_run. cbn [fst snd app] in E.
      inversion E; subst. clear E.
      eexists. split; [reflexivity|].
      split; [reflexivity|]. split; [reflexivity|]. split; [exact Erf|].
      exists content, dur. split; [|split; [exact Ed | reflexivity]].
      right. left. reflexivity.
    + erewrite bindM_raise in E by apply lift_run. discriminate E.
  - erewrite bindM_raise in E by apply lift_run. discriminate E.
Qed.

Lemma info_loop_entries fps items : forall acc w max_wh infos w' tr,
  fold_M (info_step Handle World ask fps) items acc w = (Ok (max_wh, infos), w', tr) ->
  exists new, infos = snd acc ++ new /\ Forall2 (entry_of fps tr) items new.
Proof.
  induction items as [|x items IH]; intros acc w mx infos w' tr E; cbn [fold_M] in E.
  - inversion E; subst. exists []. rewrite app_nil_r. split; [reflexivity | constructor].
  - destruct (info_step Handle World ask fps acc x w) as [[[[mx1 infos1] | e] w1] t1] eqn:E1.
    + erewrite bindM_ok in E by exact E1.
      destruct (fold_M (info_step Handle World ask fps) items (mx1, infos1) w1)
        as [[r2 w2] t2] eqn:E2.
      cbn [fst snd] in E. inversion E; subst. clear E.
      destruct (IH _ _ _ _ _ _ E2) as (new & -> & F).
      destruct (info_step_entry _ _ _ _ _ _ _ _ E1) as (i & Ei & Hi).
      cbn [snd] in *. subst infos1.
      exists (i :: new). split; [rewrite <- app_assoc; reflexivity|].
      constructor.
      * eapply entry_of_weaken; [|exact Hi]. intros e He. apply in_or_app. left. exact He.
      * eapply Forall2_impl; [|exact F]. intros a b Hab.
        eapply entry_of_weaken; [|exact Hab]. intros e He. apply in_or_app. right. exact He.
    + erewrite bindM_raise in E by exact E1. discriminate E.
Qed.

End Entries.

Lemma Forall2_in_right {A B : Type} (R : A -> B -> Prop) l l' b :
  Forall2 R l l' -> In b l' -> exists a, In a l /\ R a b.
Proof.
  induction 1 as [|x y l l' Hxy _ IH]; intros Hb; [destruct Hb|].
  destruct Hb as [<- | Hb].
  - exists x. split; [left; reflexivity | exact Hxy].
  - destruct (IH Hb) as (a & Ha & Hab). exists a. split; [right; exact Ha | exact Hab].
Qed.

Section EntriesOfGroup.

Variable Handle World : Type.
Variable ask : forall R : Type, call Handle R -> World -> R * World.

Ltac obs' :=
  repeat first
    [ rewrite appended_app | rewrite appended_cons ];
  cbn [appended_of app];
  change (appended (@nil (event Handle))) with (@nil (clip_info Handle)).

(** X10.  Every placement entry handed to the host for a (camera, day)
    group describes a clip of that group: its media pool item is the
    first item [ImportMedia] answered for the clip's video in this run,
    it is on track 1, its record frame is [compute_record_frame] of the
    clip's timestamp, and its trim range is start frame 0 with the
    duration computed from the text read from the clip's own sidecar,
    or absent when that text gives no duration. *)
Theorem placement_entries_describe_clips
    date_folder_name cam_id fps cam_bin all_timelines realdate items w :
  Forall (fun i =>
            exists item v s ts rest,
              In (v, s, ts) items /\
              In (Ev (ImportMedia v) (item :: rest))
                 (snd (process_date_group Handle World ask date_folder_name cam_id
                         fps cam_bin all_timelines (realdate, items) w)) /\
              entry_of fps
                (snd (process_date_group Handle World ask date_folder_name cam_id
                        fps cam_bin all_timelines (realdate, items) w))
                (item, v, s, ts) i)
    (appended (snd (process_date_group Handle World ask date_folder_name cam_id
                      fps cam_bin all_timelines (realdate, items) w))).
Proof.
  unfold process_date_group.
  pose proof (quiet_run _ _ _ w (ensure_bin_quiet Handle World ask (Some cam_bin) realdate))
    as [A1 _].
  destruct (ensure_bin Handle World ask (Some cam_bin) realdate w)
    as [[[date_bin | e] w1] t1] eqn:E1; cbn [fst snd] in A1.
  2:{ erewrite bindM_raise by exact E1. cbn [snd]. rewrite A1. constructor. }
  erewrite bindM_ok by exact E1. cbn [fst snd].
  erewrite bindM_ok by apply perform_run. cbn [fst snd].
  set (w2 := snd (ask unit (SetCurrentFolder date_bin) w1)).
  destruct date_bin as [bin|].
  2:{ erewrite bindM_ok by apply perform_run. cbn [fst snd ret].
      obs'. rewrite A1. constructor. }
  destruct (import_loop_items Handle World ask items items [] w2
              (incl_refl _) (Forall_nil _)) as (imp & w3 & t3 & E3 & F3).
  destruct (import_loop Handle World ask items [] w2) as (imp' & w3' & t3' & E3' & A3 & _).
  rewrite E3 in E3'. inversion E3'; subst imp' w3' t3'. clear E3'.
  erewrite bindM_ok by exact E3. cbn [fst snd].
  set (name := join_underscore date_folder_name cam_id realdate).
  pose proof (quiet_run _ _ _ w3 (get_or_create_timeline_quiet Handle World ask name))
    as [A4 _].
  destruct (get_or_create_timeline Handle World ask name w3)
    as [[[tl | e] w4] t4] eqn:E4; cbn [fst snd] in A4.
  2:{ erewrite bindM_raise by exact E4. cbn [fst snd].
      obs'. rewrite A1, A3, A4. constructor. }
  erewrite bindM_ok by exact E4. cbn [fst snd].
  destruct tl as [timeline|].
  2:{ erewrite bindM_ok by apply perform_run. cbn [fst snd ret].
      obs'. rewrite A1, A3, A4. constructor. }
  erewrite bindM_ok by apply perform_run. cbn [fst snd].
  erewrite bindM_ok by apply perform_run. cbn [fst snd].
  match goal with |- context [bindM (fold_M ?b imp ?a) _ ?w] =>
    destruct (fold_M b imp a w) as [[[[max_wh clip_infos] | e] w5] t5] eqn:E5
  end.
  2:{ erewrite bindM_raise by exact E5. cbn [fst snd].
      apply info_loop in E5. destruct E5 as [Q _].
      apply no_placement_appended in Q. destruct Q as [A5 _].
      obs'. rewrite A1, A3, A4, A5. constructor. }
  erewrite bindM_ok by exact E5. cbn [fst snd].
  pose proof (info_loop_entries Handle World ask _ _ _ _ _ _ _ _ E5) as (new & En & F5).
  cbn [snd app] in En. subst new.
  apply info_loop in E5. destruct E5 as [Q5 _].
  apply no_placement_appended in Q5. destruct Q5 as [A5 _].
  pose proof (quiet_run _ _ _ w5
                (apply_resolution_quiet Handle World ask timeline name max_wh))
    as [A6 _].
  destruct (apply_resolution Handle World ask timeline name max_wh w5)
    as [[[u | e] w6] t6] eqn:E6; cbn [fst snd] in A6.
  2:{ erewrite bindM_raise by exact E6. cbn [fst snd].
      obs'. rewrite A1, A3, A4, A5, A6. constructor. }
  erewrite bindM_ok by exact E6. cbn [fst snd].
  destruct (append_loop Handle World ask (sort_clip_infos Handle clip_infos) w6)
    as (w7 & t7 & E7 & A7 & _).
  erewrite bindM_ok by exact E7. cbn [fst snd ret].
  match goal with |- Forall _ (appended ?t) => set (tr := t) end.
  assert (Ea : appended tr = sort_clip_infos Handle clip_infos).
  { subst tr. obs'. rewrite A1, A3, A4, A5, A6, A7. cbn [app].
    rewrite !app_nil_r. reflexivity. }
  rewrite Ea. apply Forall_forall. intros i Hi.
  apply (Permutation_in _ (sort_by_perm _ _ _)) in Hi.
  destruct (Forall2_in_right _ _ _ _ F5 Hi) as ([[[item v] s] ts] & Hx & Hent).
  rewrite Forall_forall in F3. destruct (F3 _ Hx) as [Hit [[] | (rest & Himp)]].
  exists item, v, s, ts, rest. split; [exact Hit|]. split.
  - subst tr. repeat first [rewrite in_app_iff | progress cbn [In]]. tauto.
  - eapply entry_of_weaken; [|exact Hent].
    intros e He. subst tr. repeat first [rewrite in_app_iff | progress cbn [In]]. tauto.
Qed.

End EntriesOfGroup.

(** ** Order of the day groups (line 240) *)

Section SortByOrder.

Variable A : Type.
Variable leb : A -> A -> bool.

Lemma insert_by_permutation x l : Permutation (insert_by leb x l) (x :: l).
Proof.
  induction l as [|y l IH]; simpl.
  - apply Permutation_refl.
  - destruct (leb y x).
    + eapply perm_trans; [apply perm_skip, IH | apply perm_swap].
    + apply Permutation_refl.
Qed.

Lemma sort_by_permutation l : Permutation (sort_by leb l) l.
Proof.
  induction l as [|x l IH] using rev_ind.
  - apply Permutation_refl.
  - unfold sort_by in *. rewrite fold_left_app. cbn [fold_left].
    eapply perm_trans; [apply insert_by_permutation|].
    eapply perm_trans; [apply perm_skip, IH|].
    apply Permutation_cons_append.
Qed.

Hypothesis leb_total : forall a b, leb a b = false -> leb b a = true.
Hypothesis leb_trans : forall a b c, leb a b = true -> leb b c = true -> leb a c = true.

Lemma insert_by_ordered x l :
  StronglySorted (fun a b => leb a b = true) l ->
  StronglySorted (fun a b => leb a b = true) (insert_by leb x l).
Proof.
  induction 1 as [|y l Hs IH Hy]; simpl.
  - constructor; constructor.
  - destruct (leb y x) eqn:E.
    + constructor; [exact IH|].
      rewrite Forall_forall in *. intros z Hz.
      apply (Permutation_in _ (insert_by_permutation x l)) in Hz.
      destruct Hz as [<- | Hz]; [exact E | apply Hy, Hz].
    + apply leb_total in E.
      constructor; [constructor; assumption|].
      constructor; [exact E|].
      rewrite Forall_forall in *. intros z Hz.
      eapply leb_trans; [exact E | apply Hy, Hz].
Qed.

Lemma sort_by_ordered l : StronglySorted (fun a b => leb a b = true) (sort_by leb l).
Proof.
  induction l as [|x l IH] using rev_ind.
  - constructor.
  - unfold sort_by in *. rewrite fold_left_app. cbn [fold_left].
    apply insert_by_ordered, IH.
Qed.

End SortByOrder.

Lemma text_leb_total : forall a b, text_leb a b = false -> text_leb b a = true.
Proof.
  induction a as [|x a IH]; intros [|y b] H; simpl in *; try discriminate; try reflexivity.
  apply orb_false_iff in H. destruct H as [H1 H2].
  apply Z.ltb_ge in H1.
  destruct (Z.ltb_spec (code y) (code x)); [reflexivity|].
  assert (E : code x = code y) by lia.
  rewrite E, Z.eqb_refl in *. cbn [andb orb] in *. apply IH, H2.
Qed.

Lemma text_leb_trans : forall a b c,
  text_leb a b = true -> text_leb b c = true -> text_leb a c = true.
Proof.
  induction a as [|x a IH]; intros [|y b] [|z c] H1 H2; simpl in *;
    try discriminate; try reflexivity.
  apply orb_prop in H1. apply orb_prop in H2.
  destruct H1 as [H1 | H1], H2 as [H2 | H2].
  - apply Z.ltb_lt in H1, H2.
    destruct (Z.ltb_spec (code x) (code z)); [reflexivity | lia].
  - apply Z.ltb_lt in H1. apply andb_prop in H2. destruct H2 as [H2 _].
    apply Z.eqb_eq in H2.
    destruct (Z.ltb_spec (code x) (code z)); [reflexivity | lia].
  - apply Z.ltb_lt in H2. apply andb_prop in H1. destruct H1 as [H1 _].
    apply Z.eqb_eq in H1.
    destruct (Z.ltb_spec (code x) (code z)); [reflexivity | lia].
  - apply andb_prop in H1. apply andb_prop in H2.
    destruct H1 as [E1 H1], H2 as [E2 H2]. apply Z.eqb_eq in E1, E2.
    rewrite E1, E2, Z.eqb_refl, (IH _ _ H1 H2). apply orb_true_r.
Qed.

Lemma code_digit_char n : code (digit_char n) = 48 + n mod 10.
Proof.
  unfold code, digit_char.
  pose proof (Z.mod_pos_bound n 10 ltac:(lia)).
  rewrite N_ascii_embedding by lia. lia.
Qed.

Lemma two_digits_leb a b r1 r2 :
  0 <= a < 100 -> 0 <= b < 100 ->
  text_leb (two_digits a ++ r1) (two_digits b ++ r2)
  = (a <? b) || ((a =? b) && text_leb r1 r2).
Proof.
  intros Ha Hb. unfold two_digits. cbn [app text_leb].
  rewrite !code_digit_char.
  pose proof (Z.div_mod a 10 ltac:(lia)) as Da.
  pose proof (Z.div_mod b 10 ltac:(lia)) as Db.
  pose proof (Z.mod_pos_bound a 10 ltac:(lia)) as Ma.
  pose proof (Z.mod_pos_bound b 10 ltac:(lia)) as Mb.
  assert (0 <= a / 10 < 10)
    by (split; [apply Z.div_pos | apply Z.div_lt_upper_bound]; lia).
  assert (0 <= b / 10 < 10)
    by (split; [apply Z.div_pos | apply Z.div_lt_upper_bound]; lia).
  rewrite (Z.mod_small (a / 10)), (Z.mod_small (b / 10)) by lia.
  set (a1 := a / 10) in *. set (a0 := a mod 10) in *.
  set (b1 := b / 10) in *. set (b0 := b mod 10) in *.
  destruct (text_leb r1 r2);
    destruct (Z.ltb_spec (48 + a1) (48 + b1)), (Z.eqb_spec (48 + a1) (48 + b1)),
             (Z.ltb_spec (48 + a0) (48 + b0)), (Z.eqb_spec (48 + a0) (48 + b0)),
             (Z.ltb_spec a b), (Z.eqb_spec a b);
    cbn [orb andb]; try reflexivity; exfalso; lia.
Qed.

Lemma dash_leb r1 r2 : text_leb (str "-" ++ r1) (str "-" ++ r2) = text_leb r1 r2.
Proof. reflexivity. Qed.

Lemma strftime_ymd_leb t1 t2 :
  valid_datetime t1 = true -> valid_datetime t2 = true ->
  text_leb (strftime_ymd t1) (strftime_ymd t2)
  = lex_leb [year t1 mod 100; month t1; day t1] [year t2 mod 100; month t2; day t2].
Proof.
  intros V1 V2.
  apply valid_datetime_date in V1, V2.
  pose proof (Z.mod_pos_bound (year t1) 100 ltac:(lia)).
  pose proof (Z.mod_pos_bound (year t2) 100 ltac:(lia)).
  unfold strftime_ymd.
  rewrite two_digits_leb, dash_leb, two_digits_leb, dash_leb by lia.
  rewrite <- (app_nil_r (two_digits (day t1))), <- (app_nil_r (two_digits (day t2))).
  rewrite two_digits_leb by lia.
  reflexivity.
Qed.

(** X11.  The day groups of a camera are processed in the order of
    their keys: [sorted_groups] rearranges the groups, loses none, and
    orders the keys as strings; and for timestamps of one century the
    order of the keys is the order of the dates. *)
Theorem sorted_groups_in_date_order (g : groups) :
  Permutation (sorted_groups g) g /\
  StronglySorted (fun a b => text_leb (fst a) (fst b) = true) (sorted_groups g) /\
  forall t1 t2,
    valid_datetime t1 = true -> valid_datetime t2 = true ->
    year t1 / 100 = year t2 / 100 ->
    (text_leb (strftime_ymd t1) (strftime_ymd t2) = true <->
     lex_leb [year t1; month t1; day t1] [year t2; month t2; day t2] = true).
Proof.
  split; [apply sort_by_permutation|]. split.
  - unfold sorted_groups. apply sort_by_ordered.
    + intros a b. apply text_leb_total.
    + intros a b c. apply text_leb_trans.
  - intros t1 t2 V1 V2 Hc. rewrite strftime_ymd_leb by assumption.
    cbn [lex_leb].
    pose proof (Z.div_mod (year t1) 100 ltac:(lia)) as D1.
    pose proof (Z.div_mod (year t2) 100 ltac:(lia)) as D2.
    rewrite Hc in D1.
    assert (E1 : (year t1 mod 100 <? year t2 mod 100) = (year t1 <? year t2)).
    { destruct (Z.ltb_spec (year t1 mod 100) (year t2 mod 100)),
               (Z.ltb_spec (year t1) (year t2)); try reflexivity; lia. }
    assert (E2 : (year t1 mod 100 =? year t2 mod 100) = (year t1 =? year t2)).
    { destruct (Z.eqb_spec (year t1 mod 100) (year t2 mod 100)),
               (Z.eqb_spec (year t1) (year t2)); try reflexivity; lia. }
    rewrite E1, E2. reflexivity.
Qed.

(** Across a century boundary the order of the keys is not the order of
    the dates: the key of 2000-01-01 sorts before the key of 1999-12-31. *)
Example sorted_groups_century :
  text_leb (strftime_ymd {| year := 2000; month := 1; day := 1; hour := 0;
                            minute := 0; second := 0; microsecond := 0 |})
           (strftime_ymd {| year := 1999; month := 12; day := 31; hour := 0;
                            minute := 0; second := 0; microsecond := 0 |})
  = true.
Proof. vm_compute. reflexivity. Qed.


